(** * Evidence scoring and selection pipeline of the shift archive

    A shallow embedding of the three evidence scripts
    - [scripts/generate_republic_critical_evidence.py]   (module [Republic]),
    - [scripts/generate_science_shift_research_packet.py] (module [Science]),
    - [scripts/generate_republic_shift_research_packet.py] (module [Packet]),
    followed by the properties of scoring, quote selection, selection with
    cap and backfill, fingerprinting and the run ledger.

    Conventions of the embedding.
    - A Python [str] is a [string]; a character is a code point below 256.
    - A Python [float] score is an exact rational of [Q]: the scripts only
      add small multiples of 0.8, 0.85, 1.25, 1.3 and 1.5 to integers, and
      every comparison below is made on the exact value.  Numbers are
      rendered from the exact value, ties to even; no property below
      depends on a rendered digit.
    - A [dict] whose iteration order matters is an association list in
      insertion order; a [set] of strings is a list read through membership.
    - [list.sort] and [sorted] are stable: they are modelled by a stable
      insertion sort on the same key. *)

From Stdlib Require Import List Bool Arith ZArith NArith QArith Lia.
From Stdlib Require Import Ascii String DecimalString.
From Stdlib Require Import Sorting.Sorted Sorting.Permutation.
Import ListNotations.

Close Scope Q_scope.
Open Scope nat_scope.
Open Scope string_scope.

(** ** Text primitives *)

Module Text.

(** Code point of a character. *)
Definition code (c : ascii) : N := N_of_ascii c.

(** [str.isspace] and the regular expression class [\s] on code points
    below 256: TAB..CR, FS..US, SPACE, NEL and NBSP. *)
Definition is_space (c : ascii) : bool :=
  let n := code c in
  ((9 <=? n) && (n <=? 13) || (28 <=? n) && (n <=? 32)
   || (n =? 133) || (n =? 160))%N.

(** [str.lower] on one code point below 256. *)
Definition lower_char (c : ascii) : ascii :=
  let n := code c in
  if ((65 <=? n) && (n <=? 90)
      || (192 <=? n) && (n <=? 222) && negb (n =? 215))%N
  then ascii_of_N (n + 32) else c.

Fixpoint lower (s : string) : string :=
  match s with
  | EmptyString => EmptyString
  | String c r => String (lower_char c) (lower r)
  end.

(** [re.sub(r"\s+", " ", s)]: every maximal run of white space becomes one
    space.  The flag records that the previous character was white space. *)
Fixpoint collapse_from (in_ws : bool) (s : string) : string :=
  match s with
  | EmptyString => EmptyString
  | String c r =>
      if is_space c
      then (if in_ws then collapse_from true r
            else String " " (collapse_from true r))
      else String c (collapse_from false r)
  end.

Definition collapse_ws (s : string) : string := collapse_from false s.

Fixpoint lstrip (s : string) : string :=
  match s with
  | EmptyString => EmptyString
  | String c r => if is_space c then lstrip r else s
  end.

Fixpoint rstrip (s : string) : string :=
  match s with
  | EmptyString => EmptyString
  | String c r =>
      match rstrip r with
      | EmptyString => if is_space c then EmptyString else String c EmptyString
      | r' => String c r'
      end
  end.

(** [s.strip()] *)
Definition strip (s : string) : string := rstrip (lstrip s).

(** [re.sub(r"\s+", " ", s).strip()] *)
Definition clean (s : string) : string := strip (collapse_ws s).

(** [normalize]: [re.sub(r"\s+", " ", text).strip().lower()], a missing text
    being the empty one. *)
Definition normalize (text : string) : string := lower (clean text).

(** The only white space of the text is single spaces; [prev_space] tells
    that a space precedes the text. *)
Fixpoint single_spaced (prev_space : bool) (s : string) : bool :=
  match s with
  | EmptyString => true
  | String c r =>
      if is_space c
      then Ascii.eqb c " " && negb prev_space && single_spaced true r
      else single_spaced false r
  end.

(** The character [c] does not occur in the text. *)
Fixpoint free_of (c : ascii) (s : string) : bool :=
  match s with
  | EmptyString => true
  | String d r => negb (Ascii.eqb d c) && free_of c r
  end.

(** The text is empty or made of white space only. *)
Fixpoint blank (s : string) : bool :=
  match s with
  | EmptyString => true
  | String c r => is_space c && blank r
  end.

(** [s.startswith(p)] *)
Fixpoint starts_with (p s : string) : bool :=
  match p, s with
  | EmptyString, _ => true
  | String _ _, EmptyString => false
  | String a p', String b s' => Ascii.eqb a b && starts_with p' s'
  end.

(** [probe in text] *)
Fixpoint contains (probe text : string) : bool :=
  starts_with probe text
  || match text with
     | EmptyString => false
     | String _ r => contains probe r
     end.

(** [slug in signals] for a set of strings. *)
Definition mem (x : string) (xs : list string) : bool :=
  existsb (String.eqb x) xs.

(** No string occurs twice in the list. *)
Fixpoint distinct (l : list string) : bool :=
  match l with
  | [] => true
  | x :: t => negb (mem x t) && distinct t
  end.

(** [sep.join(parts)] *)
Fixpoint join (sep : string) (parts : list string) : string :=
  match parts with
  | [] => EmptyString
  | [p] => p
  | p :: rest => p ++ sep ++ join sep rest
  end.

(** [count_occurrences]: one point for every probe found in the text,
    however often it occurs there. *)
Fixpoint count_occurrences (text : string) (probes : list string) : nat :=
  match probes with
  | [] => 0
  | probe :: rest =>
      (if contains probe text then 1 else 0) + count_occurrences text rest
  end.

(** The number of probes that occur in the text at least once. *)
Definition probes_found (probes : list string) (text : string) : nat :=
  List.length (filter (fun probe => contains probe text) probes).

(** The number of places of the text at which the probe starts. *)
Fixpoint occurrences (probe text : string) : nat :=
  (if starts_with probe text then 1 else 0)
  + match text with
    | EmptyString => 0
    | String _ r => occurrences probe r
    end.

End Text.

(** ** Stable sorting, as [list.sort(key=...)] and [sorted(...)] do it *)

Section StableSort.

Context {A : Type}.
(** [le x y]: the key of [x] does not come after the key of [y]. *)
Variable le : A -> A -> bool.

(** [x] goes in front of the first element it does not come after, so in
    front of every element with an equal key that was inserted before. *)
Fixpoint insert_sorted (x : A) (l : list A) : list A :=
  match l with
  | [] => [x]
  | y :: t => if le x y then x :: l else y :: insert_sorted x t
  end.

(** Elements are inserted from the last to the first: among equal keys the
    original order is kept. *)
Fixpoint stable_sort (l : list A) : list A :=
  match l with
  | [] => []
  | x :: t => insert_sorted x (stable_sort t)
  end.

(** The order of the keys, as a relation. *)
Definition le_rel (x y : A) : Prop := le x y = true.

End StableSort.

(** ** Rational helpers for scores *)

Definition Qltb (x y : Q) : bool := negb (Qle_bool y x).

(** Python's [min(a, b)]: [b] when [b < a], else [a]. *)
Definition py_min (a b : Q) : Q := if Qltb b a then b else a.

Definition Qnat (n : nat) : Q := inject_Z (Z.of_nat n).

(** [sum(values)] over natural numbers. *)
Definition sum_nat (l : list nat) : nat := fold_left Nat.add l 0.

(** ** Phases and association lists *)

Inductive phase : Type := Before | After.

Definition phase_name (p : phase) : string :=
  match p with Before => "before" | After => "after" end.

Definition phase_eqb (p q : phase) : bool :=
  match p, q with
  | Before, Before | After, After => true
  | _, _ => false
  end.

(** [d[key]] on a dictionary of counters held in insertion order; the
    scripts only look up keys that are present. *)
Fixpoint lookup (d : list (string * nat)) (key : string) : nat :=
  match d with
  | [] => 0
  | (k, v) :: rest => if String.eqb k key then v else lookup rest key
  end.

(** ** The scoring engine shared by the two scoring scripts

    Both scripts carry their own copy of the same functions; they differ in
    the catalogue and in four constants, gathered in [shift_config]. *)

Record shift_config : Type := {
  phase_keywords : phase -> list (string * list string);
  anchors : list string;
  tag_signals : phase -> list string;
  body_cap : nat;
  anchor_weight : Q;
  tag_weight : Q;
  min_paragraph : nat
}.

Section Engine.

Variable cfg : shift_config.

(** [compute_group_hits] *)
Definition compute_group_hits (ph : phase) (text : string)
  : list (string * nat) :=
  map (fun g => (fst g, Text.count_occurrences text (snd g)))
      (phase_keywords cfg ph).

(** The number of tag slugs found in the signal set of the phase. *)
Definition signal_count (ph : phase) (tag_slugs : list string) : nat :=
  List.length
    (filter (fun slug => Text.mem slug (tag_signals cfg ph)) tag_slugs).

(** The [group_hits] dictionary built inside [score_article]. *)
Definition weighted_group_hits (ph : phase) (title summary body_text : string)
  : list (string * nat) :=
  let groups_title := compute_group_hits ph (Text.normalize title) in
  let groups_summary := compute_group_hits ph (Text.normalize summary) in
  let groups_body := compute_group_hits ph (Text.normalize body_text) in
  map (fun g =>
         let group := fst g in
         (group,
          lookup groups_title group * 4
          + lookup groups_summary group * 2
          + Nat.min (lookup groups_body group) (body_cap cfg)))
      (phase_keywords cfg ph).

(** The anchor count of [score_article], over the three normalized fields
    joined by single spaces. *)
Definition article_anchor_hits (title summary body_text : string) : nat :=
  Text.count_occurrences
    (Text.join " " [Text.normalize title; Text.normalize summary;
                    Text.normalize body_text])
    (anchors cfg).

(** [score_article]: total score, group hits, anchor hits, active groups. *)
Definition score_article (ph : phase) (title summary : string)
           (tag_slugs : list string) (body_text : string)
  : Q * list (string * nat) * nat * nat :=
  let group_hits := weighted_group_hits ph title summary body_text in
  let phase_score := Qnat (sum_nat (map snd group_hits)) in
  let anchor_hits := article_anchor_hits title summary body_text in
  let tag_score := (Qnat (signal_count ph tag_slugs) * tag_weight cfg)%Q in
  let total_score :=
    (phase_score + tag_score + Qnat anchor_hits * anchor_weight cfg)%Q in
  (total_score, group_hits, anchor_hits,
   List.length (filter (fun value => Nat.ltb 0 value) (map snd group_hits))).

(** [paragraph_score] *)
Definition paragraph_score (ph : phase) (paragraph : string) : Q :=
  let text := Text.normalize paragraph in
  let group_hits := compute_group_hits ph text in
  let anchor_count := Text.count_occurrences text (anchors cfg) in
  (Qnat (sum_nat (map snd group_hits)) + Qnat anchor_count * (15 # 10))%Q.

(** The paragraph score as the specification words it: the flat group hits
    plus the anchor hits weighted by the anchor weight of [score_article]. *)
Definition paragraph_score_as_specified (ph : phase) (paragraph : string) : Q :=
  let text := Text.normalize paragraph in
  (Qnat (sum_nat (map snd (compute_group_hits ph text)))
   + Qnat (Text.count_occurrences text (anchors cfg)) * anchor_weight cfg)%Q.

End Engine.

(** The four components of the result of [score_article]. *)
Definition score_of (r : Q * list (string * nat) * nat * nat) : Q :=
  fst (fst (fst r)).
Definition group_hits_of (r : Q * list (string * nat) * nat * nat)
  : list (string * nat) := snd (fst (fst r)).
Definition anchor_hits_of (r : Q * list (string * nat) * nat * nat) : nat :=
  snd (fst r).
Definition active_groups_of (r : Q * list (string * nat) * nat * nat) : nat :=
  snd r.

(** ** Quote extraction helpers *)

Module Quote.

Definition LF : ascii := "010"%char.

(** Put a character in front of the first chunk of a split. *)
Definition push (c : ascii) (chunks : list string) : list string :=
  match chunks with
  | [] => [String c EmptyString]
  | h :: t => String c h :: t
  end.

(** [body_text.split("\n\n")]: cut at every pair of line feeds, read from
    the left without overlap. *)
Fixpoint split_blank_lines (s : string) : list string :=
  match s with
  | EmptyString => [EmptyString]
  | String c r =>
      match r with
      | String d r' =>
          if Ascii.eqb c LF && Ascii.eqb d LF
          then EmptyString :: split_blank_lines r'
          else push c (split_blank_lines r)
      | EmptyString => push c (split_blank_lines r)
      end
  end.

(** The character class [[.!?]]. *)
Definition is_terminator (c : ascii) : bool :=
  Ascii.eqb c "." || Ascii.eqb c "!" || Ascii.eqb c "?".

(** [(\s|$)] at the head of the rest of the text. *)
Definition at_space_or_end (r : string) : bool :=
  match r with
  | EmptyString => true
  | String d _ => Text.is_space d
  end.

(** The last character of the text is a terminator. *)
Fixpoint ends_in_terminator (s : string) : bool :=
  match s with
  | EmptyString => false
  | String c EmptyString => is_terminator c
  | String _ r => ends_in_terminator r
  end.

(** After the first character: the shortest stretch that ends in a
    terminator followed by white space or by the end of the text. *)
Fixpoint scan_sentence (r : string) : option string :=
  match r with
  | EmptyString => None
  | String c r' =>
      if is_terminator c && at_space_or_end r'
      then Some (String c EmptyString)
      else option_map (String c) (scan_sentence r')
  end.

(** [re.match(r"^(.+?[.!?])(\s|$)", normalized)], group 1.  The text was
    cleaned before, so it holds no line feed and [.] matches everything. *)
Definition match_sentence (normalized : string) : option string :=
  match normalized with
  | EmptyString => None
  | String c r => option_map (String c) (scan_sentence r)
  end.

(** [first_sentence] *)
Definition first_sentence (text : string) : string :=
  let normalized := Text.clean text in
  match normalized with
  | EmptyString => EmptyString
  | _ =>
      Text.strip (match match_sentence normalized with
                  | Some group1 => group1
                  | None => normalized
                  end)
  end.

(** A first sentence as the specification words it: a head [g] of the text,
    of two characters at least, that ends in one of [. ! ?] and is followed
    by white space or by the end of the text.  The pattern of
    [first_sentence] matches the shortest one. *)
Definition sentence_head (g text : string) : Prop :=
  exists body t rest,
    g = body ++ String t EmptyString
    /\ body <> EmptyString
    /\ (t = "."%char \/ t = "!"%char \/ t = "?"%char)
    /\ text = g ++ rest
    /\ (rest = EmptyString
        \/ exists d rest', rest = String d rest' /\ Text.is_space d = true).

(** [re.split(r"(?<=[.!?])\s+", clean)]: a run of white space that follows
    a terminator separates two sentences.  [prev_term]: the previous
    character is a terminator; [skipping]: inside a separating run. *)
Fixpoint split_sentences (prev_term skipping : bool) (s : string)
  : list string :=
  match s with
  | EmptyString => [EmptyString]
  | String c r =>
      if Text.is_space c
      then (if skipping then split_sentences false true r
            else if prev_term
                 then EmptyString :: split_sentences false true r
                 else push c (split_sentences false false r))
      else push c (split_sentences (is_terminator c) false r)
  end.

(** The accumulation loop of [shorten_quote]: whole sentences as long as
    the total, with one joining space each, stays within the budget. *)
Fixpoint take_sentences (max_chars total : nat) (selected : list string)
         (sentences : list string) : list string :=
  match sentences with
  | [] => selected
  | sentence :: rest =>
      match sentence with
      | EmptyString => take_sentences max_chars total selected rest
      | _ =>
          let new_total :=
            total + String.length sentence
            + (match selected with [] => 0 | _ => 1 end) in
          if Nat.ltb max_chars new_total then selected
          else take_sentences max_chars new_total
                 (selected ++ [sentence])%list rest
      end
  end.

(** [s[:n]] *)
Definition take_chars (n : nat) (s : string) : string := substring 0 n s.

(** [s.rsplit(" ", 1)[0]]: what precedes the last space, or all of [s]. *)
Fixpoint before_last_space (s : string) : string :=
  match s with
  | EmptyString => EmptyString
  | String c r =>
      if Ascii.eqb c " " && negb (Text.contains " " r)
      then EmptyString
      else String c (before_last_space r)
  end.

(** [shorten_quote] *)
Definition shorten_quote (paragraph : string) (max_chars : nat) : string :=
  let clean := Text.clean paragraph in
  if Nat.leb (String.length clean) max_chars then clean
  else
    let sentences := split_sentences false false clean in
    match take_sentences max_chars 0 [] sentences with
    | [] => Text.strip (before_last_space (take_chars max_chars clean))
    | selected => Text.strip (Text.join " " selected)
    end.

End Quote.

Inductive quote_source : Type := body_paragraph | summary_sentence | title_source.

Definition quote_source_name (q : quote_source) : string :=
  match q with
  | body_paragraph => "body_paragraph"
  | summary_sentence => "summary_sentence"
  | title_source => "title"
  end.

Section QuoteEngine.

Variable cfg : shift_config.

(** [split_paragraphs] *)
Definition split_paragraphs (body_text : string) : list string :=
  match body_text with
  | EmptyString => []
  | _ =>
      filter (fun part => Nat.leb (min_paragraph cfg) (String.length part))
             (map Text.clean (Quote.split_blank_lines body_text))
  end.

(** [sorted(..., key=lambda item: item[0], reverse=True)]: descending
    score, equal scores in their original order. *)
Definition rank_paragraphs (ph : phase) (paragraphs : list string)
  : list (Q * string) :=
  stable_sort (fun x y => Qle_bool (fst y) (fst x))
              (map (fun paragraph => (paragraph_score cfg ph paragraph, paragraph))
                   paragraphs).

(** [choose_quote] of the republic script, [pick_quote] of the science
    script: the two bodies are the same. *)
Definition choose_quote (ph : phase) (body_text summary title : string)
  : string * quote_source * Q :=
  let fallback :=
    let summary_sentence_text := Quote.first_sentence summary in
    match summary_sentence_text with
    | EmptyString => (Text.strip title, title_source, (25 # 100)%Q)
    | _ => (summary_sentence_text, summary_sentence, (42 # 100)%Q)
    end in
  match rank_paragraphs ph (split_paragraphs body_text) with
  | (best_score, best_paragraph) :: _ =>
      if Qltb 0 best_score
      then (Quote.shorten_quote best_paragraph 520, body_paragraph,
            py_min 1 ((45 # 100) + best_score / 20)%Q)
      else fallback
  | [] => fallback
  end.

End QuoteEngine.

(** ** Rendering numbers, as Python's format strings do *)

Module Render.

(** [str(n)] for a count. *)
Definition decimal (n : nat) : string :=
  NilZero.string_of_uint (Nat.to_uint n).

Definition decimal_Z (z : Z) : string :=
  NilZero.string_of_uint (N.to_uint (Z.to_N z)).

(** Nearest integer to [num * scale / den], ties to the even neighbour. *)
Definition round_half_even (num den scale : Z) : Z :=
  let f := (num * scale / den)%Z in
  let r := ((num * scale) mod den)%Z in
  match (2 * r ?= den)%Z with
  | Lt => f
  | Gt => (f + 1)%Z
  | Eq => if Z.even f then f else (f + 1)%Z
  end.

(** [digits] decimal digits of [m], padded with zeros on the left. *)
Definition padded (digits : nat) (m : Z) : string :=
  let s := decimal_Z m in
  Text.join EmptyString (repeat "0" (digits - String.length s)) ++ s.

(** [f"{q:.{digits}f}"] for [digits >= 1]: sign, integer part, point and
    [digits] decimals of the value rounded half to even. *)
Definition format_fixed (digits : nat) (q : Q) : string :=
  let scale := (10 ^ Z.of_nat digits)%Z in
  let m := round_half_even (Z.abs (Qnum q)) (Zpos (Qden q)) scale in
  (if (Qnum q <? 0)%Z then "-" else EmptyString)
  ++ decimal_Z (m / scale) ++ "." ++ padded digits (m mod scale).

(** [round(q, digits)] *)
Definition round_to (digits : nat) (q : Q) : Q :=
  let scale := (10 ^ Z.of_nat digits)%Z in
  let m := round_half_even (Z.abs (Qnum q)) (Zpos (Qden q)) scale in
  (inject_Z (if (Qnum q <? 0)%Z then (- m)%Z else m) / inject_Z scale)%Q.

End Render.

(** ** Labels and rationale, common to the two scoring scripts *)

(** [strength_label] *)
Definition strength_label (score : Q) : string :=
  if Qle_bool 18 score then "strong"
  else if Qle_bool 11 score then "moderate"
  else "weak".

(** The order of [key=lambda item: item[1], reverse=True]: larger counts
    first. *)
Definition hits_desc (x y : string * nat) : bool := Nat.leb (snd y) (snd x).

(** [sorted(group_hits.items(), key=lambda item: item[1], reverse=True)] *)
Definition strongest_first (group_hits : list (string * nat))
  : list (string * nat) :=
  stable_sort hits_desc group_hits.

(** The lead group named in the rationale. *)
Definition lead_of (group_hits : list (string * nat)) : string :=
  match strongest_first group_hits with
  | [] => "none"
  | item :: _ => fst item
  end.

(** [build_rationale], with the two decision sentences of the script. *)
Definition render_rationale (selected_text excluded_text : string)
           (ph : phase) (score : Q) (anchor_hits : nat)
           (group_hits : list (string * nat)) (selected : bool) : string :=
  let strongest := strongest_first group_hits in
  let lead := lead_of group_hits in
  let group_summary :=
    Text.join ", "
      (map (fun item => fst item ++ ":" ++ Render.decimal (snd item)) strongest) in
  let decision := if selected then selected_text else excluded_text in
  decision ++ " Score=" ++ Render.format_fixed 1 score
  ++ "; phase=" ++ phase_name ph
  ++ "; anchors=" ++ Render.decimal anchor_hits
  ++ "; lead_group=" ++ lead
  ++ "; group_hits=[" ++ group_summary ++ "].".

(** [max(group_hits.items(), key=lambda item: item[1])[0]]: the first group
    with the largest count; the catalogue is never empty. *)
Fixpoint first_max (best : string * nat) (rest : list (string * nat))
  : string * nat :=
  match rest with
  | [] => best
  | item :: tl =>
      if Nat.ltb (snd best) (snd item) then first_max item tl
      else first_max best tl
  end.

Definition strongest_group (group_hits : list (string * nat)) : string :=
  match group_hits with
  | [] => EmptyString
  | item :: rest => fst (first_max item rest)
  end.

(** Equal score and equal date: a class the two-key orders do not tell apart. *)
Definition tied (A : Type) (score : A -> Q) (date : A -> string)
           (s : Q) (d : string) (x : A) : bool :=
  Qeq_bool (score x) s && String.eqb (date x) d.

(** The order of the selection as the specification words it: the higher
    score first, and of two equal scores the earlier date first. *)
Definition ranked_before {A : Type} (score : A -> Q) (date : A -> string)
           (x y : A) : Prop :=
  (score y < score x)%Q
  \/ ((score x == score y)%Q /\ String.leb (date x) (date y) = true).

(** The same with the title as third key: of two equal scores and equal
    dates the title that sorts first. *)
Definition ranked_before_titled {A : Type} (score : A -> Q)
           (date title : A -> string) (x y : A) : Prop :=
  (score y < score x)%Q
  \/ ((score x == score y)%Q
      /\ String.leb (date x) (date y) = true
      /\ (date x = date y -> String.leb (title x) (title y) = true)).

(** The values of [selection_reason]; [unset] is the empty string a row
    carries before the selection. *)
Inductive selection_reason : Type :=
| unset
| passed_threshold
| backfill_to_phase_cap
| below_cutoff
| below_phase_cap
| blocked_non_full_text.

(** ** The republic track: [generate_republic_critical_evidence.py] *)

Module Republic.

Definition MILESTONE_YEAR : Z := 2024.
Definition DEFAULT_VERSION : string := "critical_v1".

Definition REPUBLIC_ANCHORS : list string :=
  ["republic"; "constitution"; "constitutional"; "democracy"; "democratic";
   "citizenship"; "citizen"; "state"; "institution"; "majoritarian";
   "public sphere"].

Definition PHASE_KEYWORDS (ph : phase) : list (string * list string) :=
  match ph with
  | Before =>
      [("institutional_grammar",
        ["constitution"; "constitutional"; "institution"; "nehru"; "state";
         "citizenship"; "citizen"; "left and right"; "secularism";
         "university"]);
       ("decay_diagnostics",
        ["drying up"; "sadness"; "banal"; "mediocre"; "decay"; "hollow";
         "crisis"; "erosion"; "impoverishes"; "violence"]);
       ("democratic_urgency",
        ["public sphere"; "civil society"; "dissent"; "rights"; "ethics";
         "morality"; "democracy"])]
  | After =>
      [("new_grammar",
        ["second republic"; "new republic"; "reimagining democracy";
         "improvis"; "digital"; "populist"; "knowledge panchayat";
         "citizen back"]);
       ("embodied_ethics",
        ["body politics"; "yatra"; "satyagraha"; "playfulness"; "moral";
         "ethics"; "conscience"; "peace"]);
       ("plural_futures",
        ["anthropocene"; "ecocide"; "cognitive justice"; "plural";
         "commons"; "survival"; "knowledge systems"])]
  end.

Definition TAG_SLUG_SIGNALS (ph : phase) : list string :=
  match ph with
  | Before =>
      ["democracy"; "law-and-justice"; "public-institutions";
       "public-sphere"; "nationalism"; "secularism"; "education-policy"]
  | After =>
      ["democracy"; "pluralism"; "ethics"; "knowledge-systems"; "ecology";
       "technology-and-society"; "public-sphere"]
  end.

(** The constants written into [score_article] and [split_paragraphs]. *)
Definition config : shift_config :=
  {| phase_keywords := PHASE_KEYWORDS;
     anchors := REPUBLIC_ANCHORS;
     tag_signals := TAG_SLUG_SIGNALS;
     body_cap := 6;
     anchor_weight := (8 # 10)%Q;
     tag_weight := (13 # 10)%Q;
     min_paragraph := 70 |}.

Definition score_article := score_article config.
Definition paragraph_score := paragraph_score config.
Definition split_paragraphs := split_paragraphs config.
Definition choose_quote := choose_quote config.

(** The phase of an article: [year < MILESTONE_YEAR]. *)
Definition classify (year : Z) : phase :=
  if (year <? MILESTONE_YEAR)%Z then Before else After.

(** [build_connection_text] *)
Definition build_connection_text (ph : phase) (strongest : string) : string :=
  match ph with
  | Before =>
      if String.eqb strongest "institutional_grammar"
      then "Strongly linked to Phase 1 because it interrogates constitutional-institutional grammar central to the First Republic."
      else if String.eqb strongest "decay_diagnostics"
      then "Strongly linked to Phase 1 because it diagnoses democratic erosion within First Republic structures."
      else "Strongly linked to Phase 1 because it treats ethics, dissent, and civic urgency as responses to institutional decline."
  | After =>
      if String.eqb strongest "new_grammar"
      then "Strongly linked to Phase 2 because it articulates emerging vocabularies of a contested Second Republic."
      else if String.eqb strongest "embodied_ethics"
      then "Strongly linked to Phase 2 because it shifts politics toward embodied action, moral imagination, and public pedagogy."
      else "Strongly linked to Phase 2 because it reframes democratic futures through plural knowledge and ecological survival."
  end.

(** [build_rationale] *)
Definition build_rationale : phase -> Q -> nat -> list (string * nat) -> bool -> string :=
  render_rationale
    "Selected for narrative because relevance is high and concept coverage is multi-dimensional."
    "Excluded from core narrative because relevance is insufficient under strict selection criteria.".

(** A row of the article query of [main]. *)
Record article : Type := {
  article_uid : string;
  title : string;
  published_at : string;
  year : Z;
  body_text : string
}.

(** The command line of [main]. *)
Record arguments : Type := {
  method : string;
  version : string;
  max_per_phase : nat;
  min_score : Q;
  min_anchor_hits : Z;
  min_group_hits : Z;
  dry_run : bool
}.

(** An entry of the [candidates] list of [main]. *)
Record candidate : Type := {
  c_article_uid : string;
  c_published_at : string;
  c_phase : phase;
  c_score : Q;
  c_strength : string;
  c_include : bool;
  c_connection : string;
  c_rationale : string;
  c_quote_text : string;
  c_quote_source : quote_source;
  c_quote_confidence : Q;
  c_summary : string;
  c_tag_slugs : list string
}.

(** The body of the first loop of [main].  [summary_by_uid] and
    [tag_slugs_by_uid] are the two dictionaries read through [.get]. *)
Definition make_candidate (args : arguments)
           (summary_by_uid : string -> string)
           (tag_slugs_by_uid : string -> list string)
           (row : article) : candidate :=
  let uid := article_uid row in
  let summary := summary_by_uid uid in
  let ph := classify (year row) in
  let tag_slugs := tag_slugs_by_uid uid in
  let '(score, group_hits, anchor_hits, active_groups) :=
    score_article ph (title row) summary tag_slugs (body_text row) in
  let should_include :=
    Qle_bool (min_score args) score
    && (min_anchor_hits args <=? Z.of_nat anchor_hits)%Z
    && (min_group_hits args <=? Z.of_nat active_groups)%Z in
  let '(quote_text, source, confidence) :=
    choose_quote ph (body_text row) summary (title row) in
  {| c_article_uid := uid;
     c_published_at := published_at row;
     c_phase := ph;
     c_score := score;
     c_strength := strength_label score;
     c_include := should_include;
     c_connection := build_connection_text ph (strongest_group group_hits);
     c_rationale := build_rationale ph score anchor_hits group_hits should_include;
     c_quote_text := quote_text;
     c_quote_source := source;
     c_quote_confidence := confidence;
     c_summary := summary;
     c_tag_slugs := tag_slugs |}.

(** The sort key [(-row["score"], row["published_at"])], compared as
    Python compares tuples. *)
Definition key_le (x y : candidate) : bool :=
  if Qeq_bool (c_score x) (c_score y)
  then String.leb (c_published_at x) (c_published_at y)
  else Qltb (c_score y) (c_score x).

(** The candidates of a phase that passed the thresholds, in key order. *)
Definition phase_candidates (candidates : list candidate) (ph : phase)
  : list candidate :=
  stable_sort key_le
    (filter (fun row => phase_eqb (c_phase row) ph && c_include row) candidates).

(** [selected_ids_by_phase[phase]], as the list of the identifiers added. *)
Definition selected_ids (cap : nat) (candidates : list candidate) (ph : phase)
  : list string :=
  map c_article_uid (firstn cap (phase_candidates candidates ph)).

(** The candidates of a phase that the second loop of [main] writes with
    [include_in_story = 1]. *)
Definition selected_rows (cap : nat) (candidates : list candidate) (ph : phase)
  : list candidate :=
  filter (fun row => phase_eqb (c_phase row) ph
                     && Text.mem (c_article_uid row)
                                 (selected_ids cap candidates (c_phase row)))
         candidates.

(** [len(selected_ids_by_phase[phase])]: the size of the set. *)
Definition selected_count (cap : nat) (candidates : list candidate) (ph : phase)
  : nat :=
  List.length (nodup string_dec (selected_ids cap candidates ph)).

(** *** Fingerprint and run ledger *)

(** A row of [republic_shift_evidence]; [id] and [generated_at] are given
    by the database and follow the position in the table. *)
Record evidence_row : Type := {
  e_article_uid : string;
  e_phase : phase;
  e_include_in_story : bool;
  e_relevance_score : Q;
  e_strength_label : string;
  e_connection_text : string;
  e_rationale : string;
  e_quote_text : string;
  e_quote_source : quote_source;
  e_quote_confidence : Q;
  e_method : string;
  e_version : string;
  e_input_fingerprint : string;
  e_run_uid : string
}.

(** A row of [republic_shift_evidence_runs]; [finished_at] is [None] until
    the run is sealed. *)
Record run_row : Type := {
  r_run_uid : string;
  r_started_at : string;
  r_finished_at : option string;
  r_method : string;
  r_version : string;
  r_inserted_count : nat;
  r_skipped_count : nat;
  r_selected_before_count : nat;
  r_selected_after_count : nat;
  r_notes : string
}.

(** The two tables of the analysis database. *)
Record database : Type := {
  runs : list run_row;
  evidence : list evidence_row
}.

(** A [sqlite3] connection under Python's default transaction control: a
    write opens a transaction, the connection reads its own writes in
    [view], and they reach [durable] only at [commit()]. *)
Record connection : Type := {
  durable : database;
  view : database
}.

Definition commit (conn : connection) : connection :=
  {| durable := view conn; view := view conn |}.

(** What is left when the process ends without [commit()]. *)
Definition abandon (conn : connection) : connection :=
  {| durable := durable conn; view := durable conn |}.

Definition on_view (f : database -> database) (conn : connection) : connection :=
  {| durable := durable conn; view := f (view conn) |}.

(** What one run takes from the clock and from [uuid4], and the notes text
    it renders from its arguments. *)
Record environment : Type := {
  run_uid : string;
  started_at : string;
  finished_at : string;
  notes : string
}.

Section WithHash.

(** [hashlib.sha1(payload.encode("utf-8")).hexdigest()] *)
Variable sha1 : string -> string.

(** The text handed to the hash by [build_fingerprint]. *)
Definition fingerprint_payload (uid : string) (ph : phase) (score : Q)
           (summary : string) (tag_slugs : list string) (quote : string)
  : string :=
  Text.join "|"
    [uid; phase_name ph; Render.format_fixed 4 score;
     Text.normalize summary;
     Text.join "," (stable_sort String.leb tag_slugs);
     Text.normalize quote].

(** [build_fingerprint] *)
Definition build_fingerprint (uid : string) (ph : phase) (score : Q)
           (summary : string) (tag_slugs : list string) (quote : string)
  : string :=
  sha1 (fingerprint_payload uid ph score summary tag_slugs quote).

(** The [SELECT 1 ... LIMIT 1] of the duplicate check. *)
Definition evidence_exists (db : database) (uid ver fingerprint : string)
  : bool :=
  existsb (fun e => String.eqb (e_article_uid e) uid
                    && String.eqb (e_version e) ver
                    && String.eqb (e_input_fingerprint e) fingerprint)
          (evidence db).

Definition insert_evidence (e : evidence_row) (db : database) : database :=
  {| runs := runs db; evidence := (evidence db ++ [e])%list |}.

(** The [INSERT INTO republic_shift_evidence_runs] that opens the run. *)
Definition open_run (args : arguments) (env : environment) (db : database)
  : database :=
  {| runs := (runs db ++
              [{| r_run_uid := run_uid env;
                  r_started_at := started_at env;
                  r_finished_at := None;
                  r_method := method args;
                  r_version := version args;
                  r_inserted_count := 0;
                  r_skipped_count := 0;
                  r_selected_before_count := 0;
                  r_selected_after_count := 0;
                  r_notes := notes env |}])%list;
     evidence := evidence db |}.

(** The [UPDATE republic_shift_evidence_runs ... WHERE run_uid = ?] that
    seals the run. *)
Definition seal_run (env : environment)
           (inserted skipped selected_before selected_after : nat)
           (db : database) : database :=
  {| runs :=
       map (fun r =>
              if String.eqb (r_run_uid r) (run_uid env)
              then {| r_run_uid := r_run_uid r;
                      r_started_at := r_started_at r;
                      r_finished_at := Some (finished_at env);
                      r_method := r_method r;
                      r_version := r_version r;
                      r_inserted_count := inserted;
                      r_skipped_count := skipped;
                      r_selected_before_count := selected_before;
                      r_selected_after_count := selected_after;
                      r_notes := r_notes r |}
              else r)
           (runs db);
     evidence := evidence db |}.

(** The idempotency key of a candidate is already in the table. *)
Definition present (args : arguments) (db : database) (row : candidate) : bool :=
  evidence_exists db (c_article_uid row) (version args)
    (build_fingerprint (c_article_uid row) (c_phase row) (c_score row)
                       (c_summary row) (c_tag_slugs row) (c_quote_text row)).

(** The counters and the connection carried through the second loop. *)
Record ledger : Type := {
  conn : connection;
  inserted : nat;
  skipped : nat
}.

(** One turn of the second loop of [main]. *)
Definition process_candidate (args : arguments) (env : environment)
           (selected : phase -> list string) (st : ledger) (row : candidate)
  : ledger :=
  let ph := c_phase row in
  let uid := c_article_uid row in
  let include_in_story := Text.mem uid (selected ph) in
  let rationale :=
    if negb include_in_story && c_include row
    then "Excluded due to per-phase cap despite passing score threshold. "
         ++ c_rationale row
    else c_rationale row in
  let fingerprint :=
    build_fingerprint uid ph (c_score row) (c_summary row)
                      (c_tag_slugs row) (c_quote_text row) in
  if evidence_exists (view (conn st)) uid (version args) fingerprint
  then {| conn := conn st; inserted := inserted st; skipped := S (skipped st) |}
  else if dry_run args
  then {| conn := conn st; inserted := S (inserted st); skipped := skipped st |}
  else
    {| conn :=
         on_view
           (insert_evidence
              {| e_article_uid := uid;
                 e_phase := ph;
                 e_include_in_story := include_in_story;
                 e_relevance_score := c_score row;
                 e_strength_label := c_strength row;
                 e_connection_text := c_connection row;
                 e_rationale := rationale;
                 e_quote_text := c_quote_text row;
                 e_quote_source := c_quote_source row;
                 e_quote_confidence := c_quote_confidence row;
                 e_method := method args;
                 e_version := version args;
                 e_input_fingerprint := fingerprint;
                 e_run_uid := run_uid env |})
           (conn st);
       inserted := S (inserted st);
       skipped := skipped st |}.

(** [main] up to the end of its second loop, stopped after [steps]
    candidates when [steps] is given: the run is opened, then the
    candidates are taken in order; nothing is committed yet. *)
Definition run_ledger (args : arguments) (env : environment)
           (candidates : list candidate) (steps : option nat)
           (c : connection) : ledger :=
  let selected := selected_ids (max_per_phase args) candidates in
  let opened := if dry_run args then c else on_view (open_run args env) c in
  fold_left (process_candidate args env selected)
            (match steps with
             | Some k => firstn k candidates
             | None => candidates
             end)
            {| conn := opened; inserted := 0; skipped := 0 |}.

(** [main] run to its end on the candidates: the ledger loop, the seal
    and the single [commit()]. *)
Definition finish_run (args : arguments) (env : environment)
           (candidates : list candidate) (c : connection) : ledger :=
  let st := run_ledger args env candidates None c in
  if dry_run args then st
  else
    {| conn :=
         commit
           (on_view
              (seal_run env (inserted st) (skipped st)
                 (selected_count (max_per_phase args) candidates Before)
                 (selected_count (max_per_phase args) candidates After))
              (conn st));
       inserted := inserted st;
       skipped := skipped st |}.

(** [main] on the rows read from the two databases. *)
Definition main (args : arguments) (env : environment)
           (summary_by_uid : string -> string)
           (tag_slugs_by_uid : string -> list string)
           (rows : list article) (c : connection) : ledger :=
  finish_run args env
    (map (make_candidate args summary_by_uid tag_slugs_by_uid) rows) c.

(** [main] failing after [steps] candidates of the second loop: the
    process ends before [commit()]. *)
Definition main_interrupted (args : arguments) (env : environment)
           (summary_by_uid : string -> string)
           (tag_slugs_by_uid : string -> list string)
           (rows : list article) (steps : nat) (c : connection)
  : connection :=
  abandon
    (conn (run_ledger args env
             (map (make_candidate args summary_by_uid tag_slugs_by_uid) rows)
             (Some steps) c)).

(** What the specification expects of a failed run: the durable database
    keeps the unsealed run row and every evidence row written so far. *)
Definition partial_progress_preserved (args : arguments) (env : environment)
           (summary_by_uid : string -> string)
           (tag_slugs_by_uid : string -> list string)
           (rows : list article) (steps : nat) (c : connection) : Prop :=
  let candidates := map (make_candidate args summary_by_uid tag_slugs_by_uid) rows in
  let before := conn (run_ledger args env candidates (Some steps) c) in
  let after :=
    main_interrupted args env summary_by_uid tag_slugs_by_uid rows steps c in
  (exists r, In r (runs (durable after))
             /\ r_run_uid r = run_uid env /\ r_finished_at r = None)
  /\ (forall e, In e (evidence (view before)) -> In e (evidence (durable after))).

End WithHash.

(** The columns of the unique index
    [idx_republic_shift_evidence_unique_input]. *)
Definition evidence_key (e : evidence_row) : string * string * string :=
  (e_article_uid e, e_version e, e_input_fingerprint e).

(** The run row as [main] leaves it after the sealing [UPDATE]. *)
Definition sealed_row (args : arguments) (env : environment)
           (inserted_count skipped_count selected_before selected_after : nat)
  : run_row :=
  {| r_run_uid := run_uid env;
     r_started_at := started_at env;
     r_finished_at := Some (finished_at env);
     r_method := method args;
     r_version := version args;
     r_inserted_count := inserted_count;
     r_skipped_count := skipped_count;
     r_selected_before_count := selected_before;
     r_selected_after_count := selected_after;
     r_notes := notes env |}.

(** The evidence row [e] carries the marks of the run and the values of
    one of the candidates [rows]. *)
Definition written_by (sha1 : string -> string) (args : arguments)
           (env : environment) (selected : phase -> list string)
           (rows : list candidate) (e : evidence_row) : Prop :=
  e_run_uid e = run_uid env /\ e_method e = method args
  /\ e_version e = version args
  /\ exists row,
       In row rows
       /\ e_article_uid e = c_article_uid row
       /\ e_phase e = c_phase row
       /\ e_relevance_score e = c_score row
       /\ e_quote_text e = c_quote_text row
       /\ e_quote_confidence e = c_quote_confidence row
       /\ e_include_in_story e
          = Text.mem (c_article_uid row) (selected (c_phase row))
       /\ e_connection_text e = c_connection row
       /\ e_rationale e
          = (if negb (Text.mem (c_article_uid row) (selected (c_phase row)))
                && c_include row
             then "Excluded due to per-phase cap despite passing score threshold. "
                  ++ c_rationale row
             else c_rationale row)
       /\ e_input_fingerprint e
          = build_fingerprint sha1 (c_article_uid row) (c_phase row)
              (c_score row) (c_summary row) (c_tag_slugs row)
              (c_quote_text row).

(** *** The tag dictionary of [main] *)

(** [d.get(uid, [])] on the dictionary of tag lists. *)
Fixpoint get_tags (d : list (string * list string)) (uid : string)
  : list string :=
  match d with
  | [] => []
  | (k, slugs) :: rest => if String.eqb k uid then slugs else get_tags rest uid
  end.

(** [d[uid] = slugs]: the entry is replaced where it stands, or added at
    the end. *)
Fixpoint set_tags (d : list (string * list string)) (uid : string)
         (slugs : list string) : list (string * list string) :=
  match d with
  | [] => [(uid, slugs)]
  | (k, old) :: rest =>
      if String.eqb k uid then (k, slugs) :: rest
      else (k, old) :: set_tags rest uid slugs
  end.

(** One turn of the loop over the rows of the tag query: reading
    [tag_slugs_by_uid[uid]] creates the entry, and the slug is appended when
    it is not there yet. *)
Definition add_tag (d : list (string * list string)) (row : string * string)
  : list (string * list string) :=
  let uid := fst row in
  let slug := snd row in
  let current := get_tags d uid in
  if Text.mem slug current then set_tags d uid current
  else set_tags d uid (current ++ [slug])%list.

(** [tag_slugs_by_uid] after the loop. *)
Definition collect_tags (tag_rows : list (string * string))
  : list (string * list string) :=
  fold_left add_tag tag_rows [].

End Republic.

(** ** The science track: [generate_science_shift_research_packet.py] *)

Module Science.

Definition SCIENCE_ANCHORS : list string :=
  ["science"; "scientific"; "social science"; "knowledge"; "university";
   "expert"; "innovation"; "technology"; "bureaucratic"; "commons"; "play";
   "playfulness"; "panchayat"; "cognitive justice"; "public"].

Definition PHASE_KEYWORDS (ph : phase) : list (string * list string) :=
  match ph with
  | Before =>
      [("institutional_knowledge",
        ["university"; "institute"; "institution"; "csds";
         "social science"; "expert"; "discipline"; "bureaucratic";
         "big science"; "state policy"]);
       ("diagnosing_closure",
        ["sadness"; "gasping"; "crisis"; "hollow"; "impoverished"; "banal";
         "closure"; "authoritarian"; "violence"]);
       ("democratic_learning",
        ["commons"; "public sphere"; "dissent"; "dialogue"; "secularism";
         "democracy"; "citizen"; "rights"])]
  | After =>
      [("distributed_publics",
        ["knowledge panchayat"; "distributed"; "plural";
         "cognitive justice"; "orality"; "commons"; "publics"; "citizen"]);
       ("playful_science",
        ["play"; "playfulness"; "creative"; "imagination"; "experiment";
         "beyond big science"; "creative society"]);
       ("ethics_of_knowledge",
        ["ethics"; "conscience"; "humanity"; "morality"; "peace";
         "survival"; "care"])]
  end.

Definition TAG_SIGNALS (ph : phase) : list string :=
  match ph with
  | Before =>
      ["education-policy"; "science-policy"; "technology-and-society";
       "knowledge-systems"; "public-institutions"; "university";
       "secularism"]
  | After =>
      ["science-policy"; "technology-and-society"; "knowledge-systems";
       "public-institutions"; "pluralism"; "ethics"; "public-sphere";
       "ecology"]
  end.

Definition config : shift_config :=
  {| phase_keywords := PHASE_KEYWORDS;
     anchors := SCIENCE_ANCHORS;
     tag_signals := TAG_SIGNALS;
     body_cap := 7;
     anchor_weight := (85 # 100)%Q;
     tag_weight := (125 # 100)%Q;
     min_paragraph := 80 |}.

(** The science script takes [body_text] before [tag_slugs]. *)
Definition score_article (ph : phase) (title summary body_text : string)
           (tag_slugs : list string) :=
  score_article config ph title summary tag_slugs body_text.
Definition paragraph_score := paragraph_score config.
Definition split_paragraphs := split_paragraphs config.
Definition pick_quote := choose_quote config.

(** [build_connection_text] *)
Definition build_connection_text (ph : phase) (strongest : string) : string :=
  match ph with
  | Before =>
      if String.eqb strongest "institutional_knowledge"
      then "Phase 1 link: diagnoses how institutional science narrowed public imagination and democratic learning."
      else if String.eqb strongest "diagnosing_closure"
      then "Phase 1 link: documents closure, exhaustion, and bureaucratic drift inside knowledge systems."
      else "Phase 1 link: treats science as a civic commons with democratic stakes."
  | After =>
      if String.eqb strongest "distributed_publics"
      then "Phase 2 link: advances distributed knowledge publics beyond expert monopolies."
      else if String.eqb strongest "playful_science"
      then "Phase 2 link: recasts science as creative, experimental, and publicly co-authored."
      else "Phase 2 link: grounds knowledge politics in ethics, conscience, and social repair."
  end.

(** [build_rationale] *)
Definition build_rationale : phase -> Q -> nat -> list (string * nat) -> bool -> string :=
  render_rationale
    "Selected for narrative because concept fit and evidence density are high."
    "Not selected because relevance did not clear this cycle's strict cutoff.".

(** A row of the article query of [collect_data]. *)
Record article : Type := {
  article_uid : string;
  title : string;
  published_at : string;
  body_text : string;
  text_state : string
}.

(** An entry of [all_candidates].  The fields that only feed the reports
    ([publication], [url], [summary_snippet], [signal_tags],
    [signal_count]) are not carried. *)
Record candidate : Type := {
  c_article_uid : string;
  c_phase : phase;
  c_published_date : string;
  c_title : string;
  c_relevance_score : Q;
  c_strength_label : string;
  c_anchor_hits : nat;
  c_active_groups : nat;
  c_group_hits : list (string * nat);
  c_connection_text : string;
  c_quote_text : string;
  c_quote_source : quote_source;
  c_quote_confidence : Q;
  c_candidate_include : bool;
  c_rationale : string;
  c_include_in_story : bool;
  c_selection_reason : selection_reason;
  c_fingerprint : string
}.

(** The sort key [(-float(row["relevance_score"]), row["published_date"])]. *)
Definition key_le (x y : candidate) : bool :=
  if Qeq_bool (c_relevance_score x) (c_relevance_score y)
  then String.leb (c_published_date x) (c_published_date y)
  else Qltb (c_relevance_score y) (c_relevance_score x).

(** The order the specification describes, with the title as third key:
    [(-relevance_score, published_date, title)]. *)
Definition key_le_as_specified (x y : candidate) : bool :=
  if Qeq_bool (c_relevance_score x) (c_relevance_score y)
  then (if String.eqb (c_published_date x) (c_published_date y)
        then String.leb (c_title x) (c_title y)
        else String.leb (c_published_date x) (c_published_date y))
  else Qltb (c_relevance_score y) (c_relevance_score x).

(** The backfill loop of [select_candidates]: rows already picked are
    passed over, the loop stops as soon as the cap is reached. *)
Fixpoint backfill (cap : nat) (picks : list candidate) (picked_ids : list string)
         (phase_rows : list candidate) : list candidate :=
  match phase_rows with
  | [] => picks
  | row :: rest =>
      if Text.mem (c_article_uid row) picked_ids
      then backfill cap picks picked_ids rest
      else
        let picks' := (picks ++ [row])%list in
        if Nat.leb cap (List.length picks') then picks'
        else backfill cap picks' (c_article_uid row :: picked_ids) rest
  end.

Definition phase_rows (all_candidates : list candidate) (ph : phase)
  : list candidate :=
  stable_sort key_le
    (filter (fun row => phase_eqb (c_phase row) ph) all_candidates).

(** [auto_selected], sorted. *)
Definition auto_selected (all_candidates : list candidate) (ph : phase)
  : list candidate :=
  stable_sort key_le (filter c_candidate_include (phase_rows all_candidates ph)).

(** [picks] before the backfill step. *)
Definition primary_picks (cap : nat) (all_candidates : list candidate)
           (ph : phase) : list candidate :=
  firstn cap (auto_selected all_candidates ph).

(** [picks] of one phase at the end of the selection loop. *)
Definition picks (cap : nat) (backfill_to_cap : bool)
           (all_candidates : list candidate) (ph : phase) : list candidate :=
  let primary := primary_picks cap all_candidates ph in
  if backfill_to_cap && Nat.ltb (List.length primary) cap
  then backfill cap primary (map c_article_uid primary)
                (phase_rows all_candidates ph)
  else primary.

(** [selected_uids[phase]] *)
Definition selected_uids (cap : nat) (backfill_to_cap : bool)
           (all_candidates : list candidate) (ph : phase) : list string :=
  map c_article_uid (picks cap backfill_to_cap all_candidates ph).

(** The last loop of [select_candidates] on one row. *)
Definition mark_row (selected : phase -> list string) (row : candidate)
  : candidate :=
  let include_in_story := Text.mem (c_article_uid row) (selected (c_phase row)) in
  {| c_article_uid := c_article_uid row;
     c_phase := c_phase row;
     c_published_date := c_published_date row;
     c_title := c_title row;
     c_relevance_score := c_relevance_score row;
     c_strength_label := c_strength_label row;
     c_anchor_hits := c_anchor_hits row;
     c_active_groups := c_active_groups row;
     c_group_hits := c_group_hits row;
     c_connection_text := c_connection_text row;
     c_quote_text := c_quote_text row;
     c_quote_source := c_quote_source row;
     c_quote_confidence := c_quote_confidence row;
     c_candidate_include := c_candidate_include row;
     c_rationale :=
       build_rationale (c_phase row) (c_relevance_score row)
                       (c_anchor_hits row) (c_group_hits row) include_in_story;
     c_include_in_story := include_in_story;
     c_selection_reason :=
       if include_in_story
       then (if c_candidate_include row then passed_threshold
             else backfill_to_phase_cap)
       else below_cutoff;
     c_fingerprint := c_fingerprint row |}.

(** The final sort key [(row["phase"], -score, row["published_date"])];
    phases compare as their names do. *)
Definition report_le (x y : candidate) : bool :=
  if phase_eqb (c_phase x) (c_phase y) then key_le x y
  else String.leb (phase_name (c_phase x)) (phase_name (c_phase y)).

(** The selection half of [select_candidates], from [all_candidates] on:
    the selected records and all candidates, both in report order. *)
Definition select_from (cap : nat) (backfill_to_cap : bool)
           (all_candidates : list candidate)
  : list candidate * list candidate :=
  let decided :=
    map (mark_row (selected_uids cap backfill_to_cap all_candidates))
        all_candidates in
  (stable_sort report_le (filter c_include_in_story decided),
   stable_sort report_le decided).

Section WithHash.

(** [hashlib.sha1(payload.encode("utf-8")).hexdigest()] *)
Variable sha1 : string -> string.

(** The text handed to the hash by [build_fingerprint]. *)
Definition fingerprint_payload (uid : string) (ph : phase) (score : Q)
           (quote : string) (tags : list string) : string :=
  Text.join "|"
    [uid; phase_name ph; Render.format_fixed 4 score;
     Text.normalize quote;
     Text.join "," (stable_sort String.leb tags)].

(** [build_fingerprint]: the summary is not among its arguments. *)
Definition build_fingerprint (uid : string) (ph : phase) (score : Q)
           (quote : string) (tags : list string) : string :=
  sha1 (fingerprint_payload uid ph score quote tags).

(** The body of the first loop of [select_candidates] for a full-text
    article whose phase is known. *)
Definition make_candidate (min_score : Q) (min_anchor_hits min_group_hits : Z)
           (summary_by_uid : string -> string)
           (tags_by_uid : string -> list string)
           (ph : phase) (row : article) : candidate :=
  let uid := article_uid row in
  let summary := summary_by_uid uid in
  let tag_slugs := tags_by_uid uid in
  let '(score, group_hits, anchor_hits, active_groups) :=
    score_article ph (title row) summary (body_text row) tag_slugs in
  let '(quote_text, source, confidence) :=
    pick_quote ph (body_text row) summary (title row) in
  let include :=
    Qle_bool min_score score
    && (min_anchor_hits <=? Z.of_nat anchor_hits)%Z
    && (min_group_hits <=? Z.of_nat active_groups)%Z in
  {| c_article_uid := uid;
     c_phase := ph;
     c_published_date := Quote.take_chars 10 (published_at row);
     c_title := title row;
     c_relevance_score := Render.round_to 2 score;
     c_strength_label := strength_label score;
     c_anchor_hits := anchor_hits;
     c_active_groups := active_groups;
     c_group_hits := group_hits;
     c_connection_text := build_connection_text ph (strongest_group group_hits);
     c_quote_text := quote_text;
     c_quote_source := source;
     c_quote_confidence := Render.round_to 3 confidence;
     c_candidate_include := include;
     c_rationale := EmptyString;
     c_include_in_story := false;
     c_selection_reason := unset;
     c_fingerprint := build_fingerprint uid ph score quote_text tag_slugs |}.

(** The first loop of [select_candidates]: articles without a phase and
    articles whose text is not full are passed over. *)
Definition score_candidates (min_score : Q) (min_anchor_hits min_group_hits : Z)
           (summary_by_uid : string -> string)
           (tags_by_uid : string -> list string)
           (phase_by_uid : string -> option phase)
           (article_rows : list article) : list candidate :=
  flat_map
    (fun row =>
       match phase_by_uid (article_uid row) with
       | None => []
       | Some ph =>
           if String.eqb (text_state row) "full"
           then [make_candidate min_score min_anchor_hits min_group_hits
                                summary_by_uid tags_by_uid ph row]
           else []
       end)
    article_rows.

(** [select_candidates], without the two coverage counters. *)
Definition select_candidates (article_rows : list article)
           (summary_by_uid : string -> string)
           (tags_by_uid : string -> list string)
           (phase_by_uid : string -> option phase)
           (min_score : Q) (min_anchor_hits min_group_hits : Z)
           (cap : nat) (backfill_to_cap : bool)
  : list candidate * list candidate :=
  select_from cap backfill_to_cap
    (score_candidates min_score min_anchor_hits min_group_hits
                      summary_by_uid tags_by_uid phase_by_uid article_rows).

End WithHash.

End Science.

(** ** The packet assembler: [generate_republic_shift_research_packet.py] *)

Module Packet.

Definition LEAD_GROUPS : list string :=
  ["institutional_grammar"; "decay_diagnostics"; "democratic_urgency";
   "new_grammar"; "embodied_ethics"; "plural_futures"; "cross_currents"].

(** The character class [[a-z_]]. *)
Definition is_group_char (c : ascii) : bool :=
  let n := Text.code c in
  ((97 <=? n) && (n <=? 122) || (n =? 95))%N.

(** The longest run of [[a-z_]] at the head of the text. *)
Fixpoint group_run (s : string) : string :=
  match s with
  | EmptyString => EmptyString
  | String c r => if is_group_char c then String c (group_run r) else EmptyString
  end.

(** What follows the prefix [p] in [s], when [s] starts with [p]. *)
Fixpoint after_prefix (p s : string) : option string :=
  match p, s with
  | EmptyString, _ => Some s
  | String _ _, EmptyString => None
  | String a p', String b s' =>
      if Ascii.eqb a b then after_prefix p' s' else None
  end.

(** A match of [lead_group=([a-z_]+)] at the head of the text: group 1. *)
Definition match_here (s : string) : option string :=
  match after_prefix "lead_group=" s with
  | Some rest =>
      match group_run rest with
      | EmptyString => None
      | g => Some g
      end
  | None => None
  end.

(** [re.search(r"lead_group=([a-z_]+)", rationale)]: the leftmost match. *)
Fixpoint search_lead_group (s : string) : option string :=
  match match_here s with
  | Some g => Some g
  | None =>
      match s with
      | EmptyString => None
      | String _ r => search_lead_group r
      end
  end.

(** [parse_lead_group] *)
Definition parse_lead_group (rationale : string) : string :=
  let lead_group :=
    Text.strip (match search_lead_group rationale with
                | Some g => g
                | None => EmptyString
                end) in
  if Text.mem lead_group LEAD_GROUPS then lead_group else "cross_currents".

(** An entry of the list built by [build_candidates], with the fields the
    selection reads or writes. *)
Record candidate : Type := {
  article_uid : string;
  phase_of : phase;
  published_date : string;
  title : string;
  relevance_score : Q;
  lead_group : string;
  candidate_include : bool;
  rationale : string;
  include_in_story : bool;
  reason : selection_reason;
  fingerprint : string;
  text_state : string
}.

Definition is_full (row : candidate) : bool := String.eqb (text_state row) "full".

(** [classify_unselected_reason] *)
Definition classify_unselected_reason (row : candidate) (full_text_only : bool)
  : selection_reason :=
  if candidate_include row && full_text_only && negb (is_full row)
  then blocked_non_full_text
  else if candidate_include row
  then (if Text.contains "per-phase cap" (Text.lower (rationale row))
        then below_phase_cap else below_cutoff)
  else below_cutoff.

(** The sort key [(-score, published_date, title)]. *)
Definition key_le (x y : candidate) : bool :=
  if Qeq_bool (relevance_score x) (relevance_score y)
  then (if String.eqb (published_date x) (published_date y)
        then String.leb (title x) (title y)
        else String.leb (published_date x) (published_date y))
  else Qltb (relevance_score y) (relevance_score x).

(** The final sort key [(phase, -score, published_date, title)]. *)
Definition report_le (x y : candidate) : bool :=
  if phase_eqb (phase_of x) (phase_of y) then key_le x y
  else String.leb (phase_name (phase_of x)) (phase_name (phase_of y)).

Definition admissible (full_text_only : bool) (row : candidate) : bool :=
  negb full_text_only || is_full row.

Definition phase_rows (candidates : list candidate) (ph : phase)
  : list candidate :=
  filter (fun row => phase_eqb (phase_of row) ph) candidates.

(** [eligible], sorted. *)
Definition eligible (full_text_only : bool) (candidates : list candidate)
           (ph : phase) : list candidate :=
  stable_sort key_le
    (filter (fun row => admissible full_text_only row && candidate_include row)
            (phase_rows candidates ph)).

(** [fallback_pool], sorted. *)
Definition fallback_pool (full_text_only : bool) (candidates : list candidate)
           (ph : phase) (picked_uids : list string) : list candidate :=
  stable_sort key_le
    (filter (fun row => admissible full_text_only row
                        && negb (Text.mem (article_uid row) picked_uids))
            (phase_rows candidates ph)).

(** The backfill loop: append, then stop once the cap is reached. *)
Fixpoint extend (cap : nat) (picks pool : list candidate) : list candidate :=
  match pool with
  | [] => picks
  | row :: rest =>
      let picks' := (picks ++ [row])%list in
      if Nat.leb cap (List.length picks') then picks' else extend cap picks' rest
  end.

(** [picks] of one phase at the end of the selection loop. *)
Definition picks (cap : nat) (full_text_only backfill_to_cap : bool)
           (candidates : list candidate) (ph : phase) : list candidate :=
  let primary := firstn cap (eligible full_text_only candidates ph) in
  if backfill_to_cap && Nat.ltb (List.length primary) cap
  then extend cap primary
         (fallback_pool full_text_only candidates ph (map article_uid primary))
  else primary.

(** [selected_uids[phase]] *)
Definition selected_uids (cap : nat) (full_text_only backfill_to_cap : bool)
           (candidates : list candidate) (ph : phase) : list string :=
  map article_uid (picks cap full_text_only backfill_to_cap candidates ph).

Definition with_decision (row : candidate) (included : bool)
           (why : selection_reason) (text : string) : candidate :=
  {| article_uid := article_uid row;
     phase_of := phase_of row;
     published_date := published_date row;
     title := title row;
     relevance_score := relevance_score row;
     lead_group := lead_group row;
     candidate_include := candidate_include row;
     rationale := text;
     include_in_story := included;
     reason := why;
     fingerprint := fingerprint row;
     text_state := text_state row |}.

(** The last loop of [select_records] on one row. *)
Definition mark_row (full_text_only : bool) (selected : phase -> list string)
           (row : candidate) : candidate :=
  if Text.mem (article_uid row) (selected (phase_of row))
  then with_decision row true
         (if candidate_include row then passed_threshold
          else backfill_to_phase_cap)
         (rationale row)
  else
    match classify_unselected_reason row full_text_only with
    | blocked_non_full_text =>
        with_decision row false blocked_non_full_text
          (Text.strip
             ("Not selected for packet because strict mode requires full-text evidence. "
              ++ rationale row))
    | why => with_decision row false why (rationale row)
    end.

(** [select_records], without the two coverage counters: the selected
    records in report order, and all candidates as the loop leaves them. *)
Definition select_records (candidates : list candidate) (cap : nat)
           (full_text_only backfill_to_cap : bool)
  : list candidate * list candidate :=
  let marked :=
    map (mark_row full_text_only
           (selected_uids cap full_text_only backfill_to_cap candidates))
        candidates in
  (stable_sort report_le (filter include_in_story marked), marked).

(** [s[:-1]]: all but the last character. *)
Fixpoint drop_last (s : string) : string :=
  match s with
  | EmptyString => EmptyString
  | String c EmptyString => EmptyString
  | String c r => String c (drop_last r)
  end.

(** [clean[: max_chars - 1]]; for [max_chars = 0] the bound is [-1] and the
    slice drops the last character. *)
Definition slice_before (max_chars : nat) (clean : string) : string :=
  match max_chars with
  | 0 => drop_last clean
  | S k => Quote.take_chars k clean
  end.

(** [summarize_text] *)
Definition summarize_text (text : string) (max_chars : nat) : string :=
  let clean := Text.clean text in
  if Nat.leb (String.length clean) max_chars then clean
  else Text.rstrip (slice_before max_chars clean) ++ "...".

(** What [build_candidates] reads of an article row. *)
Record article_info : Type := {
  a_title : string;
  a_published_at : string;
  a_text_state : string
}.

(** The body of the loop of [build_candidates] for an evidence row whose
    article is known, with the fields the selection reads or writes. *)
Definition candidate_of_evidence (article : article_info)
           (row : Republic.evidence_row) : candidate :=
  {| article_uid := Republic.e_article_uid row;
     phase_of := Republic.e_phase row;
     published_date := Quote.take_chars 10 (a_published_at article);
     title := a_title article;
     relevance_score := Republic.e_relevance_score row;
     lead_group := parse_lead_group (Republic.e_rationale row);
     candidate_include := Republic.e_include_in_story row;
     rationale := Republic.e_rationale row;
     include_in_story := false;
     reason := unset;
     fingerprint := Republic.e_input_fingerprint row;
     text_state := match a_text_state article with
                   | EmptyString => "missing"
                   | state => state
                   end |}.

(** [build_candidates]: evidence rows without an article are passed over,
    and the list is put in report order. *)
Definition build_candidates (evidence_rows : list Republic.evidence_row)
           (article_by_uid : string -> option article_info) : list candidate :=
  stable_sort report_le
    (flat_map
       (fun row =>
          match article_by_uid (Republic.e_article_uid row) with
          | None => []
          | Some article => [candidate_of_evidence article row]
          end)
       evidence_rows).

End Packet.

(** ** Scenarios used as concrete inputs *)

Module Scenario.

(** A packet candidate as [build_candidates] leaves it. *)
Definition prow (uid : string) (ph : phase) (date name : string) (score : Q)
           (passed : bool) (state : string) : Packet.candidate :=
  {| Packet.article_uid := uid;
     Packet.phase_of := ph;
     Packet.published_date := date;
     Packet.title := name;
     Packet.relevance_score := score;
     Packet.lead_group := "cross_currents";
     Packet.candidate_include := passed;
     Packet.rationale := EmptyString;
     Packet.include_in_story := false;
     Packet.reason := unset;
     Packet.fingerprint := EmptyString;
     Packet.text_state := state |}.

(** A science candidate as the first loop of [select_candidates] leaves it. *)
Definition srow (uid : string) (ph : phase) (date name : string) (score : Q)
           (passed : bool) : Science.candidate :=
  {| Science.c_article_uid := uid;
     Science.c_phase := ph;
     Science.c_published_date := date;
     Science.c_title := name;
     Science.c_relevance_score := score;
     Science.c_strength_label := strength_label score;
     Science.c_anchor_hits := 0;
     Science.c_active_groups := 0;
     Science.c_group_hits := [];
     Science.c_connection_text := EmptyString;
     Science.c_quote_text := EmptyString;
     Science.c_quote_source := title_source;
     Science.c_quote_confidence := (25 # 100)%Q;
     Science.c_candidate_include := passed;
     Science.c_rationale := EmptyString;
     Science.c_include_in_story := false;
     Science.c_selection_reason := unset;
     Science.c_fingerprint := EmptyString |}.

(** A candidate of the critical-evidence script. *)
Definition rrow (uid : string) (ph : phase) (published : string) (score : Q)
           (passed : bool) : Republic.candidate :=
  {| Republic.c_article_uid := uid;
     Republic.c_published_at := published;
     Republic.c_phase := ph;
     Republic.c_score := score;
     Republic.c_strength := strength_label score;
     Republic.c_include := passed;
     Republic.c_connection := EmptyString;
     Republic.c_rationale := EmptyString;
     Republic.c_quote_text := uid;
     Republic.c_quote_source := title_source;
     Republic.c_quote_confidence := (25 # 100)%Q;
     Republic.c_summary := EmptyString;
     Republic.c_tag_slugs := [] |}.

(** Two phase-after candidates scoring 20.0, published 2023-01-01 and
    2022-06-01, the later one first in the input. *)
Definition tie_packet : list Packet.candidate :=
  [prow "late" After "2023-01-01" "Later piece" 20 true "full";
   prow "early" After "2022-06-01" "Earlier piece" 20 true "full"].

Definition tie_science : list Science.candidate :=
  [srow "late" After "2023-01-01" "Later piece" 20 true;
   srow "early" After "2022-06-01" "Earlier piece" 20 true].

(** In the critical-evidence script the phase follows from the year, and
    articles of 2022 and 2023 are in phase before. *)
Definition tie_republic : list Republic.candidate :=
  [rrow "late" Before "2023-01-01" 20 true;
   rrow "early" Before "2022-06-01" 20 true].

(** Two candidates equal in score and date; the title that sorts later
    comes first in the input. *)
Definition same_day_science : list Science.candidate :=
  [srow "z" After "2022-06-01" "Zebra" 20 true;
   srow "a" After "2022-06-01" "Apple" 20 true].

Definition same_day_packet : list Packet.candidate :=
  [prow "z" After "2022-06-01" "Zebra" 20 true "full";
   prow "a" After "2022-06-01" "Apple" 20 true "full"].

(** Ten phase-before candidates: two pass the thresholds, eight do not;
    [state] is the text state of the eight. *)
Definition ten_packet (state : string) : list Packet.candidate :=
  [prow "b4" Before "2010-04-01" "b4" 9 false state;
   prow "p2" Before "2011-01-01" "p2" 18 true "full";
   prow "b1" Before "2010-01-01" "b1" 13 false state;
   prow "b8" Before "2010-08-01" "b8" 5 false state;
   prow "b2" Before "2010-02-01" "b2" 12 false state;
   prow "p1" Before "2012-01-01" "p1" 20 true "full";
   prow "b3" Before "2010-03-01" "b3" 10 false state;
   prow "b6" Before "2010-06-01" "b6" 7 false state;
   prow "b5" Before "2010-05-01" "b5" 8 false state;
   prow "b7" Before "2010-07-01" "b7" 6 false state].

Definition ten_science : list Science.candidate :=
  map (fun r => srow (Packet.article_uid r) (Packet.phase_of r)
                     (Packet.published_date r) (Packet.title r)
                     (Packet.relevance_score r) (Packet.candidate_include r))
      (ten_packet "full").

Definition ten_republic : list Republic.candidate :=
  map (fun r => rrow (Packet.article_uid r) (Packet.phase_of r)
                     (Packet.published_date r)
                     (Packet.relevance_score r) (Packet.candidate_include r))
      (ten_packet "full").

(** The default command line of the critical-evidence script. *)
Definition default_args : Republic.arguments :=
  {| Republic.method := "rule_based_critical";
     Republic.version := Republic.DEFAULT_VERSION;
     Republic.max_per_phase := 12;
     Republic.min_score := 14;
     Republic.min_anchor_hits := 3;
     Republic.min_group_hits := 2;
     Republic.dry_run := false |}.

(** Thresholds low enough for article A to pass. *)
Definition lenient_args : Republic.arguments :=
  {| Republic.method := "rule_based_critical";
     Republic.version := Republic.DEFAULT_VERSION;
     Republic.max_per_phase := 12;
     Republic.min_score := 8;
     Republic.min_anchor_hits := 2;
     Republic.min_group_hits := 1;
     Republic.dry_run := false |}.

Definition first_env : Republic.environment :=
  {| Republic.run_uid := "repcrit-20240101T000000Z-0000aaaa";
     Republic.started_at := "2024-01-01 00:00:00";
     Republic.finished_at := "2024-01-01 00:00:01";
     Republic.notes := "Strict selection for Republic shift." |}.

Definition second_env : Republic.environment :=
  {| Republic.run_uid := "repcrit-20240102T000000Z-0000bbbb";
     Republic.started_at := "2024-01-02 00:00:00";
     Republic.finished_at := "2024-01-02 00:00:01";
     Republic.notes := "Strict selection for Republic shift." |}.

Definition empty_connection : Republic.connection :=
  {| Republic.durable := {| Republic.runs := []; Republic.evidence := [] |};
     Republic.view := {| Republic.runs := []; Republic.evidence := [] |} |}.

(** Article A of the scoring scenario: one probe of [decay_diagnostics] in
    the title, an empty summary, a body with three different probes of the
    group and two anchor terms, no tag. *)
Definition article_three_probes : Republic.article :=
  {| Republic.article_uid := "article-a";
     Republic.title := "Decay";
     Republic.published_at := "2019-05-01";
     Republic.year := 2019;
     Republic.body_text := "Crisis, erosion, hollow: the republic turns majoritarian." |}.

(** The same article with one probe written three times in the body. *)
Definition article_one_probe_thrice : Republic.article :=
  {| Republic.article_uid := "article-a";
     Republic.title := "Decay";
     Republic.published_at := "2019-05-01";
     Republic.year := 2019;
     Republic.body_text := "Decay, decay, decay: the republic turns majoritarian." |}.

(** The probes of [decay_diagnostics], group G1 of the scoring scenario. *)
Definition decay_probes : list string :=
  ["drying up"; "sadness"; "banal"; "mediocre"; "decay"; "hollow"; "crisis";
   "erosion"; "impoverishes"; "violence"].

Definition no_summary (uid : string) : string := EmptyString.
Definition no_tags (uid : string) : list string := [].



(** A body of two paragraphs: a short one, and one long enough to qualify
    that holds probes of the republic catalogue. *)
Definition quoted_body : string :=
  "A short opening line."
  ++ String Quote.LF (String Quote.LF
       "The university was once a commons of dissent and dialogue, and it shaped how people learned to argue.").

Definition quoted_paragraph : string :=
  "The university was once a commons of dissent and dialogue, and it shaped how people learned to argue.".

(** A stand-in for the hash where a concrete one is needed. *)
(** A body of one paragraph of nine sentences, longer than the 520
    characters of a quote. *)
Definition long_sentence : string :=
  "The republic needs citizens who argue about the constitution in public.".

Definition long_paragraph : string :=
  Text.join " " (repeat long_sentence 9).

(** A summary without [. ! ?]. *)
Definition open_summary : string := "A note without a full stop".

Definition plain_hash (payload : string) : string := payload.

End Scenario.

(** * Properties *)

(** ** Facts about the stable sort *)

Section StableSortFacts.

Context {A : Type}.
Variable le : A -> A -> bool.

Lemma insert_sorted_perm (x : A) (l : list A) :
  Permutation (x :: l) (insert_sorted le x l).
Proof.
  induction l as [|y t IH]; simpl.
  - apply Permutation_refl.
  - destruct (le x y).
    + apply Permutation_refl.
    + eapply Permutation_trans; [apply perm_swap|].
      now apply perm_skip.
Qed.

Lemma stable_sort_perm (l : list A) : Permutation l (stable_sort le l).
Proof.
  induction l as [|x t IH]; simpl.
  - constructor.
  - eapply Permutation_trans; [|apply insert_sorted_perm].
    now apply perm_skip.
Qed.

Lemma stable_sort_length (l : list A) :
  List.length (stable_sort le l) = List.length l.
Proof. symmetry. apply Permutation_length, stable_sort_perm. Qed.

Lemma stable_sort_In (x : A) (l : list A) :
  In x (stable_sort le l) <-> In x l.
Proof.
  split; apply Permutation_in;
    [apply Permutation_sym|]; apply stable_sort_perm.
Qed.

Lemma stable_sort_nil_inv (l : list A) : stable_sort le l = [] -> l = [].
Proof.
  intros H. apply length_zero_iff_nil.
  rewrite <- stable_sort_length, H. reflexivity.
Qed.

(** Filtering commutes with counting through a sort. *)
Lemma filter_sort_length (p : A -> bool) (l : list A) :
  List.length (filter p (stable_sort le l)) = List.length (filter p l).
Proof.
  apply Permutation_length.
  (* filter respects permutations *)
  assert (Hp : forall l1 l2 : list A,
             Permutation l1 l2 -> Permutation (filter p l1) (filter p l2)).
  { induction 1; simpl.
    - constructor.
    - destruct (p x); [now constructor|assumption].
    - destruct (p x), (p y); try apply Permutation_refl.
      apply perm_swap.
    - eapply Permutation_trans; eassumption. }
  apply Permutation_sym, Hp, stable_sort_perm.
Qed.

Hypothesis le_total : forall x y, le x y = true \/ le y x = true.

Lemma insert_sorted_sorted (x : A) (l : list A) :
  Sorted (le_rel le) l -> Sorted (le_rel le) (insert_sorted le x l).
Proof.
  induction 1 as [|y t Hs IH Hhd]; simpl.
  - repeat constructor.
  - destruct (le x y) eqn:Hxy.
    + constructor; [now constructor|]. now constructor.
    + constructor; [assumption|].
      destruct t as [|z t']; simpl.
      * constructor. destruct (le_total x y) as [H|H]; [congruence|exact H].
      * destruct (le x z) eqn:Hxz.
        -- constructor. destruct (le_total x y) as [H|H]; [congruence|exact H].
        -- constructor. now inversion Hhd.
Qed.

(** The result of the sort is in key order. *)
Lemma stable_sort_sorted (l : list A) : Sorted (le_rel le) (stable_sort le l).
Proof.
  induction l as [|x t IH]; simpl.
  - constructor.
  - now apply insert_sorted_sorted.
Qed.

(** A list already in key order is left as it is. *)
Lemma stable_sort_id (l : list A) : Sorted (le_rel le) l -> stable_sort le l = l.
Proof.
  induction 1 as [|x t Hs IH Hhd]; simpl; [reflexivity|].
  rewrite IH. destruct Hhd as [|y t' Hxy]; simpl; [reflexivity|].
  unfold le_rel in Hxy. now rewrite Hxy.
Qed.

End StableSortFacts.

(** ** Counting rows by identifier *)

Section CountByKey.

Context {A : Type}.
Variable key : A -> string.

Lemma filter_or_length (p q : A -> bool) (l : list A) :
  List.length (filter (fun x => p x || q x) l)
  <= List.length (filter p l) + List.length (filter q l).
Proof.
  induction l as [|x t IH]; simpl; [lia|].
  destruct (p x), (q x); simpl; lia.
Qed.

Lemma filter_key_unique (a : string) (l : list A) :
  NoDup (map key l) ->
  List.length (filter (fun x => String.eqb (key x) a) l) <= 1.
Proof.
  induction l as [|x t IH]; simpl; intros Hnd; [lia|].
  inversion Hnd as [|? ? Hnotin Hnd']; subst.
  destruct (String.eqb (key x) a) eqn:E; [|now apply IH].
  apply String.eqb_eq in E. simpl.
  assert (Hnil : filter (fun y => String.eqb (key y) a) t = []).
  { clear IH Hnd Hnd'. induction t as [|y t' IHt]; simpl; [reflexivity|].
    destruct (String.eqb (key y) a) eqn:E'.
    - apply String.eqb_eq in E'. exfalso. apply Hnotin. simpl. left. congruence.
    - apply IHt. intros Hin. apply Hnotin. now right. }
  rewrite Hnil. simpl. lia.
Qed.

(** With distinct identifiers, no more rows carry an identifier of [ids]
    than [ids] has entries. *)
Lemma count_mem_le (ids : list string) (l : list A) :
  NoDup (map key l) ->
  List.length (filter (fun x => Text.mem (key x) ids) l) <= List.length ids.
Proof.
  intros Hnd. induction ids as [|a ids IH]; simpl.
  - induction l as [|x t IHl]; simpl; [lia|].
    inversion Hnd; subst. now apply IHl.
  - eapply Nat.le_trans.
    + apply (filter_or_length (fun x => String.eqb (key x) a)
                              (fun x => Text.mem (key x) ids)).
    + pose proof (filter_key_unique a l Hnd) as Hone.
      unfold Text.mem in *. simpl in *. lia.
Qed.

Lemma filter_and_length (p q : A -> bool) (l : list A) :
  List.length (filter (fun x => p x && q x) l) <= List.length (filter q l).
Proof.
  induction l as [|x t IH]; simpl; [lia|].
  destruct (p x), (q x); simpl; lia.
Qed.

End CountByKey.

Lemma mem_In (x : string) (xs : list string) : Text.mem x xs = true <-> In x xs.
Proof.
  unfold Text.mem. rewrite existsb_exists. split.
  - intros [y [Hin E]]. apply String.eqb_eq in E. now subst.
  - intros Hin. exists x. split; [assumption|apply String.eqb_refl].
Qed.

Lemma firstn_le_cap {A : Type} (cap : nat) (l : list A) :
  List.length (firstn cap l) <= cap.
Proof. rewrite length_firstn. lia. Qed.

Lemma nodup_length_le (l : list string) :
  List.length (nodup string_dec l) <= List.length l.
Proof.
  induction l as [|x t IH]; simpl; [lia|].
  destruct (in_dec string_dec x t); simpl; lia.
Qed.

Lemma phase_eqb_eq (p q : phase) : phase_eqb p q = true <-> p = q.
Proof. destruct p, q; simpl; split; congruence. Qed.

Lemma filter_map_length {A B : Type} (f : A -> B) (p : B -> bool) (l : list A) :
  List.length (filter p (map f l)) = List.length (filter (fun x => p (f x)) l).
Proof.
  induction l as [|x t IH]; simpl; [reflexivity|].
  destruct (p (f x)); simpl; now rewrite IH.
Qed.

Lemma filter_filter_length {A : Type} (p q : A -> bool) (l : list A) :
  List.length (filter p (filter q l))
  = List.length (filter (fun x => p x && q x) l).
Proof.
  induction l as [|x t IH]; simpl; [reflexivity|].
  destruct (q x); simpl; destruct (p x); simpl; now rewrite ?IH.
Qed.

Lemma filter_ext_length {A : Type} (p q : A -> bool) (l : list A) :
  (forall x, p x = q x) ->
  List.length (filter p l) = List.length (filter q l).
Proof.
  intros H. induction l as [|x t IH]; simpl; [reflexivity|].
  rewrite H. destruct (q x); simpl; now rewrite IH.
Qed.

(** The rows of a phase whose identifier was selected for their own phase
    are no more than the identifiers selected for that phase. *)
Lemma selected_of_phase_le {A : Type} (key : A -> string) (ph_of : A -> phase)
      (sel : phase -> list string) (p : phase) (l : list A) :
  NoDup (map key l) ->
  List.length (filter (fun row => phase_eqb (ph_of row) p
                                  && Text.mem (key row) (sel (ph_of row))) l)
  <= List.length (sel p).
Proof.
  intros Hnd.
  rewrite (filter_ext_length _
             (fun row => phase_eqb (ph_of row) p && Text.mem (key row) (sel p))).
  - eapply Nat.le_trans; [apply filter_and_length|].
    now apply count_mem_le.
  - intros x. destruct (phase_eqb (ph_of x) p) eqn:E; [|reflexivity].
    apply phase_eqb_eq in E. now rewrite E.
Qed.

(** ** The backfill loops stop at the cap *)

Lemma packet_extend_le (cap : nat) (pool picks : list Packet.candidate) :
  List.length picks < cap ->
  List.length (Packet.extend cap picks pool) <= cap.
Proof.
  revert picks. induction pool as [|row rest IH]; intros picks Hlt; simpl.
  - lia.
  - destruct (Nat.leb cap (List.length (picks ++ [row]))) eqn:E.
    + rewrite length_app in *. simpl in *. lia.
    + apply IH. apply Nat.leb_gt in E. exact E.
Qed.

Lemma science_backfill_le (cap : nat) (rows picks : list Science.candidate)
      (ids : list string) :
  List.length picks < cap ->
  List.length (Science.backfill cap picks ids rows) <= cap.
Proof.
  revert picks ids. induction rows as [|row rest IH]; intros picks ids Hlt; simpl.
  - lia.
  - destruct (Text.mem (Science.c_article_uid row) ids).
    + now apply IH.
    + destruct (Nat.leb cap (List.length (picks ++ [row]))) eqn:E.
      * rewrite length_app in *. simpl in *. lia.
      * apply IH. apply Nat.leb_gt in E. exact E.
Qed.

Lemma packet_picks_le cap fto bf cands ph :
  List.length (Packet.picks cap fto bf cands ph) <= cap.
Proof.
  unfold Packet.picks.
  destruct (bf && Nat.ltb _ cap) eqn:E.
  - apply andb_prop in E as [_ E]. apply Nat.ltb_lt in E.
    now apply packet_extend_le.
  - apply firstn_le_cap.
Qed.

Lemma science_picks_le cap bf cands ph :
  List.length (Science.picks cap bf cands ph) <= cap.
Proof.
  unfold Science.picks.
  destruct (bf && Nat.ltb _ cap) eqn:E.
  - apply andb_prop in E as [_ E]. apply Nat.ltb_lt in E.
    now apply science_backfill_le.
  - apply firstn_le_cap.
Qed.

Lemma packet_mark_row_fields fto sel row :
  Packet.include_in_story (Packet.mark_row fto sel row)
  = Text.mem (Packet.article_uid row) (sel (Packet.phase_of row))
  /\ Packet.phase_of (Packet.mark_row fto sel row) = Packet.phase_of row
  /\ Packet.article_uid (Packet.mark_row fto sel row) = Packet.article_uid row
  /\ Packet.candidate_include (Packet.mark_row fto sel row)
     = Packet.candidate_include row.
Proof.
  unfold Packet.mark_row.
  destruct (Text.mem _ _); simpl; [auto|].
  destruct (Packet.classify_unselected_reason row fto); simpl; auto.
Qed.

Lemma packet_selected_rows_count cands cap fto bf ph :
  List.length
    (filter (fun row => phase_eqb (Packet.phase_of row) ph)
            (fst (Packet.select_records cands cap fto bf)))
  = List.length
      (filter (fun row =>
                 phase_eqb (Packet.phase_of row) ph
                 && Text.mem (Packet.article_uid row)
                      (Packet.selected_uids cap fto bf cands (Packet.phase_of row)))
              cands).
Proof.
  unfold Packet.select_records. simpl.
  rewrite filter_sort_length, filter_filter_length, filter_map_length.
  apply filter_ext_length. intros row.
  destruct (packet_mark_row_fields fto (Packet.selected_uids cap fto bf cands) row)
    as (Hi & Hp & _). now rewrite Hi, Hp.
Qed.

Lemma science_selected_rows_count cands cap bf ph :
  List.length
    (filter (fun row => phase_eqb (Science.c_phase row) ph)
            (fst (Science.select_from cap bf cands)))
  = List.length
      (filter (fun row =>
                 phase_eqb (Science.c_phase row) ph
                 && Text.mem (Science.c_article_uid row)
                      (Science.selected_uids cap bf cands (Science.c_phase row)))
              cands).
Proof.
  unfold Science.select_from. simpl.
  rewrite filter_sort_length, filter_filter_length, filter_map_length.
  apply filter_ext_length. intros row. reflexivity.
Qed.

Lemma distinct_NoDup (l : list string) : Text.distinct l = true -> NoDup l.
Proof.
  induction l as [|x t IH]; simpl; intros H; constructor.
  - apply andb_prop in H as [H _]. intros Hin.
    apply mem_In in Hin. rewrite Hin in H. discriminate.
  - apply IH. now apply andb_prop in H as [_ H].
Qed.

(** ** C5: the cap on the selection *)

(** C5. In each of the three selections no phase gets more than
    [max_per_phase] picks: the primary picks are within the cap, the picks
    after the backfill extension are within the cap whatever the
    [full_text_only] and backfill flags say, and, candidates being identified
    by their [article_uid], so is the number of records selected in a phase. *)
Theorem cap_invariant (cap : nat) :
  (forall (cands : list Republic.candidate) (ph : phase),
      List.length (firstn cap (Republic.phase_candidates cands ph)) <= cap
      /\ Republic.selected_count cap cands ph <= cap
      /\ (NoDup (map Republic.c_article_uid cands) ->
          List.length (Republic.selected_rows cap cands ph) <= cap))
  /\ (forall (full_text_only backfill_to_cap : bool)
             (cands : list Packet.candidate) (ph : phase),
         List.length (firstn cap (Packet.eligible full_text_only cands ph)) <= cap
         /\ List.length
              (Packet.picks cap full_text_only backfill_to_cap cands ph) <= cap
         /\ (NoDup (map Packet.article_uid cands) ->
             List.length
               (filter (fun row => phase_eqb (Packet.phase_of row) ph)
                  (fst (Packet.select_records cands cap full_text_only
                                              backfill_to_cap))) <= cap))
  /\ (forall (backfill_to_cap : bool) (cands : list Science.candidate) (ph : phase),
         List.length (Science.primary_picks cap cands ph) <= cap
         /\ List.length (Science.picks cap backfill_to_cap cands ph) <= cap
         /\ (NoDup (map Science.c_article_uid cands) ->
             List.length
               (filter (fun row => phase_eqb (Science.c_phase row) ph)
                  (fst (Science.select_from cap backfill_to_cap cands))) <= cap)).
Proof.
  split; [|split].
  - intros cands ph.
    assert (Hids : List.length (Republic.selected_ids cap cands ph) <= cap).
    { unfold Republic.selected_ids. rewrite length_map. apply firstn_le_cap. }
    split; [apply firstn_le_cap|]. split.
    + unfold Republic.selected_count.
      eapply Nat.le_trans; [apply nodup_length_le|exact Hids].
    + intros Hnd. unfold Republic.selected_rows.
      eapply Nat.le_trans; [|exact Hids].
      now apply (selected_of_phase_le Republic.c_article_uid Republic.c_phase).
  - intros fto bf cands ph.
    pose proof (packet_picks_le cap fto bf cands ph) as Hp.
    split; [apply firstn_le_cap|]. split; [exact Hp|].
    intros Hnd. rewrite packet_selected_rows_count.
    eapply Nat.le_trans;
      [apply (selected_of_phase_le Packet.article_uid Packet.phase_of); exact Hnd|].
    unfold Packet.selected_uids. now rewrite length_map.
  - intros bf cands ph.
    pose proof (science_picks_le cap bf cands ph) as Hp.
    split; [apply firstn_le_cap|]. split; [exact Hp|].
    intros Hnd. rewrite science_selected_rows_count.
    eapply Nat.le_trans;
      [apply (selected_of_phase_le Science.c_article_uid Science.c_phase); exact Hnd|].
    unfold Science.selected_uids. now rewrite length_map.
Qed.

(** The cap holds on the ten-candidate scenario, with backfill, for a cap
    of five. *)
Lemma cap_invariant_witness :
  NoDup (map Packet.article_uid (Scenario.ten_packet "full"))
  /\ List.length
       (filter (fun row => phase_eqb (Packet.phase_of row) Before)
          (fst (Packet.select_records (Scenario.ten_packet "full") 5 true true)))
     <= 5.
Proof.
  assert (Hnd : NoDup (map Packet.article_uid (Scenario.ten_packet "full")))
    by (apply distinct_NoDup; vm_compute; reflexivity).
  split; [exact Hnd|].
  exact (proj2 (proj2 (proj1 (proj2 (cap_invariant 5))
                         true true (Scenario.ten_packet "full") Before)) Hnd).
Defined.

(** ** C1: a rerun on unchanged inputs inserts nothing *)

Section Ledger.

Import Republic.

Variable sha1 : string -> string.
Variable args : arguments.

Local Abbreviation present := (Republic.present sha1 args).

Lemma evidence_exists_insert db e uid ver fp :
  evidence_exists (insert_evidence e db) uid ver fp
  = evidence_exists db uid ver fp
    || (String.eqb (e_article_uid e) uid && String.eqb (e_version e) ver
        && String.eqb (e_input_fingerprint e) fp).
Proof.
  unfold evidence_exists, insert_evidence. cbn [evidence].
  rewrite existsb_app. cbn [existsb]. now rewrite orb_false_r.
Qed.

Lemma process_keeps env sel st row r :
  present (view (conn (process_candidate sha1 args env sel st row))) r = true
  \/ present (view (conn st)) r = false.
Proof.
  destruct (present (view (conn st)) r) eqn:Hr; [left|now right].
  unfold process_candidate.
  destruct (evidence_exists _ _ _ _); [exact Hr|].
  destruct (dry_run args); [exact Hr|].
  cbn [conn on_view view]. unfold present in *.
  rewrite evidence_exists_insert, Hr. reflexivity.
Qed.

Lemma process_records env sel st row :
  dry_run args = false ->
  present (view (conn (process_candidate sha1 args env sel st row))) row = true.
Proof.
  intros Hwet. unfold process_candidate.
  destruct (evidence_exists _ _ _ _) eqn:E; [exact E|].
  rewrite Hwet. cbn [conn on_view view]. unfold present.
  rewrite evidence_exists_insert. cbn [e_article_uid e_version e_input_fingerprint].
  now rewrite !String.eqb_refl, orb_true_r.
Qed.

Lemma ledger_keeps env sel rows st r :
  present (view (conn st)) r = true ->
  present (view (conn (fold_left (process_candidate sha1 args env sel) rows st))) r
  = true.
Proof.
  revert st. induction rows as [|row rest IH]; intros st Hr; simpl; [exact Hr|].
  apply IH. destruct (process_keeps env sel st row r) as [H|H];
    [exact H|congruence].
Qed.

(** After a writing pass every candidate has its key in the table. *)
Lemma ledger_records env sel rows st row :
  dry_run args = false -> In row rows ->
  present (view (conn (fold_left (process_candidate sha1 args env sel) rows st))) row
  = true.
Proof.
  intros Hwet. revert st. induction rows as [|r rest IH]; intros st Hin; simpl.
  - contradiction.
  - destruct Hin as [->|Hin].
    + apply ledger_keeps. now apply process_records.
    + now apply IH.
Qed.

(** A pass over candidates whose keys are all present only skips. *)
Lemma ledger_skips env sel rows st :
  (forall row, In row rows -> present (view (conn st)) row = true) ->
  fold_left (process_candidate sha1 args env sel) rows st
  = {| conn := conn st; inserted := inserted st;
       skipped := skipped st + List.length rows |}.
Proof.
  revert st. induction rows as [|r rest IH]; intros st Hall; simpl.
  - rewrite Nat.add_0_r. now destruct st.
  - assert (Hr : present (view (conn st)) r = true) by (apply Hall; now left).
    assert (Hstep : process_candidate sha1 args env sel st r
                    = {| conn := conn st; inserted := inserted st;
                         skipped := S (skipped st) |}).
    { unfold process_candidate. unfold present in Hr. now rewrite Hr. }
    rewrite Hstep, IH.
    + cbn [conn inserted skipped]. f_equal. lia.
    + intros row Hin. cbn [conn]. apply Hall. now right.
Qed.

Lemma present_same_evidence db db' row :
  evidence db = evidence db' -> present db row = present db' row.
Proof. unfold present, evidence_exists. now intros ->. Qed.

End Ledger.

(** C1. Running the critical-evidence pipeline a second time on the same
    articles, summaries and tags with the same arguments inserts no evidence
    row: after the first run every candidate has a row under its
    [(article_uid, version, input_fingerprint)], so every candidate is
    skipped, [inserted = 0], [skipped] is the number of candidates, and the
    evidence table is left as the first run wrote it.  The first run is a
    writing run (not [--dry-run]). *)
Theorem rerun_inserts_nothing
        (sha1 : string -> string) (args : Republic.arguments)
        (env1 env2 : Republic.environment)
        (summary_by_uid : string -> string)
        (tag_slugs_by_uid : string -> list string)
        (rows : list Republic.article) (c : Republic.connection) :
  Republic.dry_run args = false ->
  let first :=
    Republic.main sha1 args env1 summary_by_uid tag_slugs_by_uid rows c in
  let second :=
    Republic.main sha1 args env2 summary_by_uid tag_slugs_by_uid rows
                  (Republic.conn first) in
  Republic.inserted second = 0
  /\ Republic.skipped second = List.length rows
  /\ Republic.evidence (Republic.durable (Republic.conn second))
     = Republic.evidence (Republic.durable (Republic.conn first))
  /\ (forall row,
         In row (map (Republic.make_candidate args summary_by_uid
                                              tag_slugs_by_uid) rows) ->
         Republic.present sha1 args (Republic.durable (Republic.conn first)) row
         = true).
Proof.
  intros Hwet. cbv zeta.
  unfold Republic.main.
  set (cands := map (Republic.make_candidate args summary_by_uid tag_slugs_by_uid)
                    rows).
  assert (Hfin : forall env c0,
             Republic.finish_run sha1 args env cands c0
             = let st := Republic.run_ledger sha1 args env cands None c0 in
               {| Republic.conn :=
                    Republic.commit
                      (Republic.on_view
                         (Republic.seal_run env (Republic.inserted st)
                            (Republic.skipped st)
                            (Republic.selected_count
                               (Republic.max_per_phase args) cands Before)
                            (Republic.selected_count
                               (Republic.max_per_phase args) cands After))
                         (Republic.conn st));
                  Republic.inserted := Republic.inserted st;
                  Republic.skipped := Republic.skipped st |}).
  { intros env c0. unfold Republic.finish_run. now rewrite Hwet. }
  rewrite (Hfin env1 c). cbv zeta.
  set (st1 := Republic.run_ledger sha1 args env1 cands None c).
  cbn [Republic.conn].
  set (c1 := Republic.commit _).
  assert (Hev1 : Republic.evidence (Republic.view c1)
                 = Republic.evidence (Republic.view (Republic.conn st1)))
    by reflexivity.
  assert (Hall : forall row, In row cands ->
                   Republic.present sha1 args (Republic.view (Republic.conn st1)) row = true).
  { intros row Hin. unfold st1, Republic.run_ledger.
    now apply ledger_records. }
  assert (Hrun : Republic.run_ledger sha1 args env2 cands None c1
                 = {| Republic.conn := Republic.on_view (Republic.open_run args env2) c1;
                      Republic.inserted := 0;
                      Republic.skipped := List.length cands |}).
  { unfold Republic.run_ledger. rewrite Hwet.
    rewrite ledger_skips; [reflexivity|].
    intros row Hin. cbn [Republic.conn].
    rewrite <- (Hall row Hin). apply present_same_evidence. exact Hev1. }
  rewrite (Hfin env2 c1). cbv zeta. rewrite Hrun.
  cbn [Republic.inserted Republic.skipped Republic.conn].
  split; [reflexivity|]. split; [|split].
  - unfold cands. now rewrite length_map.
  - reflexivity.
  - intros row Hin. rewrite <- (Hall row Hin).
    apply present_same_evidence. exact Hev1.
Qed.

(** A rerun of the pipeline on article A from an empty database. *)
Lemma rerun_inserts_nothing_witness :
  Republic.dry_run Scenario.default_args = false
  /\ Republic.inserted
       (Republic.main Scenario.plain_hash Scenario.default_args Scenario.second_env
          Scenario.no_summary Scenario.no_tags [Scenario.article_three_probes]
          (Republic.conn
             (Republic.main Scenario.plain_hash Scenario.default_args
                Scenario.first_env Scenario.no_summary Scenario.no_tags
                [Scenario.article_three_probes] Scenario.empty_connection)))
     = 0.
Proof.
  split; [reflexivity|].
  exact (proj1 (rerun_inserts_nothing Scenario.plain_hash Scenario.default_args
                  Scenario.first_env Scenario.second_env Scenario.no_summary
                  Scenario.no_tags [Scenario.article_three_probes]
                  Scenario.empty_connection eq_refl)).
Defined.

(** ** C2: the weighted group hits *)

Lemma starts_with_spec (p s : string) :
  Text.starts_with p s = true <-> exists r, s = p ++ r.
Proof.
  revert s. induction p as [|a p IH]; intros s; simpl.
  - split; [intros _; now exists s|reflexivity].
  - destruct s as [|b s]; simpl.
    + split; [discriminate|intros [r Hr]; discriminate].
    + rewrite andb_true_iff, Ascii.eqb_eq, IH. split.
      * intros [-> [r ->]]. now exists r.
      * intros [r Hr]. injection Hr as -> ->. split; [reflexivity|now exists r].
Qed.

(** [probe in text] holds exactly when the text is some prefix, the probe,
    and some suffix. *)
Lemma contains_spec (p t : string) :
  Text.contains p t = true <-> exists l r, t = l ++ p ++ r.
Proof.
  induction t as [|c t IH].
  - simpl. rewrite orb_false_r, starts_with_spec. split.
    + intros [r Hr]. now exists EmptyString, r.
    + intros [l [r Hr]]. destruct l as [|a l]; [now exists r|discriminate].
  - cbn [Text.contains]. rewrite orb_true_iff, starts_with_spec, IH. split.
    + intros [[r Hr]|[l [r Hr]]].
      * now exists EmptyString, r.
      * exists (String c l), r. simpl. now rewrite Hr.
    + intros [l [r Hr]]. destruct l as [|a l].
      * left. now exists r.
      * right. simpl in Hr. injection Hr as _ Hr. now exists l, r.
Qed.

Lemma count_occurrences_found (text : string) (probes : list string) :
  Text.count_occurrences text probes = Text.probes_found probes text.
Proof.
  unfold Text.probes_found.
  induction probes as [|p rest IH]; simpl; [reflexivity|].
  rewrite IH. now destruct (Text.contains p text).
Qed.

(** Repeating a probe does not add to the count: a probe counts once. *)
Lemma count_occurrences_le (text : string) (probes : list string) :
  Text.count_occurrences text probes <= List.length probes.
Proof.
  induction probes as [|p rest IH]; simpl; [lia|].
  destruct (Text.contains p text); lia.
Qed.

(** Reading a derived dictionary at one of the keys it was built from. *)
Lemma lookup_map {V : Type} (F : string * V -> nat) (d : list (string * V))
      (g : string * V) :
  NoDup (map fst d) -> In g d ->
  lookup (map (fun g => (fst g, F g)) d) (fst g) = F g.
Proof.
  induction d as [|h d IH]; simpl; intros Hnd Hin; [contradiction|].
  inversion Hnd as [|? ? Hnotin Hnd']; subst.
  destruct Hin as [->|Hin].
  - now rewrite String.eqb_refl.
  - destruct (String.eqb (fst h) (fst g)) eqn:E.
    + apply String.eqb_eq in E. exfalso. apply Hnotin. rewrite E.
      now apply in_map.
    + now apply IH.
Qed.

(** The group hits of [score_article] in any catalogue whose group names
    are distinct. *)
Lemma weighted_group_hits_at (cfg : shift_config) (ph : phase)
      (title summary body_text name : string) (probes : list string) :
  NoDup (map fst (phase_keywords cfg ph)) ->
  In (name, probes) (phase_keywords cfg ph) ->
  lookup (weighted_group_hits cfg ph title summary body_text) name
  = Text.probes_found probes (Text.normalize title) * 4
    + Text.probes_found probes (Text.normalize summary) * 2
    + Nat.min (Text.probes_found probes (Text.normalize body_text)) (body_cap cfg).
Proof.
  intros Hnd Hin. unfold weighted_group_hits.
  rewrite (lookup_map _ _ (name, probes) Hnd Hin). cbn [fst].
  unfold compute_group_hits.
  rewrite !(lookup_map (fun g => Text.count_occurrences _ (snd g)) _
                       (name, probes) Hnd Hin).
  cbn [snd]. now rewrite !count_occurrences_found.
Qed.

Lemma republic_groups_distinct (ph : phase) :
  NoDup (map fst (Republic.PHASE_KEYWORDS ph)).
Proof. apply distinct_NoDup. now destruct ph. Qed.

Lemma science_groups_distinct (ph : phase) :
  NoDup (map fst (Science.PHASE_KEYWORDS ph)).
Proof. apply distinct_NoDup. now destruct ph. Qed.

(** C2, as the specification words it, fails when the body repeats one
    probe: the title holds one probe of [decay_diagnostics], the summary
    none, the body the probe "decay" three times and two anchor terms, no tag
    is given, and the group scores 5 and the article 6.6, not 7 and 8.6. *)
Lemma repeated_probe_counterexample :
  let a := Scenario.article_one_probe_thrice in
  let r := Republic.score_article Before (Republic.title a) EmptyString []
                                  (Republic.body_text a) in
  Text.probes_found Scenario.decay_probes (Text.normalize (Republic.title a)) = 1
  /\ Text.occurrences "decay" (Text.normalize (Republic.body_text a)) = 3
  /\ anchor_hits_of r = 2
  /\ lookup (group_hits_of r) "decay_diagnostics" <> 7
  /\ lookup (group_hits_of r) "decay_diagnostics" = 5
  /\ ~ (score_of r == 86 # 10)%Q
  /\ (score_of r == 66 # 10)%Q.
Proof.
  cbv zeta. repeat split; try (vm_compute; congruence).
Qed.

(** C2, amended. In both scoring scripts the weighted hits of a group are
    [title_hits * 4 + summary_hits * 2 + min(body_hits, body_cap)], each
    count being the number of the group's probes that occur in the normalized
    field at least once, with a cap of 6 (republic) or 7 (science).  For
    article A, whose title holds one probe of [decay_diagnostics], whose
    summary is empty and whose body holds three different probes of the group
    and two anchor terms, the group scores 7, the article 8.6, and with
    [min_score = 14] it is not a candidate. *)
Theorem weighted_hits_formula (ph : phase) (title summary body_text : string)
        (tag_slugs : list string) (name : string) (probes : list string) :
  (In (name, probes) (Republic.PHASE_KEYWORDS ph) ->
   lookup (group_hits_of
             (Republic.score_article ph title summary tag_slugs body_text)) name
   = Text.probes_found probes (Text.normalize title) * 4
     + Text.probes_found probes (Text.normalize summary) * 2
     + Nat.min (Text.probes_found probes (Text.normalize body_text)) 6)
  /\ (In (name, probes) (Science.PHASE_KEYWORDS ph) ->
      lookup (group_hits_of
                (Science.score_article ph title summary body_text tag_slugs)) name
      = Text.probes_found probes (Text.normalize title) * 4
        + Text.probes_found probes (Text.normalize summary) * 2
        + Nat.min (Text.probes_found probes (Text.normalize body_text)) 7)
  /\ (let a := Scenario.article_three_probes in
      let c := Republic.make_candidate Scenario.default_args Scenario.no_summary
                                       Scenario.no_tags a in
      let r := Republic.score_article Before (Republic.title a) EmptyString []
                                      (Republic.body_text a) in
      Text.probes_found Scenario.decay_probes (Text.normalize (Republic.title a)) = 1
      /\ Text.probes_found Scenario.decay_probes
                           (Text.normalize (Republic.body_text a)) = 3
      /\ anchor_hits_of r = 2
      /\ lookup (group_hits_of r) "decay_diagnostics" = 7
      /\ (Republic.c_score c == 86 # 10)%Q
      /\ Republic.c_include c = false).
Proof.
  split; [|split].
  - intros Hin.
    exact (weighted_group_hits_at Republic.config ph title summary body_text
             name probes (republic_groups_distinct ph) Hin).
  - intros Hin.
    exact (weighted_group_hits_at Science.config ph title summary body_text
             name probes (science_groups_distinct ph) Hin).
  - cbv zeta. repeat split; vm_compute; congruence.
Qed.

(** The formula at group [decay_diagnostics] of article A. *)
Lemma weighted_hits_formula_witness :
  In ("decay_diagnostics", Scenario.decay_probes) (Republic.PHASE_KEYWORDS Before)
  /\ lookup (group_hits_of
               (Republic.score_article Before "Decay" EmptyString []
                  "Crisis, erosion, hollow: the republic turns majoritarian."))
            "decay_diagnostics"
     = Text.probes_found Scenario.decay_probes (Text.normalize "Decay") * 4
       + Text.probes_found Scenario.decay_probes (Text.normalize EmptyString) * 2
       + Nat.min (Text.probes_found Scenario.decay_probes
                    (Text.normalize
                       "Crisis, erosion, hollow: the republic turns majoritarian."))
                 6.
Proof.
  assert (Hin : In ("decay_diagnostics", Scenario.decay_probes)
                   (Republic.PHASE_KEYWORDS Before))
    by (right; left; reflexivity).
  split; [exact Hin|].
  exact (proj1 (weighted_hits_formula Before "Decay" EmptyString
                  "Crisis, erosion, hollow: the republic turns majoritarian."
                  [] "decay_diagnostics" Scenario.decay_probes) Hin).
Defined.

(** ** C8: the score of a paragraph *)

(** C8, as the specification words it, fails on a paragraph that holds one
    anchor term and no probe: it scores 1.5 in both scripts, not the anchor
    weight 0.8 or 0.85 of the article scorer. *)
Lemma paragraph_anchor_weight_counterexample :
  ~ (Republic.paragraph_score Before "the republic"
     == paragraph_score_as_specified Republic.config Before "the republic")%Q
  /\ (Republic.paragraph_score Before "the republic" == 15 # 10)%Q
  /\ (paragraph_score_as_specified Republic.config Before "the republic"
      == 8 # 10)%Q
  /\ ~ (Science.paragraph_score Before "a science"
        == paragraph_score_as_specified Science.config Before "a science")%Q.
Proof.
  repeat split; vm_compute; congruence.
Qed.

(** C8, amended. In both scripts the score of a paragraph is the flat sum
    over the groups of the phase of the probes found in the normalized
    paragraph, plus 1.5 for every anchor term found: no positional weight, no
    cap, no tag bonus, and an anchor weight of its own, 1.5, in place of the
    0.8 or 0.85 of the article scorer. *)
Theorem paragraph_score_formula (ph : phase) (paragraph : string) :
  (Republic.paragraph_score ph paragraph
   == Qnat (sum_nat (map (fun g => Text.probes_found (snd g)
                                     (Text.normalize paragraph))
                         (Republic.PHASE_KEYWORDS ph)))
      + Qnat (Text.probes_found Republic.REPUBLIC_ANCHORS
                                (Text.normalize paragraph)) * (15 # 10))%Q
  /\ (Science.paragraph_score ph paragraph
      == Qnat (sum_nat (map (fun g => Text.probes_found (snd g)
                                        (Text.normalize paragraph))
                            (Science.PHASE_KEYWORDS ph)))
         + Qnat (Text.probes_found Science.SCIENCE_ANCHORS
                                   (Text.normalize paragraph)) * (15 # 10))%Q.
Proof.
  assert (H : forall cfg,
             (paragraph_score cfg ph paragraph
              == Qnat (sum_nat (map (fun g => Text.probes_found (snd g)
                                                (Text.normalize paragraph))
                                    (phase_keywords cfg ph)))
                 + Qnat (Text.probes_found (anchors cfg)
                                           (Text.normalize paragraph))
                   * (15 # 10))%Q).
  { intros cfg. unfold paragraph_score, compute_group_hits.
    rewrite map_map. cbn [snd]. rewrite count_occurrences_found.
    rewrite (map_ext _ (fun g => Text.probes_found (snd g)
                                   (Text.normalize paragraph))).
    - reflexivity.
    - intros g. apply count_occurrences_found. }
  split; [exact (H Republic.config)|exact (H Science.config)].
Qed.

(** ** C3: what the fingerprint depends on *)






(** The tag component of the hashed text. *)
Local Abbreviation tag_text tags := (Text.join "," (stable_sort String.leb tags)).



(** ** Quotes: ranking the paragraphs, stripping, first sentences *)

Section SortHead.

Context {A : Type}.
Variable le : A -> A -> bool.
Hypothesis le_total : forall x y, le x y = true \/ le y x = true.
Hypothesis le_trans : forall x y z, le x y = true -> le y z = true -> le x z = true.

(** The first element of the sorted list comes before every element. *)
Lemma stable_sort_head (l : list A) (h : A) (r : list A) :
  stable_sort le l = h :: r -> forall x, In x l -> le h x = true.
Proof.
  revert h r. induction l as [|a t IH]; intros h r Hs x Hin; [contradiction|].
  simpl in Hs.
  assert (Hrefl : forall y, le y y = true).
  { intros y. destruct (le_total y y); assumption. }
  destruct (stable_sort le t) as [|y t'] eqn:Et.
  - apply stable_sort_nil_inv in Et. subst t. simpl in Hs.
    injection Hs as <- <-. destruct Hin as [<-|[]]. apply Hrefl.
  - simpl in Hs. destruct (le a y) eqn:Eay.
    + injection Hs as <- <-. destruct Hin as [<-|Hin]; [apply Hrefl|].
      apply le_trans with y; [exact Eay|]. now apply (IH y t').
    + injection Hs as <- <-. destruct Hin as [<-|Hin].
      * destruct (le_total a y) as [H|H]; [congruence|exact H].
      * now apply (IH y t').
Qed.

Lemma stable_sort_head_In (l : list A) (h : A) (r : list A) :
  stable_sort le l = h :: r -> In h l.
Proof.
  intros Hs. apply (stable_sort_In le). rewrite Hs. now left.
Qed.

End SortHead.

Lemma Qltb_lt (x y : Q) : Qltb x y = true <-> (x < y)%Q.
Proof.
  unfold Qltb. rewrite negb_true_iff. split.
  - intros H. apply Qnot_le_lt. intros Hle.
    apply Qle_bool_iff in Hle. congruence.
  - intros H. destruct (Qle_bool y x) eqn:E; [|reflexivity].
    apply Qle_bool_iff in E. exfalso. now apply (Qlt_not_le x y).
Qed.

(** [py_min] is the smaller of its two arguments. *)
Lemma py_min_spec (a b : Q) :
  (py_min a b <= a)%Q /\ (py_min a b <= b)%Q
  /\ (py_min a b = a \/ py_min a b = b).
Proof.
  unfold py_min. destruct (Qltb b a) eqn:E.
  - apply Qltb_lt in E. repeat split; [now apply Qlt_le_weak|apply Qle_refl|now right].
  - repeat split; [apply Qle_refl| |now left].
    unfold Qltb in E. apply negb_false_iff in E. now apply Qle_bool_iff.
Qed.

Section QuoteChoice.

Variable cfg : shift_config.

(** The ranking puts a paragraph of largest score first. *)
Lemma rank_paragraphs_head (ph : phase) (paragraphs : list string)
      (s : Q) (b : string) (rest : list (Q * string)) :
  rank_paragraphs cfg ph paragraphs = (s, b) :: rest ->
  In b paragraphs
  /\ s = paragraph_score cfg ph b
  /\ forall p, In p paragraphs ->
               (paragraph_score cfg ph p <= paragraph_score cfg ph b)%Q.
Proof.
  unfold rank_paragraphs. intros Hs.
  set (le := fun x y : Q * string => Qle_bool (fst y) (fst x)) in *.
  assert (Htot : forall x y, le x y = true \/ le y x = true).
  { intros x y. unfold le.
    destruct (Qlt_le_dec (fst x) (fst y)) as [H|H].
    - right. apply Qle_bool_iff. now apply Qlt_le_weak.
    - left. now apply Qle_bool_iff. }
  assert (Htr : forall x y z, le x y = true -> le y z = true -> le x z = true).
  { intros x y z. unfold le. rewrite !Qle_bool_iff. intros H1 H2.
    now apply Qle_trans with (fst y). }
  pose proof (stable_sort_head_In le _ _ _ Hs) as Hin.
  apply in_map_iff in Hin as [b' [Hb' Hin]]. injection Hb' as Hs' ->.
  split; [exact Hin|]. split; [now symmetry|].
  intros p Hp. rewrite Hs'.
  assert (H := stable_sort_head le Htot Htr _ _ _ Hs
                 (paragraph_score cfg ph p, p)).
  unfold le in H. cbn [fst] in H. apply Qle_bool_iff. apply H.
  apply in_map_iff. now exists p.
Qed.

Lemma rank_paragraphs_nil (ph : phase) (paragraphs : list string) :
  rank_paragraphs cfg ph paragraphs = [] -> paragraphs = [].
Proof.
  unfold rank_paragraphs. intros H. apply stable_sort_nil_inv in H.
  now apply map_eq_nil in H.
Qed.

(** The three cases of [choose_quote]. *)
Lemma choose_quote_cases (ph : phase) (body_text summary title : string) :
  let paragraphs := split_paragraphs cfg body_text in
  let result := choose_quote cfg ph body_text summary title in
  ((exists p, In p paragraphs /\ (0 < paragraph_score cfg ph p)%Q) ->
   exists best,
     In best paragraphs
     /\ min_paragraph cfg <= String.length best
     /\ (forall p, In p paragraphs ->
                   (paragraph_score cfg ph p <= paragraph_score cfg ph best)%Q)
     /\ (0 < paragraph_score cfg ph best)%Q
     /\ result
        = (Quote.shorten_quote best 520, body_paragraph,
           py_min 1 ((45 # 100) + paragraph_score cfg ph best / 20)%Q))
  /\ ((forall p, In p paragraphs -> ~ (0 < paragraph_score cfg ph p)%Q) ->
      Quote.first_sentence summary <> EmptyString ->
      result = (Quote.first_sentence summary, summary_sentence, (42 # 100)%Q))
  /\ ((forall p, In p paragraphs -> ~ (0 < paragraph_score cfg ph p)%Q) ->
      Quote.first_sentence summary = EmptyString ->
      result = (Text.strip title, title_source, (25 # 100)%Q)).
Proof.
  cbv zeta. unfold choose_quote.
  destruct (rank_paragraphs cfg ph (split_paragraphs cfg body_text))
    as [|[s b] rest] eqn:Er.
  - apply rank_paragraphs_nil in Er. rewrite Er. split; [|split].
    + intros [p [[] _]].
    + intros _ Hne. destruct (Quote.first_sentence summary); congruence.
    + intros _ ->. reflexivity.
  - destruct (rank_paragraphs_head ph _ s b rest Er) as (Hin & Hs & Hmax).
    subst s. split; [|split].
    + intros [p [Hp Hpos]].
      assert (Hb : (0 < paragraph_score cfg ph b)%Q)
        by (eapply Qlt_le_trans; [exact Hpos|now apply Hmax]).
      exists b. repeat split; try assumption.
      * unfold split_paragraphs in Hin.
        destruct body_text; [contradiction|].
        apply filter_In in Hin as [_ Hlen]. now apply Nat.leb_le in Hlen.
      * apply Qltb_lt in Hb. now rewrite Hb.
    + intros Hnone Hne.
      destruct (Qltb 0 (paragraph_score cfg ph b)) eqn:E.
      * apply Qltb_lt in E. exfalso. now apply (Hnone b).
      * destruct (Quote.first_sentence summary); congruence.
    + intros Hnone Hempty.
      destruct (Qltb 0 (paragraph_score cfg ph b)) eqn:E.
      * apply Qltb_lt in E. exfalso. now apply (Hnone b).
      * now rewrite Hempty.
Qed.

End QuoteChoice.

(** *** The first sentence of the summary *)

Lemma lstrip_head (s : string) (c : ascii) (r : string) :
  Text.lstrip s = String c r -> Text.is_space c = false.
Proof.
  induction s as [|a s IH]; simpl; [discriminate|].
  destruct (Text.is_space a) eqn:E; [exact IH|].
  intros H. injection H as <- _. exact E.
Qed.

Lemma rstrip_cons (c : ascii) (r : string) :
  Text.is_space c = false -> exists r', Text.rstrip (String c r) = String c r'.
Proof.
  intros Hc. simpl. destruct (Text.rstrip r) as [|d r'].
  - rewrite Hc. now exists EmptyString.
  - now exists (String d r').
Qed.

Lemma rstrip_head (s : string) (c : ascii) (r : string) :
  Text.rstrip s = String c r -> exists r', s = String c r'.
Proof.
  destruct s as [|a s]; simpl; [discriminate|].
  destruct (Text.rstrip s) as [|d t].
  - destruct (Text.is_space a); [discriminate|].
    intros H. injection H as <- _. now exists s.
  - intros H. injection H as <- _. now exists s.
Qed.

Lemma rstrip_unfold (c : ascii) (r : string) :
  Text.rstrip (String c r)
  = match Text.rstrip r with
    | EmptyString => if Text.is_space c then EmptyString else String c EmptyString
    | String d t => String c (String d t)
    end.
Proof. reflexivity. Qed.

Lemma rstrip_idem (s : string) : Text.rstrip (Text.rstrip s) = Text.rstrip s.
Proof.
  induction s as [|c r IH]; [reflexivity|].
  rewrite (rstrip_unfold c r). destruct (Text.rstrip r) as [|d t] eqn:E.
  - destruct (Text.is_space c) eqn:Ec; [reflexivity|].
    rewrite rstrip_unfold. cbn [Text.rstrip]. now rewrite Ec.
  - rewrite rstrip_unfold, IH. reflexivity.
Qed.

(** The cleaned text starts with a character that is not white space. *)
Lemma clean_head (s : string) (c : ascii) (r : string) :
  Text.clean s = String c r -> Text.is_space c = false.
Proof.
  unfold Text.clean, Text.strip. intros H.
  destruct (rstrip_head _ _ _ H) as [r' Hr']. now apply lstrip_head in Hr'.
Qed.

Lemma strip_clean (s : string) : Text.strip (Text.clean s) = Text.clean s.
Proof.
  destruct (Text.clean s) as [|c r] eqn:E; [reflexivity|].
  pose proof (clean_head s c r E) as Hc.
  unfold Text.strip. cbn [Text.lstrip]. rewrite Hc.
  rewrite <- E. unfold Text.clean, Text.strip. apply rstrip_idem.
Qed.

Lemma terminator_not_space (c : ascii) :
  Quote.is_terminator c = true -> Text.is_space c = false.
Proof.
  unfold Quote.is_terminator. rewrite !orb_true_iff, !Ascii.eqb_eq.
  intros [[->| ->]| ->]; reflexivity.
Qed.

Lemma rstrip_terminated (g : string) :
  Quote.ends_in_terminator g = true -> Text.rstrip g = g.
Proof.
  induction g as [|c r IH]; [discriminate|].
  destruct r as [|d r'].
  - simpl. intros H. now rewrite (terminator_not_space c H).
  - intros H. change (Quote.ends_in_terminator (String d r') = true) in H.
    rewrite rstrip_unfold, (IH H). reflexivity.
Qed.

(** What [scan_sentence] finds is a prefix that ends in a terminator and is
    followed by white space or by the end of the text. *)
Lemma scan_sentence_spec (r g : string) :
  Quote.scan_sentence r = Some g ->
  Quote.ends_in_terminator g = true
  /\ exists rest, r = g ++ rest /\ Quote.at_space_or_end rest = true.
Proof.
  revert g. induction r as [|c r' IH]; intros g; simpl; [discriminate|].
  destruct (Quote.is_terminator c && Quote.at_space_or_end r') eqn:E.
  - intros H. injection H as <-. apply andb_prop in E as [Ht Hs].
    split; [exact Ht|]. now exists r'.
  - destruct (Quote.scan_sentence r') as [g'|] eqn:Eg; [|discriminate].
    simpl. intros H. injection H as <-.
    destruct (IH g' eq_refl) as (He & rest & -> & Hs).
    split.
    + destruct g' as [|d g'']; [discriminate|exact He].
    + now exists rest.
Qed.

(** The three outcomes of [first_sentence]: nothing for a blank summary, the
    first terminated sentence when there is one, else the whole cleaned
    summary. *)
Lemma first_sentence_spec (summary : string) :
  (Quote.first_sentence summary = EmptyString <-> Text.clean summary = EmptyString)
  /\ (forall g, Quote.match_sentence (Text.clean summary) = Some g ->
                Quote.first_sentence summary = g
                /\ Quote.ends_in_terminator g = true
                /\ exists rest, Text.clean summary = g ++ rest
                                /\ Quote.at_space_or_end rest = true)
  /\ (Quote.match_sentence (Text.clean summary) = None ->
      Quote.first_sentence summary = Text.clean summary).
Proof.
  unfold Quote.first_sentence.
  destruct (Text.clean summary) as [|c r] eqn:E.
  - split; [tauto|]. split; [discriminate|reflexivity].
  - pose proof (clean_head summary c r E) as Hc.
    assert (Hmatch : forall g, Quote.match_sentence (String c r) = Some g ->
                Text.strip g = g
                /\ Quote.ends_in_terminator g = true
                /\ exists rest, String c r = g ++ rest
                                /\ Quote.at_space_or_end rest = true).
    { intros g. simpl. destruct (Quote.scan_sentence r) as [g'|] eqn:Eg;
        [|discriminate].
      simpl. intros H. injection H as <-.
      destruct (scan_sentence_spec r g' Eg) as (He & rest & -> & Hs).
      assert (He' : Quote.ends_in_terminator (String c g') = true)
        by (destruct g'; [discriminate|exact He]).
      split; [|split; [exact He'|now exists rest]].
      unfold Text.strip. cbn [Text.lstrip]. rewrite Hc.
      now apply rstrip_terminated. }
    split; [|split].
    + split; [|discriminate].
      destruct (Quote.match_sentence (String c r)) as [g|] eqn:Em.
      * destruct (Hmatch g eq_refl) as (Hs & He & _).
        rewrite Hs. intros Hg. rewrite Hg in He. discriminate He.
      * rewrite <- E, strip_clean, E. discriminate.
    + intros g Hg. rewrite Hg. destruct (Hmatch g Hg) as (Hs & He & Hr).
      now rewrite Hs.
    + intros ->. rewrite <- E. apply strip_clean.
Qed.

(** *** Cleaning a cleaned text changes nothing *)

Lemma collapse_single_spaced (s : string) (b : bool) :
  Text.single_spaced b (Text.collapse_from b s) = true.
Proof.
  revert b. induction s as [|c r IH]; intros b; simpl; [reflexivity|].
  destruct (Text.is_space c) eqn:Ec.
  - destruct b; [apply IH|].
    simpl. now rewrite IH.
  - simpl. rewrite Ec. apply IH.
Qed.

Lemma single_spaced_weaken (s : string) (b : bool) :
  Text.single_spaced b s = true -> Text.single_spaced false s = true.
Proof.
  destruct s as [|c r]; simpl; [reflexivity|].
  destruct (Text.is_space c); [|tauto].
  rewrite !andb_true_iff. intros [[H1 _] H3]. now rewrite H1, H3.
Qed.

Lemma single_spaced_collapse (s : string) (b : bool) :
  Text.single_spaced b s = true -> Text.collapse_from b s = s.
Proof.
  revert b. induction s as [|c r IH]; intros b; simpl; [reflexivity|].
  destruct (Text.is_space c) eqn:Ec.
  - rewrite !andb_true_iff. intros [[H1 H2] H3].
    apply Ascii.eqb_eq in H1. apply negb_true_iff in H2. subst.
    now rewrite (IH true H3).
  - intros H. now rewrite (IH false H).
Qed.

Lemma single_spaced_tail (c : ascii) (r : string) (b : bool) :
  Text.single_spaced b (String c r) = true ->
  Text.single_spaced (Text.is_space c) r = true.
Proof.
  simpl. destruct (Text.is_space c); [|tauto].
  rewrite !andb_true_iff. tauto.
Qed.

Lemma lstrip_single_spaced (s : string) (b : bool) :
  Text.single_spaced b s = true -> Text.single_spaced false (Text.lstrip s) = true.
Proof.
  revert b. induction s as [|c r IH]; intros b H; [reflexivity|].
  cbn [Text.lstrip]. destruct (Text.is_space c) eqn:Ec.
  - apply (IH (Text.is_space c)). now apply single_spaced_tail in H.
  - now apply single_spaced_weaken in H.
Qed.

Lemma rstrip_single_spaced (s : string) (b : bool) :
  Text.single_spaced b s = true -> Text.single_spaced b (Text.rstrip s) = true.
Proof.
  revert b. induction s as [|c r IH]; intros b H; [reflexivity|].
  pose proof (IH _ (single_spaced_tail c r b H)) as Hr.
  rewrite rstrip_unfold. destruct (Text.rstrip r) as [|d t].
  - destruct (Text.is_space c) eqn:Ec; [reflexivity|]. simpl. now rewrite Ec.
  - simpl in H |- *. destruct (Text.is_space c) eqn:Ec.
    + rewrite !andb_true_iff in H |- *. destruct H as [[H1 H2] _].
      repeat split; assumption.
    + exact Hr.
Qed.

Lemma clean_single_spaced (s : string) :
  Text.single_spaced false (Text.clean s) = true.
Proof.
  unfold Text.clean, Text.strip.
  apply rstrip_single_spaced, (lstrip_single_spaced _ false).
  apply collapse_single_spaced.
Qed.

Lemma clean_idem (s : string) : Text.clean (Text.clean s) = Text.clean s.
Proof.
  unfold Text.clean at 1. unfold Text.collapse_ws.
  rewrite (single_spaced_collapse _ false (clean_single_spaced s)).
  apply strip_clean.
Qed.

(** A qualifying paragraph within the budget is quoted as it is. *)
Lemma shorten_quote_short (cfg : shift_config) (body_text p : string) :
  In p (split_paragraphs cfg body_text) ->
  String.length p <= 520 ->
  Quote.shorten_quote p 520 = p.
Proof.
  unfold split_paragraphs. destruct body_text as [|c r]; [contradiction|].
  intros Hin Hlen. apply filter_In in Hin as [Hin _].
  apply in_map_iff in Hin as [chunk [<- _]].
  unfold Quote.shorten_quote. rewrite clean_idem.
  apply Nat.leb_le in Hlen. now rewrite Hlen.
Qed.

(** ** C4: the order of the selection *)

Lemma Qeq_bool_sym (x y : Q) : Qeq_bool x y = Qeq_bool y x.
Proof.
  destruct (Qeq_bool x y) eqn:E, (Qeq_bool y x) eqn:E'; try reflexivity.
  - apply Qeq_bool_iff in E. symmetry in E. apply Qeq_bool_iff in E. congruence.
  - apply Qeq_bool_iff in E'. symmetry in E'. apply Qeq_bool_iff in E'. congruence.
Qed.

Lemma Qltb_total (x y : Q) :
  Qeq_bool x y = false -> Qltb y x = true \/ Qltb x y = true.
Proof.
  intros Hne. destruct (Q_dec x y) as [[H|H]|H].
  - right. now apply Qltb_lt.
  - left. now apply Qltb_lt.
  - apply Qeq_bool_iff in H. congruence.
Qed.

Lemma string_eqb_sym (a b : string) : String.eqb a b = String.eqb b a.
Proof.
  destruct (String.eqb a b) eqn:E.
  - apply String.eqb_eq in E. subst. symmetry. apply String.eqb_refl.
  - destruct (String.eqb b a) eqn:E'; [|reflexivity].
    apply String.eqb_eq in E'. subst. now rewrite String.eqb_refl in E.
Qed.

Lemma republic_key_total (x y : Republic.candidate) :
  Republic.key_le x y = true \/ Republic.key_le y x = true.
Proof.
  unfold Republic.key_le. rewrite (Qeq_bool_sym (Republic.c_score y)).
  destruct (Qeq_bool (Republic.c_score x) (Republic.c_score y)) eqn:E.
  - apply String.leb_total.
  - now apply Qltb_total.
Qed.

Lemma science_key_total (x y : Science.candidate) :
  Science.key_le x y = true \/ Science.key_le y x = true.
Proof.
  unfold Science.key_le. rewrite (Qeq_bool_sym (Science.c_relevance_score y)).
  destruct (Qeq_bool (Science.c_relevance_score x) (Science.c_relevance_score y))
    eqn:E.
  - apply String.leb_total.
  - now apply Qltb_total.
Qed.

Lemma packet_key_total (x y : Packet.candidate) :
  Packet.key_le x y = true \/ Packet.key_le y x = true.
Proof.
  unfold Packet.key_le. rewrite (Qeq_bool_sym (Packet.relevance_score y)).
  rewrite (string_eqb_sym (Packet.published_date y)).
  destruct (Qeq_bool (Packet.relevance_score x) (Packet.relevance_score y)) eqn:E.
  - destruct (String.eqb (Packet.published_date x) (Packet.published_date y));
      apply String.leb_total.
  - now apply Qltb_total.
Qed.

Section Stability.

Context {A : Type}.
Variable le : A -> A -> bool.
(** A class of elements that the order does not tell apart. *)
Variable same : A -> bool.
Hypothesis same_le : forall x y, same x = true -> same y = true -> le x y = true.

Lemma insert_sorted_stable (x : A) (l : list A) :
  filter same (insert_sorted le x l) = filter same (x :: l).
Proof.
  induction l as [|y t IH]; [reflexivity|].
  cbn [insert_sorted]. destruct (le x y) eqn:Exy; [reflexivity|].
  cbn [filter] in *. rewrite IH.
  destruct (same x) eqn:Ex; [|reflexivity].
  destruct (same y) eqn:Ey; [|reflexivity].
  rewrite (same_le x y Ex Ey) in Exy. discriminate.
Qed.

(** The sort keeps the input order of elements with equal keys. *)
Lemma stable_sort_stable (l : list A) :
  filter same (stable_sort le l) = filter same l.
Proof.
  induction l as [|x t IH]; [reflexivity|].
  cbn [stable_sort]. rewrite insert_sorted_stable. cbn [filter].
  now rewrite IH.
Qed.

End Stability.

Lemma filter_comm {A : Type} (p q : A -> bool) (l : list A) :
  filter p (filter q l) = filter q (filter p l).
Proof.
  induction l as [|x t IH]; [reflexivity|]. simpl.
  destruct (p x) eqn:Ep, (q x) eqn:Eq; simpl; rewrite ?Ep, ?Eq, IH; reflexivity.
Qed.

Lemma leb_refl (s : string) : String.leb s s = true.
Proof. destruct (String.leb_total s s); assumption. Qed.

Lemma tied_agree {A : Type} (score : A -> Q) (date : A -> string)
      (s : Q) (d : string) (x y : A) :
  tied A score date s d x = true -> tied A score date s d y = true ->
  Qeq_bool (score x) (score y) = true /\ date x = date y.
Proof.
  unfold tied. intros Hx Hy.
  apply andb_prop in Hx as [Hx Hdx]. apply andb_prop in Hy as [Hy Hdy].
  apply Qeq_bool_iff in Hx. apply Qeq_bool_iff in Hy.
  apply String.eqb_eq in Hdx. apply String.eqb_eq in Hdy.
  split; [|congruence].
  apply (proj2 (Qeq_bool_iff (score x) (score y))).
  now rewrite Hx, Hy.
Qed.

Lemma republic_tied_le (s : Q) (d : string) (x y : Republic.candidate) :
  tied _ Republic.c_score Republic.c_published_at s d x = true ->
  tied _ Republic.c_score Republic.c_published_at s d y = true ->
  Republic.key_le x y = true.
Proof.
  intros Hx Hy. destruct (tied_agree _ _ s d x y Hx Hy) as [Hs Hd].
  unfold Republic.key_le. rewrite Hs, Hd. apply leb_refl.
Qed.

Lemma science_tied_le (s : Q) (d : string) (x y : Science.candidate) :
  tied _ Science.c_relevance_score Science.c_published_date s d x = true ->
  tied _ Science.c_relevance_score Science.c_published_date s d y = true ->
  Science.key_le x y = true.
Proof.
  intros Hx Hy. destruct (tied_agree _ _ s d x y Hx Hy) as [Hs Hd].
  unfold Science.key_le. rewrite Hs, Hd. apply leb_refl.
Qed.

(** C4, as the specification words it, fails in the science script: two
    candidates equal in score and date are left in input order, "Zebra"
    before "Apple", so the candidates are not in the order with the title as
    third key, and with a cap of one "Zebra" is the one selected. *)
Lemma title_tiebreak_counterexample :
  map Science.c_title (Science.auto_selected Scenario.same_day_science After)
  = ["Zebra"; "Apple"]
  /\ ~ Sorted (le_rel Science.key_le_as_specified)
         (Science.auto_selected Scenario.same_day_science After)
  /\ Science.selected_uids 1 false Scenario.same_day_science After = ["z"].
Proof.
  split; [reflexivity|]. split; [|reflexivity].
  intros H.
  assert (E : Science.auto_selected Scenario.same_day_science After
              = Scenario.same_day_science) by reflexivity.
  rewrite E in H. unfold Scenario.same_day_science in H.
  inversion H as [|? ? _ Hhd]; subst.
  inversion Hhd as [|? ? Hle]; subst.
  vm_compute in Hle. discriminate Hle.
Qed.

(** *** The keys, read as the order the specification describes *)

Lemma ascii_compare_trans (x y z : ascii) (o : comparison) :
  Ascii.compare x y = o -> Ascii.compare y z = o -> Ascii.compare x z = o.
Proof.
  unfold Ascii.compare. destruct o; intros H1 H2.
  - apply N.compare_eq_iff in H1, H2. apply N.compare_eq_iff. congruence.
  - apply N.compare_lt_iff in H1, H2. apply N.compare_lt_iff.
    eapply N.lt_trans; eassumption.
  - apply N.compare_gt_iff in H1, H2. apply N.compare_gt_iff.
    eapply N.lt_trans; eassumption.
Qed.

Lemma string_leb_trans (a b c : string) :
  String.leb a b = true -> String.leb b c = true -> String.leb a c = true.
Proof.
  unfold String.leb. revert b c.
  induction a as [|x a IH]; intros [|y b] [|z c]; simpl;
    try reflexivity; try discriminate.
  destruct (Ascii.compare x y) eqn:Exy; try discriminate;
    destruct (Ascii.compare y z) eqn:Eyz; try discriminate.
  - rewrite (ascii_compare_trans x y z Eq Exy Eyz). apply IH.
  - apply Ascii.compare_eq_iff in Exy. subst y. rewrite Eyz. reflexivity.
  - apply Ascii.compare_eq_iff in Eyz. subst z. rewrite Exy. reflexivity.
  - rewrite (ascii_compare_trans x y z Lt Exy Eyz). reflexivity.
Qed.

Section TwoKeys.

Context {A : Type}.
Variables (score : A -> Q) (date : A -> string).

(** The shape of the two-key comparisons of the scoring scripts. *)
Let le2 (x y : A) : bool :=
  if Qeq_bool (score x) (score y)
  then String.leb (date x) (date y)
  else Qltb (score y) (score x).

Lemma two_keys_ranked (x y : A) :
  le2 x y = true <-> ranked_before score date x y.
Proof.
  unfold le2, ranked_before.
  destruct (Qeq_bool (score x) (score y)) eqn:E.
  - apply Qeq_bool_iff in E. split.
    + intros H. right. now split.
    + intros [H | [_ H]]; [|exact H].
      rewrite E in H. now apply Qlt_irrefl in H.
  - rewrite Qltb_lt. split.
    + intros H. now left.
    + intros [H | [H _]]; [exact H|].
      apply Qeq_bool_iff in H. congruence.
Qed.

Lemma ranked_before_trans (x y z : A) :
  ranked_before score date x y -> ranked_before score date y z ->
  ranked_before score date x z.
Proof.
  unfold ranked_before.
  intros [Hxy | [Exy Dxy]] [Hyz | [Eyz Dyz]].
  - left. eapply Qlt_trans; eassumption.
  - left. now rewrite <- Eyz.
  - left. now rewrite Exy.
  - right. split; [now rewrite Exy|]. eapply string_leb_trans; eassumption.
Qed.

Lemma ranked_before_total (x y : A) :
  ranked_before score date x y \/ ranked_before score date y x.
Proof.
  unfold ranked_before.
  destruct (Q_dec (score x) (score y)) as [[H | H] | H].
  - right. now left.
  - left. now left.
  - destruct (String.leb_total (date x) (date y)) as [D | D].
    + left. right. now split.
    + right. right. split; [now symmetry|exact D].
Qed.

End TwoKeys.

Section ThreeKeys.

Context {A : Type}.
Variables (score : A -> Q) (date title : A -> string).

Let le3 (x y : A) : bool :=
  if Qeq_bool (score x) (score y)
  then (if String.eqb (date x) (date y)
        then String.leb (title x) (title y)
        else String.leb (date x) (date y))
  else Qltb (score y) (score x).

Lemma three_keys_ranked (x y : A) :
  le3 x y = true <-> ranked_before_titled score date title x y.
Proof.
  unfold le3, ranked_before_titled.
  destruct (Qeq_bool (score x) (score y)) eqn:E.
  - apply Qeq_bool_iff in E.
    destruct (String.eqb (date x) (date y)) eqn:D.
    + apply String.eqb_eq in D. split.
      * intros H. right. split; [exact E|]. split; [|now intros _].
        rewrite D. apply leb_refl.
      * intros [H | (_ & _ & H)]; [|now apply H].
        rewrite E in H. now apply Qlt_irrefl in H.
    + split.
      * intros H. right. split; [exact E|]. split; [exact H|].
        intros Heq. rewrite Heq, String.eqb_refl in D. discriminate D.
      * intros [H | (_ & H & _)]; [|exact H].
        rewrite E in H. now apply Qlt_irrefl in H.
  - rewrite Qltb_lt. split.
    + intros H. now left.
    + intros [H | [H _]]; [exact H|].
      apply Qeq_bool_iff in H. congruence.
Qed.

Lemma ranked_before_titled_trans (x y z : A) :
  ranked_before_titled score date title x y ->
  ranked_before_titled score date title y z ->
  ranked_before_titled score date title x z.
Proof.
  unfold ranked_before_titled.
  intros [Hxy | (Exy & Dxy & Txy)] [Hyz | (Eyz & Dyz & Tyz)].
  - left. eapply Qlt_trans; eassumption.
  - left. now rewrite <- Eyz.
  - left. now rewrite Exy.
  - right. split; [now rewrite Exy|].
    split; [eapply string_leb_trans; eassumption|].
    intros Heq. rewrite <- Heq in Dyz.
    pose proof (String.leb_antisym _ _ Dxy Dyz) as Hxy.
    assert (Hyz : date y = date z) by congruence.
    eapply string_leb_trans; [now apply Txy|now apply Tyz].
Qed.

Lemma ranked_before_titled_total (x y : A) :
  ranked_before_titled score date title x y
  \/ ranked_before_titled score date title y x.
Proof.
  unfold ranked_before_titled.
  destruct (Q_dec (score x) (score y)) as [[H | H] | H].
  - right. now left.
  - left. now left.
  - destruct (String.eqb (date x) (date y)) eqn:D.
    + apply String.eqb_eq in D.
      destruct (String.leb_total (title x) (title y)) as [T | T].
      * left. right. split; [exact H|]. split; [|now intros _].
        rewrite D. apply leb_refl.
      * right. right. split; [now symmetry|]. split; [|now intros _].
        rewrite D. apply leb_refl.
    + assert (Hne : date x <> date y).
      { intros Heq. rewrite Heq, String.eqb_refl in D. discriminate D. }
      destruct (String.leb_total (date x) (date y)) as [L | L].
      * left. right. split; [exact H|]. split; [exact L|]. intros Heq.
        contradiction.
      * right. right. split; [now symmetry|]. split; [exact L|]. intros Heq.
        symmetry in Heq. contradiction.
Qed.

End ThreeKeys.

Lemma sorted_weaken {A : Type} (R S : A -> A -> Prop) (l : list A) :
  (forall x y, R x y -> S x y) -> Sorted R l -> Sorted S l.
Proof.
  intros Himp. induction 1 as [|x t Hs IH Hhd]; constructor; [exact IH|].
  destruct Hhd; constructor. now apply Himp.
Qed.

(** A stable sort by a key that reads as a transitive order puts every
    element before all that follow it in that order. *)
Lemma stable_sort_ranked {A : Type} (le : A -> A -> bool)
      (R : A -> A -> Prop) (l : list A) :
  (forall x y, le x y = true \/ le y x = true) ->
  (forall x y, le x y = true -> R x y) ->
  (forall x y z, R x y -> R y z -> R x z) ->
  StronglySorted R (stable_sort le l).
Proof.
  intros Htotal Hread Htrans. apply Sorted_StronglySorted; [exact Htrans|].
  apply (sorted_weaken (le_rel le)); [exact Hread|].
  now apply stable_sort_sorted.
Qed.

Lemma strongly_sorted_filter {A : Type} (R : A -> A -> Prop)
      (keep : A -> bool) (l : list A) :
  StronglySorted R l -> StronglySorted R (filter keep l).
Proof.
  induction 1 as [|x t Hs IH Hall]; simpl; [constructor|].
  destruct (keep x); [|exact IH]. constructor; [exact IH|].
  apply Forall_forall. intros y Hy. apply filter_In in Hy as [Hy _].
  now apply (proj1 (Forall_forall _ _) Hall).
Qed.

(** In such a list the first [cap] elements come before all the others. *)
Lemma strongly_sorted_cut {A : Type} (R : A -> A -> Prop) (cap : nat)
      (l : list A) (x y : A) :
  StronglySorted R l -> In x (firstn cap l) -> In y (skipn cap l) -> R x y.
Proof.
  intros Hs. revert cap. induction Hs as [|a t Hs IH Hall]; intros cap Hx Hy.
  - rewrite firstn_nil in Hx. contradiction.
  - destruct cap as [|cap]; [contradiction|]. simpl in Hx, Hy.
    destruct Hx as [<- | Hx].
    + apply (proj1 (Forall_forall _ _) Hall).
      rewrite <- (firstn_skipn cap t). apply in_or_app. now right.
    + now apply (IH cap).
Qed.

Lemma filter_twice {A : Type} (p q : A -> bool) (l : list A) :
  filter q (filter p l) = filter (fun x => p x && q x) l.
Proof.
  induction l as [|x t IH]; simpl; [reflexivity|].
  destruct (p x); simpl; [|exact IH]. destruct (q x); now rewrite IH.
Qed.

Lemma filter_permuted {A : Type} (p : A -> bool) (l1 l2 : list A) :
  Permutation l1 l2 -> Permutation (filter p l1) (filter p l2).
Proof.
  induction 1; simpl.
  - constructor.
  - destruct (p x); [now constructor|assumption].
  - destruct (p x), (p y); try apply Permutation_refl. apply perm_swap.
  - eapply Permutation_trans; eassumption.
Qed.

Lemma packet_eligible_permuted (fto : bool) (cands : list Packet.candidate)
      (ph : phase) :
  Permutation (Packet.eligible fto cands ph)
    (filter (fun r =>
               phase_eqb (Packet.phase_of r) ph
               && (negb fto || String.eqb (Packet.text_state r) "full")
               && Packet.candidate_include r) cands).
Proof.
  unfold Packet.eligible, Packet.phase_rows.
  apply Permutation_sym.
  eapply Permutation_trans; [|apply stable_sort_perm].
  rewrite filter_twice.
  erewrite filter_ext; [apply Permutation_refl|].
  intros r. unfold Packet.admissible, Packet.is_full.
  now rewrite andb_assoc.
Qed.

Lemma packet_eligible_ranked (fto : bool) (cands : list Packet.candidate)
      (ph : phase) :
  StronglySorted
    (ranked_before_titled Packet.relevance_score Packet.published_date
                          Packet.title)
    (Packet.eligible fto cands ph).
Proof.
  unfold Packet.eligible. apply stable_sort_ranked.
  - exact packet_key_total.
  - intros x y.
    apply (three_keys_ranked Packet.relevance_score Packet.published_date
                             Packet.title).
  - apply ranked_before_titled_trans.
Qed.

Lemma republic_candidates_ranked (cands : list Republic.candidate)
      (ph : phase) :
  StronglySorted (ranked_before Republic.c_score Republic.c_published_at)
                 (Republic.phase_candidates cands ph).
Proof.
  unfold Republic.phase_candidates. apply stable_sort_ranked.
  - exact republic_key_total.
  - intros x y.
    apply (two_keys_ranked Republic.c_score Republic.c_published_at).
  - apply ranked_before_trans.
Qed.

Lemma science_rows_ranked (rows : list Science.candidate) :
  StronglySorted
    (ranked_before Science.c_relevance_score Science.c_published_date)
    (stable_sort Science.key_le rows).
Proof.
  apply stable_sort_ranked.
  - exact science_key_total.
  - intros x y.
    apply (two_keys_ranked Science.c_relevance_score
                           Science.c_published_date).
  - apply ranked_before_trans.
Qed.

Lemma science_selected_permuted (cands : list Science.candidate)
      (ph : phase) :
  Permutation (Science.auto_selected cands ph)
    (filter (fun r => phase_eqb (Science.c_phase r) ph
                      && Science.c_candidate_include r) cands).
Proof.
  unfold Science.auto_selected, Science.phase_rows.
  apply Permutation_sym.
  eapply Permutation_trans; [|apply stable_sort_perm].
  rewrite <- filter_twice. apply filter_permuted, stable_sort_perm.
Qed.

(** C4, amended. In each of the three selections the eligible candidates
    of a phase, the eligible ones and no others, are put in an order in which
    every candidate comes before all candidates of lower score and, among
    those of its score, before all of later date; in the packet assembler
    also, among those of its score and date, before all whose title sorts
    later, while the critical-evidence and science scripts leave candidates
    equal in score and date in input order.  The order compares any two
    candidates, and it is fixed by the input.  The first [max_per_phase]
    candidates in that order are the primary picks, so each of them comes
    before each eligible candidate left out.  Of two candidates of a phase
    scoring 20.0, published 2023-01-01 and 2022-06-01, a cap of one selects
    the 2022-06-01 article in all three scripts and leaves the other out;
    and of the ten-candidate scenario a cap of one selects the candidate
    scoring 20.0, though the one scoring 18.0 is earlier. *)
Theorem selection_order :
  (forall (full_text_only : bool) (cands : list Packet.candidate) (ph : phase),
      let ordered := Packet.eligible full_text_only cands ph in
      let order := ranked_before_titled Packet.relevance_score
                     Packet.published_date Packet.title in
      Permutation ordered
        (filter (fun r =>
                   phase_eqb (Packet.phase_of r) ph
                   && (negb full_text_only
                       || String.eqb (Packet.text_state r) "full")
                   && Packet.candidate_include r) cands)
      /\ StronglySorted order ordered
      /\ Sorted (le_rel Packet.key_le) ordered
      /\ forall cap,
           Packet.picks cap full_text_only false cands ph = firstn cap ordered
           /\ forall x y, In x (firstn cap ordered) ->
                          In y (skipn cap ordered) -> order x y)
  /\ (forall x y : Packet.candidate,
         (Packet.key_le x y = true
          <-> ranked_before_titled Packet.relevance_score
                Packet.published_date Packet.title x y)
         /\ (Packet.key_le x y = true \/ Packet.key_le y x = true))
  /\ (forall (cands : list Republic.candidate) (ph : phase) (s : Q) (d : string),
         let ordered := Republic.phase_candidates cands ph in
         let order := ranked_before Republic.c_score Republic.c_published_at in
         Permutation ordered
           (filter (fun row => phase_eqb (Republic.c_phase row) ph
                               && Republic.c_include row) cands)
         /\ StronglySorted order ordered
         /\ Sorted (le_rel Republic.key_le) ordered
         /\ filter (tied _ Republic.c_score Republic.c_published_at s d) ordered
            = filter (tied _ Republic.c_score Republic.c_published_at s d)
                (filter (fun row => phase_eqb (Republic.c_phase row) ph
                                    && Republic.c_include row) cands)
         /\ forall cap,
              Republic.selected_ids cap cands ph
              = map Republic.c_article_uid (firstn cap ordered)
              /\ forall x y, In x (firstn cap ordered) ->
                             In y (skipn cap ordered) -> order x y)
  /\ (forall x y : Republic.candidate,
         (Republic.key_le x y = true
          <-> ranked_before Republic.c_score Republic.c_published_at x y)
         /\ (Republic.key_le x y = true \/ Republic.key_le y x = true))
  /\ (forall (cands : list Science.candidate) (ph : phase) (s : Q) (d : string),
         let ordered := Science.auto_selected cands ph in
         let order := ranked_before Science.c_relevance_score
                        Science.c_published_date in
         Permutation ordered
           (filter (fun r => phase_eqb (Science.c_phase r) ph
                             && Science.c_candidate_include r) cands)
         /\ StronglySorted order ordered
         /\ Sorted (le_rel Science.key_le) ordered
         /\ filter (tied _ Science.c_relevance_score Science.c_published_date s d)
                   ordered
            = filter (tied _ Science.c_relevance_score Science.c_published_date s d)
                (filter Science.c_candidate_include
                   (filter (fun row => phase_eqb (Science.c_phase row) ph) cands))
         /\ forall cap,
              Science.primary_picks cap cands ph = firstn cap ordered
              /\ forall x y, In x (firstn cap ordered) ->
                             In y (skipn cap ordered) -> order x y)
  /\ (forall x y : Science.candidate,
         (Science.key_le x y = true
          <-> ranked_before Science.c_relevance_score
                Science.c_published_date x y)
         /\ (Science.key_le x y = true \/ Science.key_le y x = true))
  /\ Republic.selected_ids 1 Scenario.tie_republic Before = ["early"]
  /\ (forall full_text_only backfill_to_cap : bool,
         map Packet.article_uid
             (fst (Packet.select_records Scenario.tie_packet 1 full_text_only
                                         backfill_to_cap)) = ["early"])
  /\ (forall backfill_to_cap : bool,
         map Science.c_article_uid
             (fst (Science.select_from 1 backfill_to_cap Scenario.tie_science))
         = ["early"])
  /\ Republic.selected_ids 1 Scenario.ten_republic Before = ["p1"]
  /\ (forall full_text_only backfill_to_cap : bool,
         map Packet.article_uid
             (fst (Packet.select_records (Scenario.ten_packet "full") 1
                     full_text_only backfill_to_cap)) = ["p1"])
  /\ (forall backfill_to_cap : bool,
         map Science.c_article_uid
             (fst (Science.select_from 1 backfill_to_cap Scenario.ten_science))
         = ["p1"]).
Proof.
  split; [|split; [|split; [|split; [|split; [|split]]]]].
  - intros fto cands ph. cbv zeta.
    pose proof (packet_eligible_ranked fto cands ph) as Hs.
    split; [apply packet_eligible_permuted|]. split; [exact Hs|].
    split; [apply stable_sort_sorted, packet_key_total|].
    intros cap. split; [reflexivity|].
    intros x y. now apply strongly_sorted_cut.
  - intros x y. split; [|apply packet_key_total].
    apply (three_keys_ranked Packet.relevance_score Packet.published_date
                             Packet.title).
  - intros cands ph s d. cbv zeta.
    pose proof (republic_candidates_ranked cands ph) as Hs.
    split; [apply Permutation_sym, stable_sort_perm|]. split; [exact Hs|].
    split; [apply stable_sort_sorted, republic_key_total|]. split.
    + unfold Republic.phase_candidates.
      apply stable_sort_stable, republic_tied_le.
    + intros cap. split; [reflexivity|].
      intros x y. now apply strongly_sorted_cut.
  - intros x y. split; [|apply republic_key_total].
    apply (two_keys_ranked Republic.c_score Republic.c_published_at).
  - intros cands ph s d. cbv zeta.
    assert (Hs : StronglySorted
                   (ranked_before Science.c_relevance_score
                                  Science.c_published_date)
                   (Science.auto_selected cands ph))
      by apply science_rows_ranked.
    split; [apply science_selected_permuted|]. split; [exact Hs|].
    split; [apply stable_sort_sorted, science_key_total|]. split.
    + unfold Science.auto_selected, Science.phase_rows.
      rewrite (stable_sort_stable _ _ (science_tied_le s d)).
      rewrite filter_comm.
      rewrite (stable_sort_stable _ _ (science_tied_le s d)).
      apply filter_comm.
    + intros cap. split; [reflexivity|].
      intros x y. now apply strongly_sorted_cut.
  - intros x y. split; [|apply science_key_total].
    apply (two_keys_ranked Science.c_relevance_score
                           Science.c_published_date).
  - split; [reflexivity|]. split; [intros [|] [|]; reflexivity|].
    split; [intros [|]; reflexivity|]. split; [reflexivity|].
    split; [intros [|] [|]; reflexivity|]. intros [|]; reflexivity.
Qed.

(** ** C6: backfill to the cap *)

Lemma In_firstn_weaken {A : Type} (n : nat) (l : list A) (x : A) :
  In x (firstn n l) -> In x l.
Proof.
  revert l. induction n as [|n IH]; intros l; simpl; [contradiction|].
  destruct l as [|y t]; simpl; [contradiction|].
  intros [H|H]; [now left|right; now apply IH].
Qed.

(** The backfill loop of the packet assembler takes the head of the pool,
    as many rows as the cap still allows. *)
Lemma packet_extend_firstn (cap : nat) (pool picks : list Packet.candidate) :
  List.length picks < cap ->
  Packet.extend cap picks pool
  = (picks ++ firstn (cap - List.length picks) pool)%list.
Proof.
  revert picks. induction pool as [|row rest IH]; intros picks Hlt.
  - simpl. now rewrite firstn_nil, app_nil_r.
  - cbn [Packet.extend].
    destruct (Nat.leb cap (List.length (picks ++ [row]))) eqn:E.
    + rewrite length_app in E. simpl in E. apply Nat.leb_le in E.
      replace (cap - List.length picks) with 1 by lia. reflexivity.
    + apply Nat.leb_gt in E. rewrite (IH _ E).
      rewrite length_app in *. simpl in *.
      replace (cap - List.length picks) with (S (cap - (List.length picks + 1)))
        by lia.
      rewrite firstn_cons, <- app_assoc. reflexivity.
Qed.

Lemma packet_eligible_In fto cands ph r :
  In r (Packet.eligible fto cands ph)
  <-> In r cands /\ Packet.phase_of r = ph
      /\ Packet.admissible fto r = true /\ Packet.candidate_include r = true.
Proof.
  unfold Packet.eligible, Packet.phase_rows.
  rewrite stable_sort_In, !filter_In, andb_true_iff, phase_eqb_eq. tauto.
Qed.

Lemma packet_pool_In fto cands ph ids r :
  In r (Packet.fallback_pool fto cands ph ids)
  <-> In r cands /\ Packet.phase_of r = ph
      /\ Packet.admissible fto r = true
      /\ Text.mem (Packet.article_uid r) ids = false.
Proof.
  unfold Packet.fallback_pool, Packet.phase_rows.
  rewrite stable_sort_In, !filter_In, andb_true_iff, negb_true_iff, phase_eqb_eq.
  tauto.
Qed.

(** With every eligible candidate picked, the fallback pool holds the
    admissible candidates of the phase that failed the thresholds. *)
Lemma packet_pool_failed fto cands ph r :
  In r (Packet.fallback_pool fto cands ph
          (map Packet.article_uid (Packet.eligible fto cands ph))) ->
  Packet.phase_of r = ph /\ Packet.admissible fto r = true
  /\ Packet.candidate_include r = false.
Proof.
  intros H. apply packet_pool_In in H as (Hin & Hph & Had & Hmem).
  split; [exact Hph|]. split; [exact Had|].
  destruct (Packet.candidate_include r) eqn:Ei; [|reflexivity].
  assert (He : In r (Packet.eligible fto cands ph))
    by (apply packet_eligible_In; tauto).
  assert (Hm : Text.mem (Packet.article_uid r)
                 (map Packet.article_uid (Packet.eligible fto cands ph)) = true)
    by (apply mem_In; now apply in_map).
  congruence.
Qed.

Lemma packet_backfill_picks cap fto cands ph :
  List.length (Packet.eligible fto cands ph) < cap ->
  Packet.picks cap fto true cands ph
  = (Packet.eligible fto cands ph
     ++ firstn (cap - List.length (Packet.eligible fto cands ph))
          (Packet.fallback_pool fto cands ph
             (map Packet.article_uid (Packet.eligible fto cands ph))))%list.
Proof.
  intros Hlt. unfold Packet.picks.
  rewrite (firstn_all2 (n := cap)) by lia.
  apply Nat.ltb_lt in Hlt as Hb. rewrite Hb. cbn [andb].
  now apply packet_extend_firstn.
Qed.

(** A picked row is marked as selected, with the reason its threshold flag
    gives. *)
Lemma packet_picked_reason cap fto bf cands ph r :
  In r (Packet.picks cap fto bf cands ph) -> Packet.phase_of r = ph ->
  let m := Packet.mark_row fto (Packet.selected_uids cap fto bf cands) r in
  Packet.include_in_story m = true
  /\ Packet.reason m = (if Packet.candidate_include r then passed_threshold
                        else backfill_to_phase_cap).
Proof.
  intros Hin Hph. cbv zeta. unfold Packet.mark_row.
  assert (Hm : Text.mem (Packet.article_uid r)
                 (Packet.selected_uids cap fto bf cands (Packet.phase_of r)) = true).
  { rewrite Hph. apply mem_In. unfold Packet.selected_uids. now apply in_map. }
  rewrite Hm. split; reflexivity.
Qed.

Lemma NoDup_map_In_inj {A B : Type} (f : A -> B) (l : list A) (x y : A) :
  NoDup (map f l) -> In x l -> In y l -> f x = f y -> x = y.
Proof.
  induction l as [|a t IH]; simpl; intros Hnd Hx Hy Hf; [contradiction|].
  inversion Hnd as [|? ? Hnotin Hnd']; subst.
  destruct Hx as [->|Hx], Hy as [->|Hy]; try reflexivity.
  - exfalso. apply Hnotin. rewrite Hf. now apply in_map.
  - exfalso. apply Hnotin. rewrite <- Hf. now apply in_map.
  - now apply IH.
Qed.

(** Rows kept by a filter still have distinct identifiers. *)
Lemma distinct_keys_filter {Row Key : Type} (key : Row -> Key)
      (keep : Row -> bool) (rows : list Row)
      (Hdistinct : NoDup (map key rows)) :
  NoDup (map key (filter keep rows)).
Proof.
  induction rows as [|row rest IH]; simpl; [constructor|].
  inversion Hdistinct as [|? ? Hfresh Hrest]; subst.
  destruct (keep row); [|exact (IH Hrest)].
  simpl. constructor; [|exact (IH Hrest)].
  intros Hin. apply Hfresh. apply in_map_iff in Hin as [other [Hkey Hin]].
  apply filter_In in Hin as [Hin _]. apply in_map_iff. now exists other.
Qed.

(** The backfill loop of the science script takes the rows not picked
    before, in order, as many as the cap still allows. *)
Lemma science_backfill_firstn (cap : nat) (rows picks : list Science.candidate)
      (ids : list string) :
  NoDup (map Science.c_article_uid rows) ->
  List.length picks < cap ->
  Science.backfill cap picks ids rows
  = (picks
     ++ firstn (cap - List.length picks)
          (filter (fun r => negb (Text.mem (Science.c_article_uid r) ids)) rows))%list.
Proof.
  revert picks ids. induction rows as [|row rest IH]; intros picks ids Hnd Hlt.
  - simpl. now rewrite firstn_nil, app_nil_r.
  - inversion Hnd as [|? ? Hnotin Hnd']; subst.
    cbn [Science.backfill filter].
    destruct (Text.mem (Science.c_article_uid row) ids) eqn:Em; cbn [negb].
    + now apply IH.
    + destruct (Nat.leb cap (List.length (picks ++ [row]))) eqn:E.
      * rewrite length_app in E. simpl in E. apply Nat.leb_le in E.
        replace (cap - List.length picks) with 1 by lia. reflexivity.
      * apply Nat.leb_gt in E. rewrite (IH _ _ Hnd' E).
        rewrite length_app in *. simpl in *.
        replace (cap - List.length picks)
          with (S (cap - (List.length picks + 1))) by lia.
        rewrite firstn_cons, <- app_assoc. simpl. do 3 f_equal.
        apply filter_ext_in. intros r Hr. unfold Text.mem. cbn [existsb].
        destruct (String.eqb (Science.c_article_uid r) (Science.c_article_uid row))
          eqn:Eu; [|reflexivity].
        apply String.eqb_eq in Eu. exfalso. apply Hnotin. rewrite <- Eu.
        now apply in_map.
Qed.

Lemma science_phase_rows_In cands ph r :
  In r (Science.phase_rows cands ph) <-> In r cands /\ Science.c_phase r = ph.
Proof.
  unfold Science.phase_rows. rewrite stable_sort_In, filter_In, phase_eqb_eq.
  tauto.
Qed.

Lemma science_phase_rows_NoDup cands ph :
  NoDup (map Science.c_article_uid cands) ->
  NoDup (map Science.c_article_uid (Science.phase_rows cands ph)).
Proof.
  intros Hnd. unfold Science.phase_rows.
  eapply Permutation_NoDup;
    [apply Permutation_map, stable_sort_perm|now apply distinct_keys_filter].
Qed.

Lemma science_backfill_picks cap cands ph :
  NoDup (map Science.c_article_uid cands) ->
  List.length (Science.auto_selected cands ph) < cap ->
  Science.picks cap true cands ph
  = (Science.auto_selected cands ph
     ++ firstn (cap - List.length (Science.auto_selected cands ph))
          (filter (fun r => negb (Science.c_candidate_include r))
                  (Science.phase_rows cands ph)))%list.
Proof.
  intros Hnd Hlt. unfold Science.picks, Science.primary_picks.
  rewrite (firstn_all2 (n := cap)) by lia.
  apply Nat.ltb_lt in Hlt as Hb. rewrite Hb. cbn [andb].
  pose proof (science_phase_rows_NoDup cands ph Hnd) as Hnd'.
  rewrite (science_backfill_firstn _ _ _ _ Hnd' Hlt). do 2 f_equal.
  apply filter_ext_in. intros r Hr. f_equal.
  destruct (Science.c_candidate_include r) eqn:Ei.
  - apply mem_In, in_map. unfold Science.auto_selected.
    apply stable_sort_In, filter_In. now split.
  - destruct (Text.mem _ _) eqn:Em; [|reflexivity].
    apply mem_In in Em. apply in_map_iff in Em as [r' [Hu Hr']].
    unfold Science.auto_selected in Hr'.
    apply stable_sort_In, filter_In in Hr' as [Hr' Hi'].
    assert (r' = r) by (now apply (NoDup_map_In_inj Science.c_article_uid
                                     (Science.phase_rows cands ph))).
    subst. congruence.
Qed.

Lemma science_picked_reason cap bf cands ph r :
  In r (Science.picks cap bf cands ph) -> Science.c_phase r = ph ->
  let m := Science.mark_row (Science.selected_uids cap bf cands) r in
  Science.c_include_in_story m = true
  /\ Science.c_selection_reason m
     = (if Science.c_candidate_include r then passed_threshold
        else backfill_to_phase_cap).
Proof.
  intros Hin Hph. cbv zeta. unfold Science.mark_row.
  cbn [Science.c_include_in_story Science.c_selection_reason].
  assert (Hm : Text.mem (Science.c_article_uid r)
                 (Science.selected_uids cap bf cands (Science.c_phase r)) = true).
  { rewrite Hph. apply mem_In. unfold Science.selected_uids. now apply in_map. }
  rewrite Hm. split; reflexivity.
Qed.

(** C6, as the specification words it, fails in the packet assembler under
    its full-text-only mode: of ten phase-before candidates two pass the
    thresholds, the other eight have partial text, and with a cap of five
    and backfill enabled two records are selected, not five. *)
Lemma backfill_full_text_counterexample :
  List.length (Packet.phase_rows (Scenario.ten_packet "partial") Before) = 10
  /\ List.length (filter Packet.candidate_include (Scenario.ten_packet "partial"))
     = 2
  /\ List.length
       (filter (fun row => phase_eqb (Packet.phase_of row) Before)
          (fst (Packet.select_records (Scenario.ten_packet "partial") 5 true true)))
     = 2
  /\ List.length
       (fst (Packet.select_records (Scenario.ten_packet "partial") 5 true true))
     <> 5.
Proof.
  repeat split; try reflexivity. vm_compute. discriminate.
Qed.

(** The fallback pool of the packet assembler, in full: the candidates of
    the phase that are admissible in the mode and whose identifier is not
    among the primary picks, in the order of the selection. *)
Lemma packet_pool_remaining (fto : bool) (cands : list Packet.candidate)
      (ph : phase) :
  let primary := Packet.eligible fto cands ph in
  let pool := Packet.fallback_pool fto cands ph
                (map Packet.article_uid primary) in
  Permutation primary
    (filter (fun r =>
               phase_eqb (Packet.phase_of r) ph
               && (negb fto || String.eqb (Packet.text_state r) "full")
               && Packet.candidate_include r) cands)
  /\ Permutation pool
       (filter (fun r =>
                  phase_eqb (Packet.phase_of r) ph
                  && (negb fto || String.eqb (Packet.text_state r) "full")
                  && negb (Text.mem (Packet.article_uid r)
                                    (map Packet.article_uid primary)))
               cands)
  /\ (forall r, In r pool <->
                In r cands /\ Packet.phase_of r = ph
                /\ (fto = true -> Packet.text_state r = "full")
                /\ ~ In (Packet.article_uid r) (map Packet.article_uid primary))
  /\ (NoDup (map Packet.article_uid cands) ->
      forall r, In r pool <->
                In r cands /\ Packet.phase_of r = ph
                /\ (fto = true -> Packet.text_state r = "full")
                /\ Packet.candidate_include r = false)
  /\ StronglySorted
       (ranked_before_titled Packet.relevance_score Packet.published_date
                             Packet.title) primary
  /\ StronglySorted
       (ranked_before_titled Packet.relevance_score Packet.published_date
                             Packet.title) pool.
Proof.
  cbv zeta.
  assert (Hadm : forall r, Packet.admissible fto r = true
                           <-> (fto = true -> Packet.text_state r = "full")).
  { intros r. unfold Packet.admissible, Packet.is_full.
    destruct fto; simpl.
    - rewrite String.eqb_eq. split; [now intros H _|intros H; now apply H].
    - split; [intros _ H; discriminate H|reflexivity]. }
  assert (Hpool : forall r,
             In r (Packet.fallback_pool fto cands ph
                     (map Packet.article_uid (Packet.eligible fto cands ph)))
             <-> In r cands /\ Packet.phase_of r = ph
                 /\ (fto = true -> Packet.text_state r = "full")
                 /\ ~ In (Packet.article_uid r)
                         (map Packet.article_uid (Packet.eligible fto cands ph))).
  { intros r. rewrite packet_pool_In, Hadm. split.
    - intros (H1 & H2 & H3 & H4). repeat split; try assumption.
      intros Hin. apply mem_In in Hin. congruence.
    - intros (H1 & H2 & H3 & H4). repeat split; try assumption.
      destruct (Text.mem _ _) eqn:E; [|reflexivity].
      apply mem_In in E. contradiction. }
  split; [apply packet_eligible_permuted|]. split.
  { unfold Packet.fallback_pool, Packet.phase_rows.
    apply Permutation_sym.
    eapply Permutation_trans; [|apply stable_sort_perm].
    rewrite filter_twice.
    erewrite filter_ext; [apply Permutation_refl|].
    intros r. unfold Packet.admissible, Packet.is_full.
    now rewrite andb_assoc. }
  split; [exact Hpool|]. split.
  { intros Hnd r. rewrite Hpool. split.
    - intros (H1 & H2 & H3 & H4). repeat split; try assumption.
      destruct (Packet.candidate_include r) eqn:E; [|reflexivity].
      exfalso. apply H4, in_map, packet_eligible_In.
      repeat split; try assumption. now apply Hadm.
    - intros (H1 & H2 & H3 & H4). repeat split; try assumption.
      intros Hin. apply in_map_iff in Hin as [r' [Huid Hr']].
      apply packet_eligible_In in Hr' as (Hc & _ & _ & Hi).
      assert (r' = r)
        by (apply (NoDup_map_In_inj Packet.article_uid cands); assumption).
      subst r'. congruence. }
  split; [apply packet_eligible_ranked|].
  unfold Packet.fallback_pool. apply stable_sort_ranked.
  - exact packet_key_total.
  - intros x y.
    apply (three_keys_ranked Packet.relevance_score Packet.published_date
                             Packet.title).
  - apply ranked_before_titled_trans.
Qed.

(** The candidates the science script backfills from, in full: those of the
    phase that failed the thresholds, in the order of the selection. *)
Lemma science_pool_remaining (cands : list Science.candidate) (ph : phase) :
  let primary := Science.auto_selected cands ph in
  let pool := filter (fun r => negb (Science.c_candidate_include r))
                     (Science.phase_rows cands ph) in
  Permutation primary
    (filter (fun r => phase_eqb (Science.c_phase r) ph
                      && Science.c_candidate_include r) cands)
  /\ Permutation pool
       (filter (fun r => phase_eqb (Science.c_phase r) ph
                         && negb (Science.c_candidate_include r)) cands)
  /\ (forall r, In r pool <->
                In r cands /\ Science.c_phase r = ph
                /\ Science.c_candidate_include r = false)
  /\ StronglySorted
       (ranked_before Science.c_relevance_score Science.c_published_date)
       primary
  /\ StronglySorted
       (ranked_before Science.c_relevance_score Science.c_published_date)
       pool.
Proof.
  cbv zeta. split; [apply science_selected_permuted|]. split.
  { unfold Science.phase_rows. rewrite <- filter_twice.
    apply filter_permuted, Permutation_sym, stable_sort_perm. }
  split.
  { intros r. rewrite filter_In, science_phase_rows_In, negb_true_iff. tauto. }
  split; [apply science_rows_ranked|].
  apply strongly_sorted_filter. unfold Science.phase_rows.
  apply science_rows_ranked.
Qed.

(** C6, amended. When fewer than [max_per_phase] candidates of a phase are
    eligible and backfill is enabled, the picks are the eligible candidates
    followed by the head of the fallback pool, up to the cap or to the end
    of the pool.  The pool holds the remaining candidates of the phase, all
    of them: in the science script those that failed the thresholds, in the
    packet assembler those whose identifier is not among the primary picks
    (with distinct identifiers, those that failed the thresholds), and in
    its full-text-only mode only those with full text.  Pool and primary
    picks are in the order of the selection: higher score first, then
    earlier date, in the packet assembler then title.  Primary picks get
    [passed_threshold], backfilled ones [backfill_to_phase_cap].  With a cap
    of five, two passers and ten phase candidates that all have full text,
    five are selected: the two passers and the three best of the rest. *)
Theorem backfill_extension (cap : nat) (ph : phase) :
  (forall (full_text_only : bool) (cands : list Packet.candidate),
      List.length (Packet.eligible full_text_only cands ph) < cap ->
      let primary := Packet.eligible full_text_only cands ph in
      let pool := Packet.fallback_pool full_text_only cands ph
                    (map Packet.article_uid primary) in
      let picked := Packet.picks cap full_text_only true cands ph in
      let mark := Packet.mark_row full_text_only
                    (Packet.selected_uids cap full_text_only true cands) in
      picked = (primary ++ firstn (cap - List.length primary) pool)%list
      /\ List.length picked
         = Nat.min cap (List.length primary + List.length pool)
      /\ Sorted (le_rel Packet.key_le) pool
      /\ (forall r, In r pool ->
                    Packet.phase_of r = ph
                    /\ Packet.admissible full_text_only r = true
                    /\ Packet.candidate_include r = false)
      /\ (forall r, In r primary ->
                    Packet.include_in_story (mark r) = true
                    /\ Packet.reason (mark r) = passed_threshold)
      /\ (forall r, In r (firstn (cap - List.length primary) pool) ->
                    Packet.include_in_story (mark r) = true
                    /\ Packet.reason (mark r) = backfill_to_phase_cap)
      /\ Permutation primary
           (filter (fun r =>
                      phase_eqb (Packet.phase_of r) ph
                      && (negb full_text_only
                          || String.eqb (Packet.text_state r) "full")
                      && Packet.candidate_include r) cands)
      /\ Permutation pool
           (filter (fun r =>
                      phase_eqb (Packet.phase_of r) ph
                      && (negb full_text_only
                          || String.eqb (Packet.text_state r) "full")
                      && negb (Text.mem (Packet.article_uid r)
                                        (map Packet.article_uid primary)))
                   cands)
      /\ (forall r, In r pool <->
                    In r cands /\ Packet.phase_of r = ph
                    /\ (full_text_only = true -> Packet.text_state r = "full")
                    /\ ~ In (Packet.article_uid r)
                            (map Packet.article_uid primary))
      /\ (NoDup (map Packet.article_uid cands) ->
          forall r, In r pool <->
                    In r cands /\ Packet.phase_of r = ph
                    /\ (full_text_only = true -> Packet.text_state r = "full")
                    /\ Packet.candidate_include r = false)
      /\ StronglySorted
           (ranked_before_titled Packet.relevance_score Packet.published_date
                                 Packet.title) primary
      /\ StronglySorted
           (ranked_before_titled Packet.relevance_score Packet.published_date
                                 Packet.title) pool)
  /\ (forall cands : list Science.candidate,
         NoDup (map Science.c_article_uid cands) ->
         List.length (Science.auto_selected cands ph) < cap ->
         let primary := Science.auto_selected cands ph in
         let pool := filter (fun r => negb (Science.c_candidate_include r))
                            (Science.phase_rows cands ph) in
         let picked := Science.picks cap true cands ph in
         let mark := Science.mark_row (Science.selected_uids cap true cands) in
         picked = (primary ++ firstn (cap - List.length primary) pool)%list
         /\ List.length picked
            = Nat.min cap (List.length primary + List.length pool)
         /\ (forall r, In r primary ->
                       Science.c_include_in_story (mark r) = true
                       /\ Science.c_selection_reason (mark r) = passed_threshold)
         /\ (forall r, In r (firstn (cap - List.length primary) pool) ->
                       Science.c_include_in_story (mark r) = true
                       /\ Science.c_selection_reason (mark r)
                          = backfill_to_phase_cap)
         /\ Permutation primary
              (filter (fun r => phase_eqb (Science.c_phase r) ph
                                && Science.c_candidate_include r) cands)
         /\ Permutation pool
              (filter (fun r => phase_eqb (Science.c_phase r) ph
                                && negb (Science.c_candidate_include r)) cands)
         /\ (forall r, In r pool <->
                       In r cands /\ Science.c_phase r = ph
                       /\ Science.c_candidate_include r = false)
         /\ StronglySorted
              (ranked_before Science.c_relevance_score
                             Science.c_published_date) primary
         /\ StronglySorted
              (ranked_before Science.c_relevance_score
                             Science.c_published_date) pool)
  /\ (forall full_text_only : bool,
         map (fun r => (Packet.article_uid r, Packet.reason r))
             (fst (Packet.select_records (Scenario.ten_packet "full") 5
                     full_text_only true))
         = [("p1", passed_threshold); ("p2", passed_threshold);
            ("b1", backfill_to_phase_cap); ("b2", backfill_to_phase_cap);
            ("b3", backfill_to_phase_cap)])
  /\ map (fun r => (Science.c_article_uid r, Science.c_selection_reason r))
         (fst (Science.select_from 5 true Scenario.ten_science))
     = [("p1", passed_threshold); ("p2", passed_threshold);
        ("b1", backfill_to_phase_cap); ("b2", backfill_to_phase_cap);
        ("b3", backfill_to_phase_cap)].
Proof.
  split; [|split; [|split]].
  - intros fto cands Hlt. cbv zeta.
    pose proof (packet_backfill_picks cap fto cands ph Hlt) as Hp.
    split; [exact Hp|]. split.
    { rewrite Hp, length_app, length_firstn. lia. }
    split; [apply stable_sort_sorted, packet_key_total|].
    split; [intros r Hr; exact (packet_pool_failed fto cands ph r Hr)|].
    split; [|split; [|exact (packet_pool_remaining fto cands ph)]].
    + intros r Hr.
      assert (Hin : In r (Packet.picks cap fto true cands ph))
        by (rewrite Hp; apply in_or_app; now left).
      apply packet_eligible_In in Hr as (_ & Hph & _ & Hi).
      destruct (packet_picked_reason cap fto true cands ph r Hin Hph) as [H1 H2].
      rewrite Hi in H2. now split.
    + intros r Hr.
      assert (Hin : In r (Packet.picks cap fto true cands ph))
        by (rewrite Hp; apply in_or_app; now right).
      apply In_firstn_weaken in Hr.
      apply packet_pool_failed in Hr as (Hph & _ & Hi).
      destruct (packet_picked_reason cap fto true cands ph r Hin Hph) as [H1 H2].
      rewrite Hi in H2. now split.
  - intros cands Hnd Hlt. cbv zeta.
    pose proof (science_backfill_picks cap cands ph Hnd Hlt) as Hp.
    split; [exact Hp|]. split.
    { rewrite Hp, length_app, length_firstn. lia. }
    split; [|split; [|exact (science_pool_remaining cands ph)]].
    + intros r Hr.
      assert (Hin : In r (Science.picks cap true cands ph))
        by (rewrite Hp; apply in_or_app; now left).
      unfold Science.auto_selected in Hr.
      apply stable_sort_In, filter_In in Hr as [Hr Hi].
      apply science_phase_rows_In in Hr as [_ Hph].
      destruct (science_picked_reason cap true cands ph r Hin Hph) as [H1 H2].
      rewrite Hi in H2. now split.
    + intros r Hr.
      assert (Hin : In r (Science.picks cap true cands ph))
        by (rewrite Hp; apply in_or_app; now right).
      apply In_firstn_weaken in Hr. apply filter_In in Hr as [Hr Hi].
      apply negb_true_iff in Hi.
      apply science_phase_rows_In in Hr as [_ Hph].
      destruct (science_picked_reason cap true cands ph r Hin Hph) as [H1 H2].
      rewrite Hi in H2. now split.
  - intros [|]; reflexivity.
  - reflexivity.
Qed.

(** The ten-candidate scenario with full text everywhere: two eligible
    candidates, fewer than the cap of five, and five picks after backfill. *)
Lemma backfill_extension_witness :
  List.length (Packet.eligible true (Scenario.ten_packet "full") Before) < 5
  /\ List.length (Packet.picks 5 true true (Scenario.ten_packet "full") Before)
     = Nat.min 5
         (List.length (Packet.eligible true (Scenario.ten_packet "full") Before)
          + List.length
              (Packet.fallback_pool true (Scenario.ten_packet "full") Before
                 (map Packet.article_uid
                    (Packet.eligible true (Scenario.ten_packet "full") Before))))
  /\ NoDup (map Science.c_article_uid Scenario.ten_science)
  /\ List.length (Science.auto_selected Scenario.ten_science Before) < 5
  /\ List.length (Science.picks 5 true Scenario.ten_science Before)
     = Nat.min 5
         (List.length (Science.auto_selected Scenario.ten_science Before)
          + List.length
              (filter (fun r => negb (Science.c_candidate_include r))
                      (Science.phase_rows Scenario.ten_science Before))).
Proof.
  assert (Hlt : List.length (Packet.eligible true (Scenario.ten_packet "full") Before)
                < 5) by (vm_compute; lia).
  assert (Hnd : NoDup (map Science.c_article_uid Scenario.ten_science))
    by (apply distinct_NoDup; vm_compute; reflexivity).
  assert (Hlt' : List.length (Science.auto_selected Scenario.ten_science Before) < 5)
    by (vm_compute; lia).
  exact (conj Hlt
           (conj (proj1 (proj2 (proj1 (backfill_extension 5 Before)
                                  true (Scenario.ten_packet "full") Hlt)))
              (conj Hnd
                 (conj Hlt'
                    (proj1 (proj2 (proj1 (proj2 (backfill_extension 5 Before))
                                     Scenario.ten_science Hnd Hlt'))))))).
Defined.

(** ** C10: the lead group read back from the rationale *)

Lemma string_app_assoc (a b c : string) : (a ++ b) ++ c = a ++ b ++ c.
Proof. induction a as [|x a IH]; simpl; [reflexivity|now rewrite IH]. Qed.

Lemma free_of_app (c : ascii) (a b : string) :
  Text.free_of c (a ++ b) = Text.free_of c a && Text.free_of c b.
Proof.
  induction a as [|x a IH]; simpl; [reflexivity|].
  now rewrite IH, andb_assoc.
Qed.

Lemma uint_free_of_underscore (u : Decimal.uint) :
  Text.free_of "_" (NilEmpty.string_of_uint u) = true.
Proof. induction u; simpl; try assumption; reflexivity. Qed.

Lemma decimal_free_of_underscore (u : Decimal.uint) :
  Text.free_of "_" (NilZero.string_of_uint u) = true.
Proof.
  unfold NilZero.string_of_uint.
  destruct u; try reflexivity; apply (uint_free_of_underscore (_ u)).
Qed.

Lemma zeros_free_of_underscore (k : nat) :
  Text.free_of "_" (Text.join EmptyString (repeat "0" k)) = true.
Proof.
  induction k as [|k IH]; [reflexivity|].
  cbn [repeat Text.join]. destruct (repeat "0" k) eqn:E; [reflexivity|].
  rewrite free_of_app. simpl. exact IH.
Qed.

Lemma format_fixed_free_of_underscore (digits : nat) (q : Q) :
  Text.free_of "_" (Render.format_fixed digits q) = true.
Proof.
  unfold Render.format_fixed, Render.padded, Render.decimal_Z.
  rewrite !free_of_app, !decimal_free_of_underscore, zeros_free_of_underscore.
  now destruct (Qnum q <? 0)%Z.
Qed.

Lemma after_prefix_spec (p s r : string) :
  Packet.after_prefix p s = Some r -> s = p ++ r.
Proof.
  revert s. induction p as [|a p IH]; intros s; simpl.
  - intros H. now injection H as ->.
  - destruct s as [|b s]; [discriminate|].
    destruct (Ascii.eqb a b) eqn:E; [|discriminate].
    apply Ascii.eqb_eq in E. subst. intros H. now rewrite (IH _ H).
Qed.

(** No match of the pattern starts inside a text without underscore that
    is followed by the [lead_group=] field: the fifth character of a match
    is an underscore. *)
Lemma match_here_blocked (c : ascii) (pre tail : string) :
  Text.free_of "_" (String c pre) = true ->
  Packet.match_here (String c pre ++ "lead_group=" ++ tail) = None.
Proof.
  intros Hfree. unfold Packet.match_here.
  destruct (Packet.after_prefix _ _) as [r|] eqn:E; [|reflexivity].
  exfalso. apply after_prefix_spec in E. simpl in E. injection E as _ E.
  destruct pre as [|c1 pre]; simpl in E; [discriminate|]. injection E as _ E.
  destruct pre as [|c2 pre]; simpl in E; [discriminate|]. injection E as _ E.
  destruct pre as [|c3 pre]; simpl in E; [discriminate|]. injection E as _ E.
  destruct pre as [|c4 pre]; simpl in E; [discriminate|]. injection E as E _.
  subst c4. cbn [Text.free_of] in Hfree. rewrite !andb_true_iff in Hfree.
  destruct Hfree as (_ & _ & _ & _ & H & _). vm_compute in H. discriminate H.
Qed.

Lemma search_unfold (s : string) :
  Packet.search_lead_group s
  = match Packet.match_here s with
    | Some g => Some g
    | None =>
        match s with
        | EmptyString => None
        | String _ r => Packet.search_lead_group r
        end
    end.
Proof. destruct s; reflexivity. Qed.

Lemma search_skip (pre tail : string) :
  Text.free_of "_" pre = true ->
  Packet.search_lead_group (pre ++ "lead_group=" ++ tail)
  = Packet.search_lead_group ("lead_group=" ++ tail).
Proof.
  induction pre as [|c pre IH]; intros Hfree; [reflexivity|].
  rewrite search_unfold, (match_here_blocked c pre tail Hfree).
  simpl in Hfree. apply andb_prop in Hfree as [_ Hfree].
  cbn [append]. now apply IH.
Qed.

(** At the field itself the match captures a lead group name as a whole. *)
Lemma search_found (name rest : string) :
  In name Packet.LEAD_GROUPS ->
  Packet.search_lead_group ("lead_group=" ++ name ++ String ";" rest) = Some name.
Proof.
  intros Hin. unfold Packet.LEAD_GROUPS in Hin. simpl in Hin.
  destruct Hin as [<-|[<-|[<-|[<-|[<-|[<-|[<-|[]]]]]]]]; reflexivity.
Qed.

Lemma lead_group_kept (name : string) :
  In name Packet.LEAD_GROUPS ->
  Text.strip name = name /\ Text.mem name Packet.LEAD_GROUPS = true.
Proof.
  intros Hin. unfold Packet.LEAD_GROUPS in Hin. simpl in Hin.
  destruct Hin as [<-|[<-|[<-|[<-|[<-|[<-|[<-|[]]]]]]]]; split; reflexivity.
Qed.

(** The rationale, cut in front of its [lead_group=] field. *)
Lemma rationale_shape (selected_text excluded_text : string) (ph : phase)
      (score : Q) (anchor_hits : nat) (group_hits : list (string * nat))
      (selected : bool) :
  exists pre rest,
    render_rationale selected_text excluded_text ph score anchor_hits
                     group_hits selected
    = pre ++ "lead_group=" ++ lead_of group_hits ++ String ";" rest
    /\ (Text.free_of "_" selected_text = true ->
        Text.free_of "_" excluded_text = true ->
        Text.free_of "_" pre = true).
Proof.
  exists ((if selected then selected_text else excluded_text)
          ++ " Score=" ++ Render.format_fixed 1 score
          ++ "; phase=" ++ phase_name ph
          ++ "; anchors=" ++ Render.decimal anchor_hits ++ "; ").
  eexists. split.
  - unfold render_rationale. rewrite !string_app_assoc. cbn [append].
    reflexivity.
  - intros Hs He. rewrite !free_of_app, format_fixed_free_of_underscore.
    unfold Render.decimal. rewrite decimal_free_of_underscore.
    destruct selected, ph; simpl; rewrite ?Hs, ?He; reflexivity.
Qed.

Lemma hits_desc_total (x y : string * nat) :
  hits_desc x y = true \/ hits_desc y x = true.
Proof.
  unfold hits_desc. destruct (Nat.leb (snd y) (snd x)) eqn:E; [now left|right].
  apply Nat.leb_gt in E. apply Nat.leb_le. lia.
Qed.

Lemma hits_desc_trans (x y z : string * nat) :
  hits_desc x y = true -> hits_desc y z = true -> hits_desc x z = true.
Proof. unfold hits_desc. rewrite !Nat.leb_le. lia. Qed.

(** The lead group is a group of the dictionary with the largest count. *)
Lemma lead_of_maximal (group_hits : list (string * nat)) :
  group_hits <> [] ->
  exists v, In (lead_of group_hits, v) group_hits
            /\ forall name' v', In (name', v') group_hits -> v' <= v.
Proof.
  intros Hne. unfold lead_of, strongest_first.
  destruct (stable_sort hits_desc group_hits) as [|[name v] rest] eqn:E.
  - apply stable_sort_nil_inv in E. contradiction.
  - exists v. split.
    + exact (stable_sort_head_In hits_desc _ _ _ E).
    + intros name' v' Hin.
      pose proof (stable_sort_head hits_desc hits_desc_total hits_desc_trans
                    _ _ _ E (name', v') Hin) as H.
      unfold hits_desc in H. cbn [snd] in H. now apply Nat.leb_le.
Qed.

(** The head of the descending stable sort is the first largest entry, the
    one [max(..., key=...)] returns. *)
Lemma sorted_head_first_max (x : string * nat) (t : list (string * nat)) :
  hd x (stable_sort hits_desc (x :: t)) = first_max x t.
Proof.
  revert x. induction t as [|y t IH]; intros x; [reflexivity|].
  cbn [first_max].
  assert (Hx := IH x). assert (Hy := IH y).
  cbn [stable_sort] in *.
  destruct (stable_sort hits_desc t) as [|m rest] eqn:Et.
  - apply stable_sort_nil_inv in Et. subst t.
    cbn [insert_sorted hd first_max] in *. unfold hits_desc.
    destruct (Nat.leb (snd y) (snd x)) eqn:E1, (Nat.ltb (snd x) (snd y)) eqn:E2;
      try reflexivity.
    + apply Nat.leb_le in E1. apply Nat.ltb_lt in E2. lia.
    + apply Nat.leb_gt in E1. apply Nat.ltb_ge in E2. lia.
  - cbn [insert_sorted] in *. unfold hits_desc in *.
    destruct (Nat.ltb (snd x) (snd y)) eqn:Exy.
    + apply Nat.ltb_lt in Exy. rewrite <- Hy.
      destruct (Nat.leb (snd m) (snd y)) eqn:Emy; cbn [insert_sorted hd].
      * destruct (Nat.leb (snd y) (snd x)) eqn:E; [|reflexivity].
        apply Nat.leb_le in E. lia.
      * apply Nat.leb_gt in Emy.
        destruct (Nat.leb (snd m) (snd x)) eqn:E; [|reflexivity].
        apply Nat.leb_le in E. lia.
    + apply Nat.ltb_ge in Exy. rewrite <- Hx.
      destruct (Nat.leb (snd m) (snd y)) eqn:Emy; cbn [insert_sorted hd].
      * apply Nat.leb_le in Emy.
        apply Nat.leb_le in Exy as Eyx. rewrite Eyx. cbn [hd].
        assert (Emx : Nat.leb (snd m) (snd x) = true) by (apply Nat.leb_le; lia).
        now rewrite Emx.
      * destruct (Nat.leb (snd m) (snd x)); reflexivity.
Qed.

Lemma lead_of_strongest (group_hits : list (string * nat)) :
  group_hits <> [] -> lead_of group_hits = strongest_group group_hits.
Proof.
  destruct group_hits as [|x t]; [contradiction|]. intros _.
  unfold lead_of, strongest_group, strongest_first.
  rewrite <- sorted_head_first_max.
  destruct (stable_sort hits_desc (x :: t)) eqn:E; [|reflexivity].
  apply stable_sort_nil_inv in E. discriminate.
Qed.

(** C10. For every phase, score, anchor count, selection flag and non-empty
    group-hits dictionary whose group names are lead groups of the packet
    assembler (the six groups of the republic catalogue are), parsing the
    rationale rendered by the critical-evidence script gives back the lead
    group: [parse_lead_group (build_rationale ...)] is the first entry of the
    descending stable sort, a group with the largest hit count, the first
    such group of the dictionary. *)
Theorem lead_group_roundtrip (ph : phase) (score : Q) (anchor_hits : nat)
        (group_hits : list (string * nat)) (selected : bool) :
  group_hits <> [] ->
  (forall name, In name (map fst group_hits) -> In name Packet.LEAD_GROUPS) ->
  Packet.parse_lead_group
    (Republic.build_rationale ph score anchor_hits group_hits selected)
  = lead_of group_hits
  /\ (exists v, In (lead_of group_hits, v) group_hits
                /\ forall name' v', In (name', v') group_hits -> v' <= v)
  /\ lead_of group_hits = strongest_group group_hits.
Proof.
  intros Hne Hnames.
  destruct (lead_of_maximal group_hits Hne) as [v [Hin Hmax]].
  assert (Hlead : In (lead_of group_hits) Packet.LEAD_GROUPS).
  { apply Hnames. apply in_map_iff. now exists (lead_of group_hits, v). }
  split; [|split; [now exists v|now apply lead_of_strongest]].
  unfold Republic.build_rationale, Packet.parse_lead_group.
  destruct (rationale_shape
              "Selected for narrative because relevance is high and concept coverage is multi-dimensional."
              "Excluded from core narrative because relevance is insufficient under strict selection criteria."
              ph score anchor_hits group_hits selected)
    as (pre & rest & Hshape & Hfree).
  rewrite Hshape, (search_skip pre _ (Hfree eq_refl eq_refl)).
  rewrite (search_found _ rest Hlead).
  destruct (lead_group_kept _ Hlead) as [Hstrip Hmem].
  now rewrite Hstrip, Hmem.
Qed.

(** The rationale of article A names [decay_diagnostics], and the packet
    assembler reads it back. *)
Lemma lead_group_roundtrip_witness :
  [("institutional_grammar", 0); ("decay_diagnostics", 7);
   ("democratic_urgency", 0)] <> []
  /\ (forall name,
         In name (map fst [("institutional_grammar", 0); ("decay_diagnostics", 7);
                           ("democratic_urgency", 0)]) ->
         In name Packet.LEAD_GROUPS)
  /\ Packet.parse_lead_group
       (Republic.build_rationale Before (86 # 10) 2
          [("institutional_grammar", 0); ("decay_diagnostics", 7);
           ("democratic_urgency", 0)] false)
     = lead_of [("institutional_grammar", 0); ("decay_diagnostics", 7);
                ("democratic_urgency", 0)].
Proof.
  assert (Hne : [("institutional_grammar", 0); ("decay_diagnostics", 7);
                 ("democratic_urgency", 0)] <> []) by discriminate.
  assert (Hnames : forall name,
             In name (map fst [("institutional_grammar", 0);
                               ("decay_diagnostics", 7);
                               ("democratic_urgency", 0)]) ->
             In name Packet.LEAD_GROUPS).
  { intros name Hin. simpl in Hin. unfold Packet.LEAD_GROUPS. simpl.
    destruct Hin as [<-|[<-|[<-|[]]]]; tauto. }
  exact (conj Hne (conj Hnames
           (proj1 (lead_group_roundtrip Before (86 # 10) 2 _ false Hne Hnames)))).
Defined.

(** * Further properties of the scripts *)

(** ** Normalized text *)

Lemma lower_char_idem (c : ascii) :
  Text.lower_char (Text.lower_char c) = Text.lower_char c.
Proof. destruct c as [[|] [|] [|] [|] [|] [|] [|] [|]]; reflexivity. Qed.

Lemma lower_char_space (c : ascii) :
  Text.is_space (Text.lower_char c) = Text.is_space c.
Proof. destruct c as [[|] [|] [|] [|] [|] [|] [|] [|]]; reflexivity. Qed.

Lemma lower_idem (s : string) : Text.lower (Text.lower s) = Text.lower s.
Proof.
  induction s as [|c r IH]; simpl; [reflexivity|].
  now rewrite lower_char_idem, IH.
Qed.

Lemma lower_single_spaced (s : string) (b : bool) :
  Text.single_spaced b s = true -> Text.single_spaced b (Text.lower s) = true.
Proof.
  revert b. induction s as [|c r IH]; intros b; simpl; [reflexivity|].
  rewrite lower_char_space. destruct (Text.is_space c) eqn:Ec.
  - rewrite !andb_true_iff. intros [[H1 H2] H3].
    apply Ascii.eqb_eq in H1. subst c. simpl. rewrite H2.
    repeat split. now apply IH.
  - apply IH.
Qed.

Lemma lstrip_lower (s : string) :
  Text.lstrip (Text.lower s) = Text.lower (Text.lstrip s).
Proof.
  induction s as [|c r IH]; simpl; [reflexivity|].
  rewrite lower_char_space. now destruct (Text.is_space c).
Qed.

Lemma rstrip_lower (s : string) :
  Text.rstrip (Text.lower s) = Text.lower (Text.rstrip s).
Proof.
  induction s as [|c r IH]; [reflexivity|].
  cbn [Text.lower]. rewrite !rstrip_unfold, IH, lower_char_space.
  destruct (Text.rstrip r); simpl; [now destruct (Text.is_space c)|reflexivity].
Qed.

Lemma strip_lower (s : string) :
  Text.strip (Text.lower s) = Text.lower (Text.strip s).
Proof. unfold Text.strip. now rewrite lstrip_lower, rstrip_lower. Qed.

(** X1. [normalize] is idempotent, and what it returns has no upper-case
    letter left, no white space other than single spaces, and no space at
    either end. *)
Theorem normalize_idempotent (text : string) :
  Text.normalize (Text.normalize text) = Text.normalize text
  /\ Text.lower (Text.normalize text) = Text.normalize text
  /\ Text.single_spaced false (Text.normalize text) = true
  /\ Text.strip (Text.normalize text) = Text.normalize text.
Proof.
  assert (Hsp : Text.single_spaced false (Text.normalize text) = true).
  { unfold Text.normalize. apply lower_single_spaced, clean_single_spaced. }
  assert (Hst : Text.strip (Text.normalize text) = Text.normalize text).
  { unfold Text.normalize. now rewrite strip_lower, strip_clean. }
  assert (Hlo : Text.lower (Text.normalize text) = Text.normalize text).
  { unfold Text.normalize. apply lower_idem. }
  repeat split; try assumption.
  unfold Text.normalize at 1. unfold Text.clean, Text.collapse_ws.
  rewrite (single_spaced_collapse _ false Hsp), Hst. exact Hlo.
Qed.

(** ** Bounds on the scores *)

Lemma probes_found_le (probes : list string) (text : string) :
  Text.probes_found probes text <= List.length probes.
Proof. rewrite <- count_occurrences_found. apply count_occurrences_le. Qed.

Lemma Qnat_nonneg (n : nat) : (0 <= Qnat n)%Q.
Proof.
  unfold Qnat, Qle. simpl. rewrite Z.mul_1_r. apply Nat2Z.is_nonneg.
Qed.

Lemma Qsum_nonneg (a b : Q) : (0 <= a)%Q -> (0 <= b)%Q -> (0 <= a + b)%Q.
Proof.
  intros Ha Hb. apply (Qle_trans _ (0 + 0)%Q); [discriminate|].
  now apply Qplus_le_compat.
Qed.

Lemma filter_length_le {A : Type} (p : A -> bool) (l : list A) :
  List.length (filter p l) <= List.length l.
Proof.
  induction l as [|x t IH]; simpl; [lia|]. destruct (p x); simpl; lia.
Qed.

Lemma score_article_bounds (cfg : shift_config) (ph : phase)
      (title summary body_text : string) (tag_slugs : list string) :
  (0 <= anchor_weight cfg)%Q -> (0 <= tag_weight cfg)%Q ->
  NoDup (map fst (phase_keywords cfg ph)) ->
  let r := score_article cfg ph title summary tag_slugs body_text in
  (0 <= score_of r)%Q
  /\ anchor_hits_of r <= List.length (anchors cfg)
  /\ active_groups_of r <= List.length (phase_keywords cfg ph)
  /\ map fst (group_hits_of r) = map fst (phase_keywords cfg ph)
  /\ forall name probes,
       In (name, probes) (phase_keywords cfg ph) ->
       lookup (group_hits_of r) name <= 6 * List.length probes + body_cap cfg.
Proof.
  intros Ha Ht Hnd. cbv zeta.
  unfold score_article, score_of, group_hits_of, anchor_hits_of, active_groups_of.
  cbn [fst snd]. split; [|split; [|split; [|split]]].
  - apply Qsum_nonneg; [apply Qsum_nonneg|].
    + apply Qnat_nonneg.
    + apply Qmult_le_0_compat; [apply Qnat_nonneg|exact Ht].
    + apply Qmult_le_0_compat; [apply Qnat_nonneg|exact Ha].
  - unfold article_anchor_hits. apply count_occurrences_le.
  - eapply Nat.le_trans; [apply filter_length_le|].
    unfold weighted_group_hits. now rewrite !length_map.
  - unfold weighted_group_hits. rewrite map_map. reflexivity.
  - intros name probes Hin.
    rewrite (weighted_group_hits_at cfg ph title summary body_text name probes
               Hnd Hin).
    pose proof (probes_found_le probes (Text.normalize title)).
    pose proof (probes_found_le probes (Text.normalize summary)).
    lia.
Qed.

(** X2. In both scoring scripts the score of an article is never negative,
    the anchor count is at most the number of anchor terms (11 and 15), at
    most three groups are active, the group-hits dictionary has exactly the
    groups of the phase, and a group with [n] probes scores at most
    [6 * n + body_cap]. *)
Theorem score_bounds (ph : phase) (title summary body_text : string)
        (tag_slugs : list string) :
  (let r := Republic.score_article ph title summary tag_slugs body_text in
   (0 <= score_of r)%Q
   /\ anchor_hits_of r <= 11
   /\ active_groups_of r <= 3
   /\ map fst (group_hits_of r) = map fst (Republic.PHASE_KEYWORDS ph)
   /\ forall name probes,
        In (name, probes) (Republic.PHASE_KEYWORDS ph) ->
        lookup (group_hits_of r) name <= 6 * List.length probes + 6)
  /\ (let r := Science.score_article ph title summary body_text tag_slugs in
      (0 <= score_of r)%Q
      /\ anchor_hits_of r <= 15
      /\ active_groups_of r <= 3
      /\ map fst (group_hits_of r) = map fst (Science.PHASE_KEYWORDS ph)
      /\ forall name probes,
           In (name, probes) (Science.PHASE_KEYWORDS ph) ->
           lookup (group_hits_of r) name <= 6 * List.length probes + 7).
Proof.
  split.
  - destruct (score_article_bounds Republic.config ph title summary body_text
                tag_slugs) as (H1 & H2 & H3 & H4 & H5);
      [discriminate|discriminate|apply republic_groups_distinct|].
    repeat split; try assumption.
    eapply Nat.le_trans; [exact H3|]. now destruct ph.
  - destruct (score_article_bounds Science.config ph title summary body_text
                tag_slugs) as (H1 & H2 & H3 & H4 & H5);
      [discriminate|discriminate|apply science_groups_distinct|].
    repeat split; try assumption.
    eapply Nat.le_trans; [exact H3|]. now destruct ph.
Qed.

(** ** Articles without text *)

Lemma lstrip_collapse_blank (s : string) (in_ws : bool) :
  Text.blank s = true ->
  Text.lstrip (Text.collapse_from in_ws s) = EmptyString.
Proof.
  revert in_ws. induction s as [|c r IH]; intros in_ws Hb; [reflexivity|].
  simpl in Hb. apply andb_prop in Hb. destruct Hb as [Hc Hr].
  simpl. rewrite Hc. destruct in_ws; simpl; now apply IH.
Qed.

Lemma normalize_blank (s : string) :
  Text.blank s = true -> Text.normalize s = EmptyString.
Proof.
  intros Hb. unfold Text.normalize, Text.clean, Text.strip, Text.collapse_ws.
  now rewrite (lstrip_collapse_blank s false Hb).
Qed.

Lemma blank_score (cfg : shift_config) (ph : phase) (tag_slugs : list string)
      (title summary body_text : string) :
  Text.normalize title = EmptyString ->
  Text.normalize summary = EmptyString ->
  Text.normalize body_text = EmptyString ->
  score_article cfg ph title summary tag_slugs body_text
  = score_article cfg ph EmptyString EmptyString tag_slugs EmptyString.
Proof.
  intros Ht Hs Hb.
  unfold score_article, weighted_group_hits, article_anchor_hits.
  rewrite Ht, Hs, Hb. reflexivity.
Qed.

Lemma tag_only_score (n : nat) (w a : Q) :
  (Qnat 0 + Qnat n * w + Qnat 0 * a == Qnat n * w)%Q.
Proof.
  assert (H0 : (Qnat 0 == 0)%Q) by reflexivity.
  rewrite H0. rewrite Qplus_0_l, Qmult_0_l, Qplus_0_r. reflexivity.
Qed.

(** X3. An article whose title, summary and body are empty or white space
    only gets no keyword or anchor hit in either script: every group of the
    phase is recorded with zero hits, no group is active, and its score is
    the tag bonus alone (1.3, respectively 1.25, for every tag slug of the
    article that is in the signal set of the phase). *)
Theorem blank_article_score (ph : phase) (title summary body_text : string)
        (tag_slugs : list string)
        (Htitle : Text.blank title = true)
        (Hsummary : Text.blank summary = true)
        (Hbody : Text.blank body_text = true) :
  (let r := Republic.score_article ph title summary tag_slugs body_text in
   group_hits_of r = map (fun g => (fst g, 0)) (Republic.PHASE_KEYWORDS ph)
   /\ anchor_hits_of r = 0
   /\ active_groups_of r = 0
   /\ (score_of r
       == Qnat (signal_count Republic.config ph tag_slugs) * (13 # 10))%Q)
  /\ (let r := Science.score_article ph title summary body_text tag_slugs in
      group_hits_of r = map (fun g => (fst g, 0)) (Science.PHASE_KEYWORDS ph)
      /\ anchor_hits_of r = 0
      /\ active_groups_of r = 0
      /\ (score_of r
          == Qnat (signal_count Science.config ph tag_slugs) * (125 # 100))%Q).
Proof.
  apply normalize_blank in Htitle, Hsummary, Hbody.
  split; cbv zeta.
  - unfold Republic.score_article.
    rewrite (blank_score Republic.config ph tag_slugs title summary body_text
               Htitle Hsummary Hbody).
    unfold score_article, score_of, group_hits_of, anchor_hits_of,
      active_groups_of. cbn [fst snd].
    assert (Hg : weighted_group_hits Republic.config ph EmptyString
                   EmptyString EmptyString
                 = map (fun g => (fst g, 0)) (Republic.PHASE_KEYWORDS ph))
      by (destruct ph; vm_compute; reflexivity).
    assert (Ha : article_anchor_hits Republic.config EmptyString EmptyString
                   EmptyString = 0) by (vm_compute; reflexivity).
    rewrite Hg, Ha.
    assert (Hs : sum_nat (map snd (map (fun g : string * list string =>
                                          (fst g, 0))
                                       (Republic.PHASE_KEYWORDS ph))) = 0)
      by (destruct ph; reflexivity).
    rewrite Hs.
    repeat split; [destruct ph; reflexivity|apply tag_only_score].
  - unfold Science.score_article.
    rewrite (blank_score Science.config ph tag_slugs title summary body_text
               Htitle Hsummary Hbody).
    unfold score_article, score_of, group_hits_of, anchor_hits_of,
      active_groups_of. cbn [fst snd].
    assert (Hg : weighted_group_hits Science.config ph EmptyString
                   EmptyString EmptyString
                 = map (fun g => (fst g, 0)) (Science.PHASE_KEYWORDS ph))
      by (destruct ph; vm_compute; reflexivity).
    assert (Ha : article_anchor_hits Science.config EmptyString EmptyString
                   EmptyString = 0) by (vm_compute; reflexivity).
    rewrite Hg, Ha.
    assert (Hs : sum_nat (map snd (map (fun g : string * list string =>
                                          (fst g, 0))
                                       (Science.PHASE_KEYWORDS ph))) = 0)
      by (destruct ph; reflexivity).
    rewrite Hs.
    repeat split; [destruct ph; reflexivity|apply tag_only_score].
Qed.

Lemma blank_article_score_witness :
  let r := Republic.score_article Before "  " EmptyString ["constitution"]
             (String Quote.LF EmptyString) in
  anchor_hits_of r = 0 /\ active_groups_of r = 0.
Proof.
  exact (conj
    (proj1 (proj2 (proj1 (blank_article_score Before "  " EmptyString
                            (String Quote.LF EmptyString) ["constitution"]
                            eq_refl eq_refl eq_refl))))
    (proj1 (proj2 (proj2 (proj1 (blank_article_score Before "  " EmptyString
                                   (String Quote.LF EmptyString) ["constitution"]
                                   eq_refl eq_refl eq_refl)))))).
Defined.

(** ** Quotes *)

Lemma string_length_app (s t : string) :
  String.length (s ++ t) = String.length s + String.length t.
Proof.
  induction s as [|c r IH]; simpl; [reflexivity|]. now rewrite IH.
Qed.

Lemma lstrip_length (s : string) :
  String.length (Text.lstrip s) <= String.length s.
Proof.
  induction s as [|c r IH]; simpl; [lia|].
  destruct (Text.is_space c); simpl; lia.
Qed.

Lemma rstrip_length (s : string) :
  String.length (Text.rstrip s) <= String.length s.
Proof.
  induction s as [|c r IH]; simpl; [lia|].
  destruct (Text.rstrip r) as [|d r'].
  - destruct (Text.is_space c); simpl; lia.
  - simpl in *. lia.
Qed.

Lemma strip_length (s : string) :
  String.length (Text.strip s) <= String.length s.
Proof.
  unfold Text.strip.
  eapply Nat.le_trans; [apply rstrip_length|apply lstrip_length].
Qed.

Lemma before_last_space_length (s : string) :
  String.length (Quote.before_last_space s) <= String.length s.
Proof.
  induction s as [|c r IH]; simpl; [lia|].
  destruct (Ascii.eqb c " " && negb (Text.contains " " r)); simpl; lia.
Qed.

Lemma take_chars_length (n : nat) (s : string) :
  String.length (Quote.take_chars n s) <= n.
Proof.
  unfold Quote.take_chars. revert s.
  induction n as [|n IH]; intros [|c r]; simpl; try lia.
  specialize (IH r). lia.
Qed.

Lemma join_snoc_length (selected : list string) (sentence : string) :
  String.length (Text.join " " (selected ++ [sentence])%list)
  = String.length (Text.join " " selected) + String.length sentence
    + match selected with [] => 0 | _ => 1 end.
Proof.
  induction selected as [|p rest IH]; [simpl; lia|].
  destruct rest as [|q rest'].
  - simpl. rewrite string_length_app. simpl. lia.
  - change (Text.join " " ((p :: q :: rest') ++ [sentence])%list)
      with (p ++ " " ++ Text.join " " ((q :: rest') ++ [sentence])%list).
    change (Text.join " " (p :: q :: rest'))
      with (p ++ " " ++ Text.join " " (q :: rest')).
    rewrite !string_length_app, IH, ?string_length_app. simpl. lia.
Qed.

(** The loop of [shorten_quote] keeps the joined length of the selected
    sentences in [total], and never lets it pass the budget. *)
Lemma take_sentences_bound (max_chars : nat) (sentences : list string) :
  forall (total : nat) (selected : list string),
    total = String.length (Text.join " " selected) ->
    total <= max_chars ->
    String.length
      (Text.join " " (Quote.take_sentences max_chars total selected sentences))
    <= max_chars.
Proof.
  induction sentences as [|sentence rest IH]; intros total selected Ht Hle.
  - simpl. now rewrite <- Ht.
  - destruct sentence as [|c r].
    + simpl. now apply IH.
    + set (sentence := String c r).
      change (Quote.take_sentences max_chars total selected (sentence :: rest))
        with (if Nat.ltb max_chars
                   (total + String.length sentence
                    + match selected with [] => 0 | _ => 1 end)
              then selected
              else Quote.take_sentences max_chars
                     (total + String.length sentence
                      + match selected with [] => 0 | _ => 1 end)
                     (selected ++ [sentence])%list rest).
      destruct (Nat.ltb max_chars
                  (total + String.length sentence
                   + match selected with [] => 0 | _ => 1 end)) eqn:E.
      * now rewrite <- Ht.
      * apply Nat.ltb_ge in E. apply IH; [|exact E].
        rewrite join_snoc_length. now rewrite <- Ht.
Qed.

Lemma shorten_quote_bound (paragraph : string) (max_chars : nat) :
  String.length (Quote.shorten_quote paragraph max_chars) <= max_chars.
Proof.
  unfold Quote.shorten_quote.
  destruct (Nat.leb (String.length (Text.clean paragraph)) max_chars) eqn:E.
  - now apply Nat.leb_le in E.
  - pose proof (take_sentences_bound max_chars
                  (Quote.split_sentences false false (Text.clean paragraph))
                  0 [] eq_refl (Nat.le_0_l _)) as Hb.
    destruct (Quote.take_sentences max_chars 0 []
                (Quote.split_sentences false false (Text.clean paragraph)))
      as [|s sel].
    + eapply Nat.le_trans; [apply strip_length|].
      eapply Nat.le_trans; [apply before_last_space_length|].
      apply take_chars_length.
    + eapply Nat.le_trans; [apply strip_length|exact Hb].
Qed.

(** X4. [shorten_quote] never returns more than [max_chars] characters,
    whichever of its three ways out it takes (the whole cleaned paragraph,
    whole sentences, or a cut at the last space); and it changes a
    paragraph only when the cleaned paragraph is longer than that. *)
Theorem shorten_quote_length (paragraph : string) (max_chars : nat) :
  String.length (Quote.shorten_quote paragraph max_chars) <= max_chars
  /\ (Quote.shorten_quote paragraph max_chars <> Text.clean paragraph ->
      max_chars < String.length (Text.clean paragraph)).
Proof.
  split; [apply shorten_quote_bound|].
  unfold Quote.shorten_quote.
  destruct (Nat.leb (String.length (Text.clean paragraph)) max_chars) eqn:E.
  - intros H. now contradiction H.
  - intros _. now apply Nat.leb_gt in E.
Qed.

Lemma confidence_above (s : Q) :
  (0 < s)%Q -> ((45 # 100) < (45 # 100) + s / 20)%Q.
Proof.
  intros Hs.
  assert (Hd : (0 < s / 20)%Q).
  { apply Qlt_shift_div_l; [reflexivity|]. now rewrite Qmult_0_l. }
  rewrite <- (Qplus_0_r (45 # 100)) at 1.
  now apply Qplus_lt_r.
Qed.

(** X5. Whatever the article, the quote selector of both scripts returns a
    confidence between 0.25 and 1, as the [CHECK] of the evidence table
    requires.  A body-paragraph quote has at most 520 characters and a
    confidence above 0.45; a summary quote is the non-empty first sentence
    of the summary at confidence 0.42; a title quote is the stripped title
    at confidence 0.25. *)
Theorem quote_within_schema (cfg : shift_config) (ph : phase)
        (body_text summary title : string) :
  let result := choose_quote cfg ph body_text summary title in
  let quote := fst (fst result) in
  let source := snd (fst result) in
  let confidence := snd result in
  ((25 # 100) <= confidence)%Q /\ (confidence <= 1)%Q
  /\ (source = body_paragraph ->
      String.length quote <= 520 /\ ((45 # 100) < confidence)%Q)
  /\ (source = summary_sentence ->
      quote = Quote.first_sentence summary /\ quote <> EmptyString
      /\ confidence = (42 # 100)%Q)
  /\ (source = title_source ->
      quote = Text.strip title /\ confidence = (25 # 100)%Q
      /\ Quote.first_sentence summary = EmptyString).
Proof.
  cbv zeta. unfold choose_quote.
  assert (Hfallback :
    let result :=
      match Quote.first_sentence summary with
      | EmptyString => (Text.strip title, title_source, (25 # 100)%Q)
      | String _ _ => (Quote.first_sentence summary, summary_sentence,
                       (42 # 100)%Q)
      end in
    ((25 # 100) <= snd result)%Q /\ (snd result <= 1)%Q
    /\ (snd (fst result) = body_paragraph ->
        String.length (fst (fst result)) <= 520
        /\ ((45 # 100) < snd result)%Q)
    /\ (snd (fst result) = summary_sentence ->
        fst (fst result) = Quote.first_sentence summary
        /\ fst (fst result) <> EmptyString
        /\ snd result = (42 # 100)%Q)
    /\ (snd (fst result) = title_source ->
        fst (fst result) = Text.strip title /\ snd result = (25 # 100)%Q
        /\ Quote.first_sentence summary = EmptyString)).
  { cbv zeta. destruct (Quote.first_sentence summary) as [|c r] eqn:E;
      cbn [fst snd].
    - repeat split; try discriminate; reflexivity.
    - repeat split; try discriminate; reflexivity. }
  cbv zeta in Hfallback.
  destruct (rank_paragraphs cfg ph (split_paragraphs cfg body_text))
    as [|[best_score best_paragraph] rest]; [exact Hfallback|].
  destruct (Qltb 0 best_score) eqn:E; [|exact Hfallback].
  apply Qltb_lt in E. cbn [fst snd].
  pose proof (confidence_above best_score E) as Habove.
  destruct (py_min_spec 1 ((45 # 100) + best_score / 20)%Q)
    as (Hle1 & _ & [Heq | Heq]).
  - rewrite Heq. repeat split; try discriminate.
    apply shorten_quote_bound.
  - rewrite Heq. repeat split; try discriminate.
    + apply Qlt_le_weak. eapply Qle_lt_trans; [|exact Habove]. discriminate.
    + now rewrite <- Heq.
    + apply shorten_quote_bound.
    + exact Habove.
Qed.

(** ** The run ledger *)

Section LedgerAccounts.

Import Republic.

Variable sha1 : string -> string.
Variable args : arguments.
Variable env : environment.
Variable sel : phase -> list string.

Local Abbreviation step := (process_candidate sha1 args env sel).

Local Abbreviation written_by := (Republic.written_by sha1 args env sel).

Lemma written_by_more (rows rows' : list candidate) (e : evidence_row) :
  (forall row, In row rows -> In row rows') ->
  written_by rows e -> written_by rows' e.
Proof.
  intros Hsub (H1 & H2 & H3 & row & Hin & Hrest).
  repeat split; try assumption. exists row. split; [now apply Hsub|exact Hrest].
Qed.

Lemma step_counts (st : ledger) (row : candidate) :
  inserted (step st row) + skipped (step st row)
  = S (inserted st + skipped st).
Proof.
  unfold process_candidate.
  destruct (evidence_exists _ _ _ _); [cbn [inserted skipped]; lia|].
  destruct (dry_run args); cbn [inserted skipped]; lia.
Qed.

Lemma ledger_counts (rows : list candidate) (st : ledger) :
  inserted (fold_left step rows st) + skipped (fold_left step rows st)
  = inserted st + skipped st + List.length rows.
Proof.
  revert st. induction rows as [|r rows IH]; intros st; simpl; [lia|].
  rewrite IH, step_counts. lia.
Qed.

Lemma ledger_dry (rows : list candidate) (st : ledger) :
  dry_run args = true -> conn (fold_left step rows st) = conn st.
Proof.
  intros Hdry. revert st. induction rows as [|r rows IH]; intros st; simpl;
    [reflexivity|].
  rewrite IH. unfold process_candidate.
  destruct (evidence_exists _ _ _ _); [reflexivity|]. now rewrite Hdry.
Qed.

(** A turn of the loop leaves the committed state and the run table as they
    are, and adds at most one evidence row, at the end of the table. *)
Lemma step_appends (st : ledger) (row : candidate) :
  durable (conn (step st row)) = durable (conn st)
  /\ runs (view (conn (step st row))) = runs (view (conn st))
  /\ exists new,
       evidence (view (conn (step st row)))
       = (evidence (view (conn st)) ++ new)%list
       /\ (dry_run args = false ->
           inserted (step st row) = inserted st + List.length new)
       /\ Forall (written_by [row]) new
       /\ List.length new <= 1
       /\ forall e, In e new ->
            evidence_exists (view (conn st)) (e_article_uid e) (e_version e)
              (e_input_fingerprint e) = false.
Proof.
  unfold process_candidate.
  destruct (evidence_exists (view (conn st)) (c_article_uid row) (version args)
              _) eqn:Ex.
  - cbn [conn inserted]. repeat split. exists []. rewrite app_nil_r.
    repeat split; [simpl; lia|constructor|simpl; lia|intros e []].
  - destruct (dry_run args) eqn:Hdry.
    + cbn [conn inserted]. repeat split. exists []. rewrite app_nil_r.
      repeat split; [discriminate|constructor|simpl; lia|intros e []].
    + cbn [conn inserted on_view durable view insert_evidence runs evidence].
      repeat split. eexists [_]. repeat split.
      * simpl. lia.
      * constructor; [|constructor].
        repeat split. exists row. repeat split. now left.
      * simpl. lia.
      * intros e [<- | []]. cbn [e_article_uid e_version e_input_fingerprint].
        exact Ex.
Qed.

Lemma ledger_appends (rows : list candidate) (st : ledger) :
  durable (conn (fold_left step rows st)) = durable (conn st)
  /\ runs (view (conn (fold_left step rows st))) = runs (view (conn st))
  /\ exists new,
       evidence (view (conn (fold_left step rows st)))
       = (evidence (view (conn st)) ++ new)%list
       /\ (dry_run args = false ->
           inserted (fold_left step rows st) = inserted st + List.length new)
       /\ Forall (written_by rows) new.
Proof.
  revert st. induction rows as [|r rows IH]; intros st.
  - simpl. repeat split. exists []. rewrite app_nil_r.
    repeat split; [simpl; lia|constructor].
  - simpl.
    destruct (IH (step st r)) as (Hd & Hr & new2 & He2 & Hn2 & Hw2).
    destruct (step_appends st r)
      as (Hd1 & Hr1 & new1 & He1 & Hn1 & Hw1 & _ & _).
    split; [congruence|]. split; [congruence|].
    exists (new1 ++ new2)%list. split; [|split].
    + rewrite He2, He1. now rewrite app_assoc.
    + intros Hdry. rewrite (Hn2 Hdry), (Hn1 Hdry), length_app. lia.
    + apply Forall_app. split.
      * eapply Forall_impl; [|exact Hw1].
        intros e. apply written_by_more. intros row [<- | []]. now left.
      * eapply Forall_impl; [|exact Hw2].
        intros e. apply written_by_more. intros row Hin. now right.
Qed.

Lemma exists_false_key (db : database) (uid ver fp : string) :
  evidence_exists db uid ver fp = false ->
  ~ In (uid, ver, fp) (map evidence_key (evidence db)).
Proof.
  unfold evidence_exists. intros Hex Hin.
  apply in_map_iff in Hin as [e [Hk He]].
  unfold evidence_key in Hk. injection Hk as H1 H2 H3.
  assert (Ht : existsb (fun e => String.eqb (e_article_uid e) uid
                                  && String.eqb (e_version e) ver
                                  && String.eqb (e_input_fingerprint e) fp)
                 (evidence db) = true).
  { apply existsb_exists. exists e. split; [exact He|].
    rewrite H1, H2, H3, !String.eqb_refl. reflexivity. }
  congruence.
Qed.

Lemma step_unique (st : ledger) (row : candidate) :
  NoDup (map evidence_key (evidence (view (conn st)))) ->
  NoDup (map evidence_key (evidence (view (conn (step st row))))).
Proof.
  intros Hnd.
  destruct (step_appends st row) as (_ & _ & new & He & _ & _ & Hlen & Hfresh).
  rewrite He.
  destruct new as [|e [|e' new']].
  - now rewrite app_nil_r.
  - rewrite map_app. simpl.
    apply NoDup_app; [exact Hnd|repeat constructor; intros []|].
    intros k Hk [<- | []]. revert Hk. apply exists_false_key.
    apply Hfresh. now left.
  - simpl in Hlen. lia.
Qed.

Lemma ledger_unique (rows : list candidate) (st : ledger) :
  NoDup (map evidence_key (evidence (view (conn st)))) ->
  NoDup (map evidence_key (evidence (view (conn (fold_left step rows st))))).
Proof.
  revert st. induction rows as [|r rows IH]; intros st Hnd; simpl;
    [exact Hnd|].
  apply IH. now apply step_unique.
Qed.

End LedgerAccounts.

Section RunAccounts.

Import Republic.

Variable sha1 : string -> string.
Variable args : arguments.
Variable env : environment.

Lemma run_ledger_counts (candidates : list candidate) (c : connection) :
  inserted (run_ledger sha1 args env candidates None c)
  + skipped (run_ledger sha1 args env candidates None c)
  = List.length candidates.
Proof.
  unfold run_ledger. rewrite ledger_counts. cbn [inserted skipped]. lia.
Qed.

Lemma run_ledger_appends (candidates : list candidate) (steps : option nat)
      (c : connection) :
  let st := run_ledger sha1 args env candidates steps c in
  durable (conn st) = durable c
  /\ runs (view (conn st))
     = runs (view (if dry_run args then c else on_view (open_run args env) c))
  /\ exists new,
       evidence (view (conn st)) = (evidence (view c) ++ new)%list
       /\ (dry_run args = false -> inserted st = List.length new)
       /\ Forall (written_by sha1 args env
                    (selected_ids (max_per_phase args) candidates) candidates)
                 new.
Proof.
  cbv zeta. unfold run_ledger.
  match goal with
  | |- context [fold_left ?f ?rows ?st0] =>
      destruct (ledger_appends sha1 args env
                  (selected_ids (max_per_phase args) candidates) rows st0)
        as (Hd & Hr & new & He & Hn & Hw)
  end.
  cbn [conn inserted] in Hd, Hr, He, Hn.
  split; [|split].
  - rewrite Hd. now destruct (dry_run args).
  - exact Hr.
  - exists new. split; [|split].
    + rewrite He. now destruct (dry_run args).
    + exact Hn.
    + eapply Forall_impl; [|exact Hw].
      intros e. apply written_by_more.
      destruct steps as [k|]; [|auto].
      intros row Hin. now apply (In_firstn_weaken k).
Qed.

Lemma seal_others (inserted_count skipped_count before after : nat)
      (rows : list run_row) :
  (forall r, In r rows -> r_run_uid r <> run_uid env) ->
  runs (seal_run env inserted_count skipped_count before after
          {| runs := rows; evidence := [] |}) = rows.
Proof.
  intros Hfresh. cbn [seal_run runs].
  induction rows as [|r rows IH]; [reflexivity|]. simpl.
  rewrite IH by (intros r' Hin; apply Hfresh; now right).
  destruct (String.eqb (r_run_uid r) (run_uid env)) eqn:E; [|reflexivity].
  apply String.eqb_eq in E. exfalso. apply (Hfresh r); [now left|exact E].
Qed.

End RunAccounts.

Lemma make_candidate_fields (args : Republic.arguments)
      (summary_by_uid : string -> string)
      (tag_slugs_by_uid : string -> list string) (row : Republic.article) :
  let cand :=
    Republic.make_candidate args summary_by_uid tag_slugs_by_uid row in
  let ph := Republic.classify (Republic.year row) in
  let r := Republic.score_article ph (Republic.title row)
             (summary_by_uid (Republic.article_uid row))
             (tag_slugs_by_uid (Republic.article_uid row))
             (Republic.body_text row) in
  let passed := Qle_bool (Republic.min_score args) (score_of r)
                && (Republic.min_anchor_hits args
                    <=? Z.of_nat (anchor_hits_of r))%Z
                && (Republic.min_group_hits args
                    <=? Z.of_nat (active_groups_of r))%Z in
  Republic.c_article_uid cand = Republic.article_uid row
  /\ Republic.c_phase cand = ph
  /\ Republic.c_score cand = score_of r
  /\ Republic.c_include cand = passed
  /\ Republic.c_connection cand
     = Republic.build_connection_text ph (strongest_group (group_hits_of r))
  /\ Republic.c_rationale cand
     = Republic.build_rationale ph (score_of r) (anchor_hits_of r)
         (group_hits_of r) passed.
Proof.
  cbv zeta. unfold Republic.make_candidate.
  destruct (Republic.score_article _ _ _ _ _) as [[[score hits] anchor] active].
  destruct (Republic.choose_quote _ _ _ _) as [[quote source] confidence].
  repeat split.
Qed.

(** ** C9: a run that fails before its commit *)

Section Interrupted.

Import Republic.

Variable sha1 : string -> string.

Lemma process_durable args env sel st row :
  durable (conn (process_candidate sha1 args env sel st row)) = durable (conn st).
Proof.
  unfold process_candidate.
  destruct (evidence_exists _ _ _ _); [reflexivity|].
  destruct (dry_run args); reflexivity.
Qed.

(** The ledger loop writes into the open transaction only. *)
Lemma run_ledger_durable args env candidates steps c :
  durable (conn (run_ledger sha1 args env candidates steps c)) = durable c.
Proof.
  unfold run_ledger.
  set (sel := selected_ids (max_per_phase args) candidates).
  set (todo := match steps with Some k => firstn k candidates | None => candidates end).
  assert (H : forall st,
             durable (conn (fold_left (process_candidate sha1 args env sel) todo st))
             = durable (conn st)).
  { induction todo as [|row rest IH]; intros st; simpl; [reflexivity|].
    now rewrite IH, process_durable. }
  rewrite H. cbn [conn]. now destruct (dry_run args).
Qed.

End Interrupted.

(** On article A the run has written its run row and one evidence row
    into the open transaction when it fails, and none of the two is in the
    database afterwards. *)
Lemma interrupted_run_scenario :
  let candidates :=
    map (Republic.make_candidate Scenario.default_args Scenario.no_summary
                                 Scenario.no_tags)
        [Scenario.article_three_probes] in
  let before :=
    Republic.conn (Republic.run_ledger Scenario.plain_hash Scenario.default_args
                     Scenario.first_env candidates (Some 1)
                     Scenario.empty_connection) in
  let after :=
    Republic.main_interrupted Scenario.plain_hash Scenario.default_args
      Scenario.first_env Scenario.no_summary Scenario.no_tags
      [Scenario.article_three_probes] 1 Scenario.empty_connection in
  List.length (Republic.runs (Republic.view before)) = 1
  /\ List.length (Republic.evidence (Republic.view before)) = 1
  /\ Republic.runs (Republic.durable after) = []
  /\ Republic.evidence (Republic.durable after) = [].
Proof.
  cbv zeta. repeat split; vm_compute; reflexivity.
Qed.

(** C9, as the specification words it, fails on article A: the run is
    opened and the evidence row of A is written, the process ends before the
    seal, and the durable database holds neither the run row nor the evidence
    row. *)
Lemma interrupted_run_counterexample :
  ~ Republic.partial_progress_preserved Scenario.plain_hash
      Scenario.default_args Scenario.first_env Scenario.no_summary
      Scenario.no_tags [Scenario.article_three_probes] 1
      Scenario.empty_connection.
Proof.
  intros [[r [Hin _]] _]. vm_compute in Hin. exact Hin.
Qed.

(** C9, amended. A run that fails before the single [commit()] that follows
    the seal leaves the durable database exactly as it was before the run:
    the run row and the evidence rows written so far are discarded with the
    open transaction.  A writing run that reaches its end, its identifier
    being new to the run table, makes its records durable together: the
    committed run table is the former one followed by the run's row, sealed
    with the finishing time and the counters of the run; the committed
    evidence table is the former one followed by the rows the run inserted;
    and the key of every candidate is in the committed evidence table. *)
Theorem interrupted_run_is_discarded
        (sha1 : string -> string) (args : Republic.arguments)
        (env : Republic.environment)
        (summary_by_uid : string -> string)
        (tag_slugs_by_uid : string -> list string)
        (rows : list Republic.article) (steps : nat) (c : Republic.connection) :
  let candidates :=
    map (Republic.make_candidate args summary_by_uid tag_slugs_by_uid) rows in
  let failed :=
    Republic.main_interrupted sha1 args env summary_by_uid tag_slugs_by_uid
                              rows steps c in
  let finished :=
    Republic.main sha1 args env summary_by_uid tag_slugs_by_uid rows c in
  let done := Republic.conn finished in
  Republic.durable failed = Republic.durable c
  /\ Republic.view failed = Republic.durable c
  /\ Republic.durable done
     = (if Republic.dry_run args then Republic.durable c else Republic.view done)
  /\ (Republic.dry_run args = false ->
      (forall r, In r (Republic.runs (Republic.view c)) ->
                 Republic.r_run_uid r <> Republic.run_uid env) ->
      Republic.runs (Republic.durable done)
      = (Republic.runs (Republic.view c)
         ++ [{| Republic.r_run_uid := Republic.run_uid env;
                Republic.r_started_at := Republic.started_at env;
                Republic.r_finished_at := Some (Republic.finished_at env);
                Republic.r_method := Republic.method args;
                Republic.r_version := Republic.version args;
                Republic.r_inserted_count := Republic.inserted finished;
                Republic.r_skipped_count := Republic.skipped finished;
                Republic.r_selected_before_count :=
                  Republic.selected_count (Republic.max_per_phase args)
                    candidates Before;
                Republic.r_selected_after_count :=
                  Republic.selected_count (Republic.max_per_phase args)
                    candidates After;
                Republic.r_notes := Republic.notes env |}])%list
      /\ (exists new,
             Republic.evidence (Republic.durable done)
             = (Republic.evidence (Republic.view c) ++ new)%list
             /\ List.length new = Republic.inserted finished
             /\ Forall (fun e => Republic.e_run_uid e = Republic.run_uid env
                                 /\ exists row,
                                      In row rows
                                      /\ Republic.e_article_uid e
                                         = Republic.article_uid row)
                       new)
      /\ (forall row, In row rows ->
             exists e,
               In e (Republic.evidence (Republic.durable done))
               /\ Republic.e_article_uid e = Republic.article_uid row
               /\ Republic.e_version e = Republic.version args)).
Proof.
  cbv zeta. unfold Republic.main_interrupted, Republic.abandon, Republic.main.
  cbn [Republic.durable Republic.view].
  rewrite run_ledger_durable. split; [reflexivity|]. split; [reflexivity|].
  set (make := Republic.make_candidate args summary_by_uid tag_slugs_by_uid).
  split.
  { unfold Republic.finish_run.
    destruct (Republic.dry_run args).
    - apply run_ledger_durable.
    - reflexivity. }
  intros Hwet Hfresh.
  pose proof (run_ledger_counts sha1 args env (map make rows) c) as Hcount.
  destruct (run_ledger_appends sha1 args env (map make rows) None c)
    as (_ & Hr & new & He & Hn & Hw).
  unfold Republic.finish_run. rewrite Hwet in *.
  cbn [Republic.inserted Republic.skipped Republic.conn].
  cbn [Republic.commit Republic.durable Republic.view Republic.on_view
         Republic.seal_run Republic.runs Republic.evidence].
  split; [|split].
  - rewrite Hr.
    cbn [Republic.view Republic.on_view Republic.open_run Republic.runs].
    rewrite map_app.
    pose proof (seal_others env
                  (Republic.inserted
                     (Republic.run_ledger sha1 args env (map make rows)
                        None c))
                  (Republic.skipped
                     (Republic.run_ledger sha1 args env (map make rows)
                        None c))
                  (Republic.selected_count (Republic.max_per_phase args)
                     (map make rows) Before)
                  (Republic.selected_count (Republic.max_per_phase args)
                     (map make rows) After)
                  (Republic.runs (Republic.view c)) Hfresh) as Hsame.
    cbn [Republic.seal_run Republic.runs] in Hsame. rewrite Hsame.
    cbn [map Republic.r_run_uid]. rewrite String.eqb_refl. reflexivity.
  - exists new. split; [exact He|]. split; [symmetry; now apply Hn|].
    eapply Forall_impl; [|exact Hw].
    intros e (Hrun & _ & _ & cand & Hcand & Huid & _).
    split; [exact Hrun|].
    apply in_map_iff in Hcand as [row [<- Hrow]].
    exists row. split; [exact Hrow|]. rewrite Huid.
    now destruct (make_candidate_fields args summary_by_uid tag_slugs_by_uid
                    row) as (H & _).
  - intros row Hrow.
    assert (Hpresent :
      Republic.present sha1 args
        (Republic.view
           (Republic.conn
              (Republic.run_ledger sha1 args env (map make rows) None c)))
        (make row) = true).
    { unfold Republic.run_ledger. rewrite Hwet.
      apply ledger_records; [exact Hwet|now apply in_map]. }
    unfold Republic.present, Republic.evidence_exists in Hpresent.
    apply existsb_exists in Hpresent as [e [He' Hkey]].
    apply andb_prop in Hkey as [Hkey _]. apply andb_prop in Hkey as [Hu Hv].
    apply String.eqb_eq in Hu, Hv.
    exists e. split; [exact He'|]. split; [|exact Hv].
    rewrite Hu.
    now destruct (make_candidate_fields args summary_by_uid tag_slugs_by_uid
                    row) as (H & _).
Qed.

(** On article A a writing run from an empty database ends with one sealed
    run row and the evidence row of A in the committed tables. *)
Lemma interrupted_run_is_discarded_witness :
  Republic.dry_run Scenario.default_args = false
  /\ map Republic.r_finished_at
       (Republic.runs
          (Republic.durable
             (Republic.conn
                (Republic.main Scenario.plain_hash Scenario.default_args
                   Scenario.first_env Scenario.no_summary Scenario.no_tags
                   [Scenario.article_three_probes]
                   Scenario.empty_connection))))
     = [Some (Republic.finished_at Scenario.first_env)].
Proof.
  split; [reflexivity|].
  exact (f_equal (map Republic.r_finished_at)
           (proj1 (proj2 (proj2 (proj2
              (interrupted_run_is_discarded Scenario.plain_hash
                 Scenario.default_args Scenario.first_env Scenario.no_summary
                 Scenario.no_tags [Scenario.article_three_probes] 1
                 Scenario.empty_connection)))
              eq_refl (fun r (H : In r []) => False_ind _ H)))).
Defined.


(** X6. A run of the critical-evidence script counts every candidate once,
    as inserted or as skipped.  A dry run leaves the rows of the database as
    they were.  A writing run only appends to the evidence table: the rows
    there before stay in place, the new rows are as many as the inserted
    counter says, and each carries the run's identifier, method and version
    and the identifier, phase, score, quote and fingerprint of one of the
    candidates. *)
Theorem run_accounting (sha1 : string -> string) (args : Republic.arguments)
        (env : Republic.environment) (candidates : list Republic.candidate)
        (c : Republic.connection) :
  let st := Republic.finish_run sha1 args env candidates c in
  Republic.inserted st + Republic.skipped st = List.length candidates
  /\ (Republic.dry_run args = true -> Republic.conn st = c)
  /\ (Republic.dry_run args = false ->
      exists new,
        Republic.evidence (Republic.durable (Republic.conn st))
        = (Republic.evidence (Republic.view c) ++ new)%list
        /\ List.length new = Republic.inserted st
        /\ Forall (Republic.written_by sha1 args env
                     (Republic.selected_ids (Republic.max_per_phase args)
                        candidates)
                     candidates)
                  new).
Proof.
  cbv zeta. unfold Republic.finish_run.
  pose proof (run_ledger_counts sha1 args env candidates c) as Hcount.
  destruct (run_ledger_appends sha1 args env candidates None c)
    as (Hd & Hr & new & He & Hn & Hw).
  destruct (Republic.dry_run args) eqn:Hdry.
  - split; [exact Hcount|]. split; [|discriminate]. intros _.
    unfold Republic.run_ledger. rewrite Hdry. now apply ledger_dry.
  - cbn [Republic.inserted Republic.skipped Republic.conn].
    split; [exact Hcount|]. split; [discriminate|]. intros _.
    exists new. split; [|split].
    + cbn [Republic.commit Republic.durable Republic.view Republic.on_view
             Republic.seal_run Republic.evidence].
      exact He.
    + symmetry. now apply Hn.
    + exact Hw.
Qed.

(** X7. The evidence rows already in the table having distinct keys
    [(article_uid, version, input_fingerprint)], the table has distinct keys
    after every turn of the ledger loop, and so has the committed table at
    the end of a writing run: no [INSERT] of the script meets the unique
    index. *)
Theorem unique_index_kept (sha1 : string -> string)
        (args : Republic.arguments) (env : Republic.environment)
        (candidates : list Republic.candidate) (c : Republic.connection)
        (Hunique : NoDup (map Republic.evidence_key
                              (Republic.evidence (Republic.view c)))) :
  (forall steps,
      NoDup (map Republic.evidence_key
               (Republic.evidence
                  (Republic.view
                     (Republic.conn
                        (Republic.run_ledger sha1 args env candidates
                           steps c))))))
  /\ (Republic.dry_run args = false ->
      NoDup (map Republic.evidence_key
               (Republic.evidence
                  (Republic.durable
                     (Republic.conn
                        (Republic.finish_run sha1 args env candidates c)))))).
Proof.
  assert (Hloop : forall steps,
             NoDup (map Republic.evidence_key
                      (Republic.evidence
                         (Republic.view
                            (Republic.conn
                               (Republic.run_ledger sha1 args env candidates
                                  steps c)))))).
  { intros steps. unfold Republic.run_ledger. apply ledger_unique.
    cbn [Republic.conn]. now destruct (Republic.dry_run args). }
  split; [exact Hloop|]. intros Hwet.
  unfold Republic.finish_run. rewrite Hwet.
  cbn [Republic.conn Republic.commit Republic.durable Republic.view
         Republic.on_view Republic.seal_run Republic.evidence].
  apply Hloop.
Qed.

Lemma unique_index_kept_witness :
  NoDup (map Republic.evidence_key
           (Republic.evidence (Republic.view Scenario.empty_connection)))
  /\ NoDup (map Republic.evidence_key
              (Republic.evidence
                 (Republic.view
                    (Republic.conn
                       (Republic.run_ledger Scenario.plain_hash
                          Scenario.default_args Scenario.first_env
                          Scenario.ten_republic None
                          Scenario.empty_connection))))).
Proof.
  split; [constructor|].
  exact (proj1 (unique_index_kept Scenario.plain_hash Scenario.default_args
                  Scenario.first_env Scenario.ten_republic
                  Scenario.empty_connection (NoDup_nil _)) None).
Defined.

(** X8. In a writing run whose identifier is not yet in the run table, the
    committed run table is the former one followed by one row: the run's,
    sealed with its finishing time, with the inserted and skipped counters
    of the loop (which add up to the number of candidates) and the sizes of
    the two selected sets. *)
Theorem run_row_sealed (sha1 : string -> string) (args : Republic.arguments)
        (env : Republic.environment) (candidates : list Republic.candidate)
        (c : Republic.connection)
        (Hwet : Republic.dry_run args = false)
        (Hfresh : forall r, In r (Republic.runs (Republic.view c)) ->
                            Republic.r_run_uid r <> Republic.run_uid env) :
  let st := Republic.finish_run sha1 args env candidates c in
  Republic.runs (Republic.durable (Republic.conn st))
  = (Republic.runs (Republic.view c)
     ++ [Republic.sealed_row args env (Republic.inserted st)
           (Republic.skipped st)
           (Republic.selected_count (Republic.max_per_phase args)
              candidates Before)
           (Republic.selected_count (Republic.max_per_phase args)
              candidates After)])%list
  /\ Republic.inserted st + Republic.skipped st = List.length candidates.
Proof.
  cbv zeta.
  pose proof (run_ledger_counts sha1 args env candidates c) as Hcount.
  destruct (run_ledger_appends sha1 args env candidates None c)
    as (_ & Hr & _).
  unfold Republic.finish_run. rewrite Hwet in *.
  cbn [Republic.inserted Republic.skipped Republic.conn].
  split; [|exact Hcount].
  cbn [Republic.commit Republic.durable Republic.view Republic.on_view
         Republic.seal_run Republic.runs].
  rewrite Hr.
  cbn [Republic.view Republic.on_view Republic.open_run Republic.runs].
  rewrite map_app.
  pose proof (seal_others env
                (Republic.inserted
                   (Republic.run_ledger sha1 args env candidates None c))
                (Republic.skipped
                   (Republic.run_ledger sha1 args env candidates None c))
                (Republic.selected_count (Republic.max_per_phase args)
                   candidates Before)
                (Republic.selected_count (Republic.max_per_phase args)
                   candidates After)
                (Republic.runs (Republic.view c)) Hfresh) as Hsame.
  cbn [Republic.seal_run Republic.runs] in Hsame. rewrite Hsame.
  cbn [map Republic.r_run_uid]. rewrite String.eqb_refl. reflexivity.
Qed.

Lemma run_row_sealed_witness :
  Republic.dry_run Scenario.default_args = false
  /\ List.length
       (Republic.runs
          (Republic.durable
             (Republic.conn
                (Republic.finish_run Scenario.plain_hash Scenario.default_args
                   Scenario.first_env Scenario.ten_republic
                   Scenario.empty_connection))))
     = 1.
Proof.
  split; [reflexivity|].
  exact (f_equal (@List.length _)
           (proj1 (run_row_sealed Scenario.plain_hash Scenario.default_args
                     Scenario.first_env Scenario.ten_republic
                     Scenario.empty_connection eq_refl
                     (fun r (H : In r []) => False_ind _ H)))).
Defined.

(** ** Who is selected *)

Lemma firstn_misses {A : Type} (cap : nat) (l : list A) (x : A) :
  In x l -> ~ In x (firstn cap l) -> List.length (firstn cap l) = cap.
Proof.
  intros Hin Hout. rewrite length_firstn.
  destruct (Nat.le_gt_cases (List.length l) cap) as [Hle | Hgt]; [|lia].
  exfalso. apply Hout. now rewrite firstn_all2.
Qed.

(** X9. In the critical-evidence script, articles being identified by their
    [article_uid], an article is selected for the story only if it passed
    the three thresholds (score, anchor hits, active groups); and an article
    that passed them is left out only when the cap of its phase is used up
    by [max_per_phase] selected articles. *)
Theorem selected_passed_thresholds (args : Republic.arguments)
        (summary_by_uid : string -> string)
        (tag_slugs_by_uid : string -> list string)
        (rows : list Republic.article) (row : Republic.article)
        (Hdistinct : NoDup (map Republic.article_uid rows))
        (Hin : In row rows) :
  let candidates :=
    map (Republic.make_candidate args summary_by_uid tag_slugs_by_uid) rows in
  let ph := Republic.classify (Republic.year row) in
  let selected :=
    Republic.selected_ids (Republic.max_per_phase args) candidates ph in
  let r := Republic.score_article ph (Republic.title row)
             (summary_by_uid (Republic.article_uid row))
             (tag_slugs_by_uid (Republic.article_uid row))
             (Republic.body_text row) in
  let passed := Qle_bool (Republic.min_score args) (score_of r)
                && (Republic.min_anchor_hits args
                    <=? Z.of_nat (anchor_hits_of r))%Z
                && (Republic.min_group_hits args
                    <=? Z.of_nat (active_groups_of r))%Z in
  (Text.mem (Republic.article_uid row) selected = true ->
   (Republic.min_score args <= score_of r)%Q
   /\ (Republic.min_anchor_hits args <= Z.of_nat (anchor_hits_of r))%Z
   /\ (Republic.min_group_hits args <= Z.of_nat (active_groups_of r))%Z)
  /\ (passed = true ->
      Text.mem (Republic.article_uid row) selected = false ->
      List.length selected = Republic.max_per_phase args).
Proof.
  cbv zeta.
  set (make := Republic.make_candidate args summary_by_uid tag_slugs_by_uid).
  destruct (make_candidate_fields args summary_by_uid tag_slugs_by_uid row)
    as (Huid & Hph & _ & Hinc & _). fold make in Huid, Hph, Hinc.
  assert (Huids : map Republic.c_article_uid (map make rows)
                  = map Republic.article_uid rows).
  { rewrite map_map. apply map_ext. intros a.
    now destruct (make_candidate_fields args summary_by_uid tag_slugs_by_uid a)
      as (H & _). }
  split.
  - intros Hsel. apply mem_In in Hsel.
    unfold Republic.selected_ids in Hsel.
    apply in_map_iff in Hsel as [cand [Hc Hsel]].
    apply In_firstn_weaken in Hsel.
    unfold Republic.phase_candidates in Hsel.
    apply stable_sort_In in Hsel. apply filter_In in Hsel as [Hcand Hkeep].
    apply andb_prop in Hkeep as [_ Hkeep].
    assert (Hsame : cand = make row).
    { apply (NoDup_map_In_inj Republic.c_article_uid (map make rows)).
      - now rewrite Huids.
      - exact Hcand.
      - now apply in_map.
      - now rewrite Huid. }
    subst cand. rewrite Hinc in Hkeep.
    apply andb_prop in Hkeep as [Hkeep Hgroups].
    apply andb_prop in Hkeep as [Hscore Hanchors].
    repeat split.
    + now apply Qle_bool_iff.
    + now apply Z.leb_le.
    + now apply Z.leb_le.
  - intros Hpassed Hout. unfold Republic.selected_ids in *.
    rewrite length_map.
    apply (firstn_misses _ _ (make row)).
    + unfold Republic.phase_candidates. apply stable_sort_In, filter_In.
      split; [now apply in_map|].
      rewrite Hph, Hinc, Hpassed. now destruct (Republic.classify _).
    + intros Hfirst.
      assert (Hmem : Text.mem (Republic.article_uid row)
                       (map Republic.c_article_uid
                          (firstn (Republic.max_per_phase args)
                             (Republic.phase_candidates (map make rows)
                                (Republic.classify (Republic.year row)))))
                     = true).
      { apply mem_In. rewrite <- Huid. now apply in_map. }
      congruence.
Qed.

Lemma selected_passed_thresholds_witness :
  (8 <= score_of
          (Republic.score_article Before
             (Republic.title Scenario.article_three_probes) EmptyString []
             (Republic.body_text Scenario.article_three_probes)))%Q.
Proof.
  exact (proj1
           (proj1
              (selected_passed_thresholds Scenario.lenient_args
                 Scenario.no_summary Scenario.no_tags
                 [Scenario.article_three_probes] Scenario.article_three_probes
                 (NoDup_cons _ (fun H : In _ [] => H) (NoDup_nil _))
                 (or_introl eq_refl))
              eq_refl)).
Defined.

(** ** Selection reasons *)

Lemma packet_mark_row_reason (fto : bool) (sel : phase -> list string)
      (r : Packet.candidate) :
  let m := Packet.mark_row fto sel r in
  Packet.reason m <> unset
  /\ (Packet.include_in_story m = true <->
      Packet.reason m = passed_threshold
      \/ Packet.reason m = backfill_to_phase_cap)
  /\ (Packet.reason m = passed_threshold -> Packet.candidate_include m = true)
  /\ (Packet.reason m = backfill_to_phase_cap ->
      Packet.candidate_include m = false)
  /\ (Packet.reason m = blocked_non_full_text <->
      Packet.include_in_story m = false /\ Packet.candidate_include m = true
      /\ fto = true /\ Packet.is_full m = false)
  /\ (Packet.reason m = below_phase_cap -> Packet.candidate_include m = true)
  /\ Packet.text_state m = Packet.text_state r.
Proof.
  cbv zeta.
  unfold Packet.mark_row, Packet.classify_unselected_reason, Packet.is_full.
  destruct (Text.mem _ _);
    destruct (Packet.candidate_include r) eqn:Ei;
    destruct fto;
    destruct (String.eqb (Packet.text_state r) "full") eqn:Ef;
    try destruct (Text.contains _ _);
    cbn -[String.eqb]; rewrite ?Ei, ?Ef;
    repeat split; try discriminate; try tauto;
    try (intros [H | H]; discriminate H);
    try (intros (H1 & H2 & H3 & H4); discriminate).
Qed.

(** X10. Every candidate leaves the selection loops with a reason: a
    selected one with [passed_threshold] if it passed the thresholds and
    with [backfill_to_phase_cap] if it did not; one that is not selected
    with another reason.  In the packet assembler [blocked_non_full_text]
    is given exactly to the unselected candidates that passed the
    thresholds, in strict mode, without full text, and [below_phase_cap]
    only to candidates that passed the thresholds; in the science script
    every unselected candidate gets [below_cutoff].  The selected records
    are the candidates marked as included. *)
Theorem selection_reasons :
  (forall (cands : list Packet.candidate) (cap : nat)
          (full_text_only backfill_to_cap : bool) (m : Packet.candidate),
      In m (snd (Packet.select_records cands cap full_text_only
                   backfill_to_cap)) ->
      Packet.reason m <> unset
      /\ (Packet.include_in_story m = true <->
          Packet.reason m = passed_threshold
          \/ Packet.reason m = backfill_to_phase_cap)
      /\ (Packet.reason m = passed_threshold ->
          Packet.candidate_include m = true)
      /\ (Packet.reason m = backfill_to_phase_cap ->
          Packet.candidate_include m = false)
      /\ (Packet.reason m = blocked_non_full_text <->
          Packet.include_in_story m = false
          /\ Packet.candidate_include m = true
          /\ full_text_only = true /\ Packet.is_full m = false)
      /\ (Packet.reason m = below_phase_cap ->
          Packet.candidate_include m = true))
  /\ (forall (cands : list Packet.candidate) (cap : nat)
             (full_text_only backfill_to_cap : bool) (m : Packet.candidate),
         In m (fst (Packet.select_records cands cap full_text_only
                      backfill_to_cap))
         <-> In m (snd (Packet.select_records cands cap full_text_only
                          backfill_to_cap))
             /\ Packet.include_in_story m = true)
  /\ (forall (cands : list Science.candidate) (cap : nat)
             (backfill_to_cap : bool) (m : Science.candidate),
         In m (snd (Science.select_from cap backfill_to_cap cands)) ->
         (Science.c_include_in_story m = true <->
          Science.c_selection_reason m = passed_threshold
          \/ Science.c_selection_reason m = backfill_to_phase_cap)
         /\ (Science.c_include_in_story m = false <->
             Science.c_selection_reason m = below_cutoff)
         /\ (Science.c_selection_reason m = passed_threshold ->
             Science.c_candidate_include m = true)
         /\ (Science.c_selection_reason m = backfill_to_phase_cap ->
             Science.c_candidate_include m = false))
  /\ (forall (cands : list Science.candidate) (cap : nat)
             (backfill_to_cap : bool) (m : Science.candidate),
         In m (fst (Science.select_from cap backfill_to_cap cands))
         <-> In m (snd (Science.select_from cap backfill_to_cap cands))
             /\ Science.c_include_in_story m = true).
Proof.
  split; [|split; [|split]].
  - intros cands cap fto bf m Hin. unfold Packet.select_records in Hin.
    cbn [snd] in Hin. apply in_map_iff in Hin as [r [<- _]].
    destruct (packet_mark_row_reason fto
                (Packet.selected_uids cap fto bf cands) r)
      as (H1 & H2 & H3 & H4 & H5 & H6 & _).
    exact (conj H1 (conj H2 (conj H3 (conj H4 (conj H5 H6))))).
  - intros cands cap fto bf m. unfold Packet.select_records. cbn [fst snd].
    rewrite stable_sort_In, filter_In. reflexivity.
  - intros cands cap bf m Hin. unfold Science.select_from in Hin.
    cbn [snd] in Hin. apply stable_sort_In in Hin.
    apply in_map_iff in Hin as [r [<- _]].
    unfold Science.mark_row.
    cbn [Science.c_include_in_story Science.c_selection_reason
           Science.c_candidate_include].
    destruct (Text.mem _ _); destruct (Science.c_candidate_include r);
      repeat split; try discriminate; try tauto;
      try (intros [H | H]; discriminate H).
  - intros cands cap bf m. unfold Science.select_from. cbn [fst snd].
    rewrite !stable_sort_In, filter_In. reflexivity.
Qed.

(** ** What the picks are made of *)

Lemma packet_extend_In (cap : nat) (pool picks : list Packet.candidate)
      (r : Packet.candidate) :
  In r (Packet.extend cap picks pool) -> In r picks \/ In r pool.
Proof.
  revert picks. induction pool as [|row rest IH]; intros picks H; simpl in H.
  - now left.
  - assert (Hsnoc : In r (picks ++ [row])%list -> In r picks \/ In r (row :: rest)).
    { intros Hi. apply in_app_or in Hi as [Hi | [<- | []]];
        [now left|right; now left]. }
    destruct (Nat.leb cap (List.length (picks ++ [row]))); [now apply Hsnoc|].
    apply IH in H as [H | H]; [now apply Hsnoc|right; now right].
Qed.

Lemma packet_picks_sound (cap : nat) (fto bf : bool)
      (cands : list Packet.candidate) (ph : phase) (r : Packet.candidate) :
  In r (Packet.picks cap fto bf cands ph) ->
  In r cands /\ Packet.phase_of r = ph /\ Packet.admissible fto r = true
  /\ (bf = false -> Packet.candidate_include r = true).
Proof.
  assert (Hprimary : In r (firstn cap (Packet.eligible fto cands ph)) ->
                     In r cands /\ Packet.phase_of r = ph
                     /\ Packet.admissible fto r = true
                     /\ (bf = false -> Packet.candidate_include r = true)).
  { intros H. apply In_firstn_weaken in H.
    apply packet_eligible_In in H as (H1 & H2 & H3 & H4). tauto. }
  unfold Packet.picks.
  destruct (bf && Nat.ltb _ cap) eqn:E; [|exact Hprimary].
  apply andb_prop in E as [-> _]. intros H.
  apply packet_extend_In in H as [H | H]; [now apply Hprimary|].
  apply packet_pool_In in H as (H1 & H2 & H3 & _).
  repeat split; try assumption. discriminate.
Qed.

Lemma science_backfill_In (cap : nat) (rows picks : list Science.candidate)
      (ids : list string) (r : Science.candidate) :
  In r (Science.backfill cap picks ids rows) -> In r picks \/ In r rows.
Proof.
  revert picks ids. induction rows as [|row rest IH]; intros picks ids H;
    simpl in H.
  - now left.
  - assert (Hsnoc : In r (picks ++ [row])%list -> In r picks \/ In r (row :: rest)).
    { intros Hi. apply in_app_or in Hi as [Hi | [<- | []]];
        [now left|right; now left]. }
    destruct (Text.mem (Science.c_article_uid row) ids).
    + apply IH in H as [H | H]; [now left|right; now right].
    + destruct (Nat.leb cap (List.length (picks ++ [row])));
        [now apply Hsnoc|].
      apply IH in H as [H | H]; [now apply Hsnoc|right; now right].
Qed.

Lemma science_picks_sound (cap : nat) (bf : bool)
      (cands : list Science.candidate) (ph : phase) (r : Science.candidate) :
  In r (Science.picks cap bf cands ph) ->
  In r cands /\ Science.c_phase r = ph
  /\ (bf = false -> Science.c_candidate_include r = true).
Proof.
  assert (Hprimary : In r (Science.primary_picks cap cands ph) ->
                     In r cands /\ Science.c_phase r = ph
                     /\ (bf = false -> Science.c_candidate_include r = true)).
  { unfold Science.primary_picks, Science.auto_selected. intros H.
    apply In_firstn_weaken in H. apply stable_sort_In in H.
    apply filter_In in H as [H Hinc].
    apply science_phase_rows_In in H as [H1 H2]. tauto. }
  unfold Science.picks.
  destruct (bf && Nat.ltb _ cap) eqn:E; [|exact Hprimary].
  apply andb_prop in E as [-> _]. intros H.
  apply science_backfill_In in H as [H | H]; [now apply Hprimary|].
  apply science_phase_rows_In in H as [H1 H2].
  repeat split; try assumption. discriminate.
Qed.

(** Identifiers being distinct, the candidate whose identifier is in the
    selected set of its phase is one of the picks. *)
Lemma picked_by_uid {Row : Type} (uid : Row -> string) (cands picked : list Row)
      (r : Row) :
  NoDup (map uid cands) -> (forall x, In x picked -> In x cands) ->
  In r cands -> Text.mem (uid r) (map uid picked) = true -> In r picked.
Proof.
  intros Hnd Hsub Hr Hmem. apply mem_In in Hmem.
  apply in_map_iff in Hmem as [x [Hx Hin]].
  assert (x = r) as <-; [|exact Hin].
  apply (NoDup_map_In_inj uid cands); auto.
Qed.

(** X11. Candidates being identified by their [article_uid], every record
    the packet assembler selects in strict mode has full text, with or
    without backfill; and without backfill every record selected, by the
    packet assembler or by the science script, passed the thresholds. *)
Theorem selected_records_admissible :
  (forall (cands : list Packet.candidate) (cap : nat)
          (full_text_only backfill_to_cap : bool) (m : Packet.candidate),
      NoDup (map Packet.article_uid cands) ->
      In m (fst (Packet.select_records cands cap full_text_only
                   backfill_to_cap)) ->
      (full_text_only = true -> Packet.text_state m = "full")
      /\ (backfill_to_cap = false ->
          Packet.candidate_include m = true
          /\ Packet.reason m = passed_threshold))
  /\ (forall (cands : list Science.candidate) (cap : nat)
             (m : Science.candidate),
         NoDup (map Science.c_article_uid cands) ->
         In m (fst (Science.select_from cap false cands)) ->
         Science.c_candidate_include m = true
         /\ Science.c_selection_reason m = passed_threshold).
Proof.
  split.
  - intros cands cap fto bf m Hnd Hin.
    unfold Packet.select_records in Hin. cbn [fst] in Hin.
    apply stable_sort_In in Hin. apply filter_In in Hin as [Hin Hinc].
    apply in_map_iff in Hin as [r [<- Hr]].
    destruct (packet_mark_row_fields fto
                (Packet.selected_uids cap fto bf cands) r)
      as (Hmem & _ & _ & Hci).
    destruct (packet_mark_row_reason fto
                (Packet.selected_uids cap fto bf cands) r)
      as (_ & H2 & _ & H4 & _ & _ & Hts).
    rewrite Hmem in Hinc.
    assert (Hpick : In r (Packet.picks cap fto bf cands (Packet.phase_of r))).
    { apply (picked_by_uid Packet.article_uid cands); try assumption.
      intros x Hx. now apply packet_picks_sound in Hx. }
    apply packet_picks_sound in Hpick as (_ & _ & Hadm & Hbf).
    split.
    + intros ->. rewrite Hts. unfold Packet.admissible, Packet.is_full in Hadm.
      simpl in Hadm. now apply String.eqb_eq.
    + intros Hoff. specialize (Hbf Hoff). rewrite Hci. split; [exact Hbf|].
      rewrite <- Hmem in Hinc. apply H2 in Hinc as [Hp | Hb]; [exact Hp|].
      apply H4 in Hb. congruence.
  - intros cands cap m Hnd Hin.
    unfold Science.select_from in Hin. cbn [fst] in Hin.
    apply stable_sort_In in Hin. apply filter_In in Hin as [Hin Hinc].
    apply in_map_iff in Hin as [r [<- Hr]].
    unfold Science.mark_row in *.
    cbn [Science.c_include_in_story Science.c_selection_reason
           Science.c_candidate_include] in *.
    assert (Hpick : In r (Science.picks cap false cands (Science.c_phase r))).
    { apply (picked_by_uid Science.c_article_uid cands); try assumption.
      intros x Hx. now apply science_picks_sound in Hx. }
    apply science_picks_sound in Hpick as (_ & _ & Hbf).
    rewrite Hinc, (Hbf eq_refl). now split.
Qed.

Lemma selected_records_admissible_witness :
  Forall (fun m => Packet.text_state m = "full")
         (fst (Packet.select_records (Scenario.ten_packet "missing") 5
                 true true)).
Proof.
  apply Forall_forall. intros m Hin.
  exact (proj1 (proj1 selected_records_admissible
                  (Scenario.ten_packet "missing") 5 true true m
                  (distinct_NoDup
                     (map Packet.article_uid (Scenario.ten_packet "missing"))
                     eq_refl) Hin) eq_refl).
Defined.

(** ** Report order *)

Lemma packet_report_total (x y : Packet.candidate) :
  Packet.report_le x y = true \/ Packet.report_le y x = true.
Proof.
  unfold Packet.report_le.
  destruct (Packet.phase_of x), (Packet.phase_of y); simpl;
    try apply packet_key_total; [right|left]; reflexivity.
Qed.

Lemma science_report_total (x y : Science.candidate) :
  Science.report_le x y = true \/ Science.report_le y x = true.
Proof.
  unfold Science.report_le.
  destruct (Science.c_phase x), (Science.c_phase y); simpl;
    try apply science_key_total; [right|left]; reflexivity.
Qed.

Lemma packet_mark_row_key (fto : bool) (sel : phase -> list string)
      (x y : Packet.candidate) :
  Packet.report_le (Packet.mark_row fto sel x) (Packet.mark_row fto sel y)
  = Packet.report_le x y.
Proof.
  assert (Hkey : forall r,
             Packet.phase_of (Packet.mark_row fto sel r) = Packet.phase_of r
             /\ Packet.relevance_score (Packet.mark_row fto sel r)
                = Packet.relevance_score r
             /\ Packet.published_date (Packet.mark_row fto sel r)
                = Packet.published_date r
             /\ Packet.title (Packet.mark_row fto sel r) = Packet.title r).
  { intros r. unfold Packet.mark_row.
    destruct (Text.mem _ _); [repeat split|].
    destruct (Packet.classify_unselected_reason r fto); repeat split. }
  destruct (Hkey x) as (Hx1 & Hx2 & Hx3 & Hx4).
  destruct (Hkey y) as (Hy1 & Hy2 & Hy3 & Hy4).
  unfold Packet.report_le, Packet.key_le.
  now rewrite Hx1, Hx2, Hx3, Hx4, Hy1, Hy2, Hy3, Hy4.
Qed.

Lemma sorted_map_same_key {A : Type} (le : A -> A -> bool) (f : A -> A)
      (rows : list A) :
  (forall x y, le (f x) (f y) = le x y) ->
  Sorted (le_rel le) rows -> Sorted (le_rel le) (map f rows).
Proof.
  intros Hkey. induction 1 as [|x t Hs IH Hhd]; simpl; constructor;
    [exact IH|].
  destruct Hhd as [|y t' Hle]; simpl; constructor.
  unfold le_rel in *. now rewrite Hkey.
Qed.

(** X12. The records the packet assembler and the science script return are
    in report order, and so are the candidates [build_candidates] returns:
    by phase name, so phase "after" comes before phase "before", and within
    a phase by the selection key.  The marking loop of the packet assembler
    keeps a candidate list that is in report order in that order. *)
Theorem report_order :
  (forall (cands : list Packet.candidate) (cap : nat)
          (full_text_only backfill_to_cap : bool),
      Sorted (le_rel Packet.report_le)
             (fst (Packet.select_records cands cap full_text_only
                     backfill_to_cap))
      /\ (Sorted (le_rel Packet.report_le) cands ->
          Sorted (le_rel Packet.report_le)
                 (snd (Packet.select_records cands cap full_text_only
                         backfill_to_cap))))
  /\ (forall (evidence_rows : list Republic.evidence_row)
             (article_by_uid : string -> option Packet.article_info),
         Sorted (le_rel Packet.report_le)
                (Packet.build_candidates evidence_rows article_by_uid))
  /\ (forall (cands : list Science.candidate) (cap : nat)
             (backfill_to_cap : bool),
         Sorted (le_rel Science.report_le)
                (fst (Science.select_from cap backfill_to_cap cands))
         /\ Sorted (le_rel Science.report_le)
                   (snd (Science.select_from cap backfill_to_cap cands)))
  /\ (forall x y : Packet.candidate,
         (Packet.phase_of x = After -> Packet.phase_of y = Before ->
          Packet.report_le x y = true /\ Packet.report_le y x = false)
         /\ (Packet.phase_of x = Packet.phase_of y ->
             Packet.report_le x y = Packet.key_le x y))
  /\ (forall x y : Science.candidate,
         (Science.c_phase x = After -> Science.c_phase y = Before ->
          Science.report_le x y = true /\ Science.report_le y x = false)
         /\ (Science.c_phase x = Science.c_phase y ->
             Science.report_le x y = Science.key_le x y)).
Proof.
  split; [|split; [|split; [|split]]].
  - intros cands cap fto bf. unfold Packet.select_records. cbn [fst snd].
    split; [apply stable_sort_sorted, packet_report_total|].
    apply sorted_map_same_key. apply packet_mark_row_key.
  - intros rows by_uid. apply stable_sort_sorted, packet_report_total.
  - intros cands cap bf. unfold Science.select_from. cbn [fst snd].
    split; apply stable_sort_sorted, science_report_total.
  - intros x y. unfold Packet.report_le. split.
    + intros -> ->. split; reflexivity.
    + intros ->. destruct (Packet.phase_of y); reflexivity.
  - intros x y. unfold Science.report_le. split.
    + intros -> ->. split; reflexivity.
    + intros ->. destruct (Science.c_phase y); reflexivity.
Qed.

(** ** Lead groups *)

Lemma group_char_not_space (c : ascii) :
  Packet.is_group_char c = true -> Text.is_space c = false.
Proof.
  destruct c as [[|] [|] [|] [|] [|] [|] [|] [|]];
    vm_compute; intros H; try reflexivity; discriminate H.
Qed.

Lemma group_run_split (s : string) :
  exists rest, s = Packet.group_run s ++ rest.
Proof.
  induction s as [|c r [rest IH]]; [now exists EmptyString|]. simpl.
  destruct (Packet.is_group_char c).
  - exists rest. simpl. now rewrite <- IH.
  - now exists (String c r).
Qed.

Lemma group_run_strip (s : string) :
  Text.strip (Packet.group_run s) = Packet.group_run s.
Proof.
  unfold Text.strip.
  assert (Hl : Text.lstrip (Packet.group_run s) = Packet.group_run s).
  { destruct s as [|c r]; [reflexivity|]. simpl.
    destruct (Packet.is_group_char c) eqn:E; [|reflexivity].
    simpl. now rewrite (group_char_not_space c E). }
  rewrite Hl. clear Hl. induction s as [|c r IH]; [reflexivity|]. simpl.
  destruct (Packet.is_group_char c) eqn:E; [|reflexivity].
  rewrite rstrip_unfold, IH, (group_char_not_space c E).
  now destruct (Packet.group_run r).
Qed.

(** A match of the lead-group pattern: where it stands in the text and what
    it captures. *)
Lemma search_some (s g : string) :
  Packet.search_lead_group s = Some g ->
  g <> EmptyString /\ Text.strip g = g
  /\ exists pre rest, s = pre ++ "lead_group=" ++ g ++ rest.
Proof.
  induction s as [|c r IH]; rewrite search_unfold.
  - unfold Packet.match_here. simpl. discriminate.
  - destruct (Packet.match_here (String c r)) as [g'|] eqn:Em.
    + intros H. injection H as ->. unfold Packet.match_here in Em.
      destruct (Packet.after_prefix "lead_group=" (String c r)) as [tail|] eqn:Ea;
        [|discriminate].
      apply after_prefix_spec in Ea.
      destruct (Packet.group_run tail) as [|d run] eqn:Eg; [discriminate|].
      injection Em as <-. rewrite <- Eg. split; [|split].
      * rewrite Eg. discriminate.
      * apply group_run_strip.
      * destruct (group_run_split tail) as [rest Hrest].
        exists EmptyString, rest. rewrite Ea. simpl. now rewrite <- Hrest.
    + intros H. destruct (IH H) as (Hne & Hstrip & pre & rest & Hs).
      split; [exact Hne|]. split; [exact Hstrip|].
      exists (String c pre), rest. simpl. now rewrite Hs.
Qed.

Lemma search_none (s : string) :
  Text.contains "lead_group=" s = false -> Packet.search_lead_group s = None.
Proof.
  intros Hno. destruct (Packet.search_lead_group s) as [g|] eqn:E;
    [|reflexivity].
  destruct (search_some s g E) as (_ & _ & pre & rest & Hs).
  assert (Hc : Text.contains "lead_group=" s = true)
    by (apply contains_spec; now exists pre, (g ++ rest)).
  congruence.
Qed.

(** X13. [parse_lead_group] always returns one of the seven lead groups of
    the packet assembler.  It returns [cross_currents] for a rationale
    without the text [lead_group=], and when it returns another group, that
    name stands in the rationale right after [lead_group=]. *)
Theorem parse_lead_group_range (rationale : string) :
  In (Packet.parse_lead_group rationale) Packet.LEAD_GROUPS
  /\ (Text.contains "lead_group=" rationale = false ->
      Packet.parse_lead_group rationale = "cross_currents")
  /\ (Packet.parse_lead_group rationale = "cross_currents"
      \/ exists pre rest,
           rationale
           = pre ++ "lead_group=" ++ Packet.parse_lead_group rationale ++ rest).
Proof.
  unfold Packet.parse_lead_group. split; [|split].
  - destruct (Text.mem _ Packet.LEAD_GROUPS) eqn:E.
    + now apply mem_In.
    + simpl. tauto.
  - intros Hno. now rewrite (search_none rationale Hno).
  - destruct (Packet.search_lead_group rationale) as [g|] eqn:E.
    + destruct (search_some rationale g E) as (_ & Hstrip & pre & rest & Hs).
      rewrite Hstrip. destruct (Text.mem g Packet.LEAD_GROUPS); [|now left].
      right. now exists pre, rest.
    + now left.
Qed.

Lemma republic_groups_are_lead_groups (ph : phase) (name : string) :
  In name (map fst (Republic.PHASE_KEYWORDS ph)) ->
  In name Packet.LEAD_GROUPS.
Proof.
  destruct ph; simpl; intros H;
    repeat (destruct H as [<- | H]; [tauto|]); contradiction.
Qed.

(** The rationale as the ledger loop stores it, with or without the
    sentence on the cap in front, still parses to its lead group. *)
Lemma stored_rationale_parses (capped : bool) (ph : phase) (score : Q)
      (anchor_hits : nat) (group_hits : list (string * nat))
      (selected : bool) :
  group_hits <> [] ->
  (forall name, In name (map fst group_hits) -> In name Packet.LEAD_GROUPS) ->
  Packet.parse_lead_group
    (if capped
     then "Excluded due to per-phase cap despite passing score threshold. "
          ++ Republic.build_rationale ph score anchor_hits group_hits selected
     else Republic.build_rationale ph score anchor_hits group_hits selected)
  = strongest_group group_hits
  /\ In (strongest_group group_hits) (map fst group_hits).
Proof.
  intros Hne Hnames.
  destruct (lead_of_maximal group_hits Hne) as [v [Hin _]].
  assert (Hgroup : In (lead_of group_hits) (map fst group_hits))
    by (apply in_map_iff; now exists (lead_of group_hits, v)).
  assert (Hlead : In (lead_of group_hits) Packet.LEAD_GROUPS)
    by now apply Hnames.
  rewrite <- (lead_of_strongest group_hits Hne). split; [|exact Hgroup].
  unfold Republic.build_rationale, Packet.parse_lead_group.
  destruct (rationale_shape
              "Selected for narrative because relevance is high and concept coverage is multi-dimensional."
              "Excluded from core narrative because relevance is insufficient under strict selection criteria."
              ph score anchor_hits group_hits selected)
    as (pre & rest & Hshape & Hfree).
  rewrite Hshape.
  assert (Hsearch :
    Packet.search_lead_group
      (if capped
       then "Excluded due to per-phase cap despite passing score threshold. "
            ++ pre ++ "lead_group=" ++ lead_of group_hits ++ String ";" rest
       else pre ++ "lead_group=" ++ lead_of group_hits ++ String ";" rest)
    = Some (lead_of group_hits)).
  { destruct capped.
    - rewrite <- string_app_assoc. rewrite search_skip.
      + now apply search_found.
      + rewrite free_of_app, (Hfree eq_refl eq_refl). reflexivity.
    - rewrite (search_skip pre _ (Hfree eq_refl eq_refl)).
      now apply search_found. }
  rewrite Hsearch.
  destruct (lead_group_kept _ Hlead) as [Hstrip Hmem].
  now rewrite Hstrip, Hmem.
Qed.

(** X14. Every evidence row a writing run of the critical-evidence script
    adds has a rationale from which the packet assembler reads a lead group
    of the row's phase, and the connection text of the row is the one the
    script gives to that group: the two fields of a stored row agree, also
    when the sentence on the per-phase cap was put in front of the
    rationale. *)
Theorem stored_lead_group (sha1 : string -> string)
        (args : Republic.arguments) (env : Republic.environment)
        (summary_by_uid : string -> string)
        (tag_slugs_by_uid : string -> list string)
        (rows : list Republic.article) (c : Republic.connection)
        (Hwet : Republic.dry_run args = false) :
  exists new,
    Republic.evidence
      (Republic.durable
         (Republic.conn
            (Republic.main sha1 args env summary_by_uid tag_slugs_by_uid
               rows c)))
    = (Republic.evidence (Republic.view c) ++ new)%list
    /\ Forall
         (fun e =>
            let group := Packet.parse_lead_group (Republic.e_rationale e) in
            In group (map fst (Republic.PHASE_KEYWORDS (Republic.e_phase e)))
            /\ Republic.e_connection_text e
               = Republic.build_connection_text (Republic.e_phase e) group)
         new.
Proof.
  unfold Republic.main.
  set (make := Republic.make_candidate args summary_by_uid tag_slugs_by_uid).
  destruct (run_ledger_appends sha1 args env (map make rows) None c)
    as (_ & _ & new & He & _ & Hw).
  exists new. split.
  - unfold Republic.finish_run. rewrite Hwet.
    cbn [Republic.conn Republic.commit Republic.durable Republic.view
           Republic.on_view Republic.seal_run Republic.evidence].
    exact He.
  - eapply Forall_impl; [|exact Hw].
    intros e (_ & _ & _ & cand & Hcand & _ & Hph & _ & _ & _ & _ & Hconn
              & Hrat & _).
    apply in_map_iff in Hcand as [row [<- _]].
    destruct (make_candidate_fields args summary_by_uid tag_slugs_by_uid row)
      as (_ & Hp & _ & Hinc & Hc & Hr).
    fold make in Hp, Hinc, Hc, Hr. cbv zeta. rewrite <- Hinc in Hr.
    rewrite Hph, Hconn, Hrat, Hp, Hc, Hr.
    set (ph := Republic.classify (Republic.year row)).
    set (r := Republic.score_article ph _ _ _ _).
    assert (Hnames : map fst (group_hits_of r)
                     = map fst (Republic.PHASE_KEYWORDS ph)).
    { unfold r, Republic.score_article, score_article, group_hits_of,
        weighted_group_hits. cbn [fst snd]. rewrite map_map. reflexivity. }
    assert (Hne : group_hits_of r <> []).
    { intros Hnil. rewrite Hnil in Hnames. now destruct ph. }
    match goal with
    | |- context [Packet.parse_lead_group (if ?b then _ else _)] =>
        destruct (stored_rationale_parses b ph (score_of r) (anchor_hits_of r)
                    (group_hits_of r)
                    (Republic.c_include (make row)) Hne) as [Hparse Hin]
    end.
    + intros name Hn. rewrite Hnames in Hn.
      now apply (republic_groups_are_lead_groups ph).
    + rewrite Hparse. split; [now rewrite <- Hnames|reflexivity].
Qed.

Lemma stored_lead_group_witness :
  Republic.dry_run Scenario.default_args = false
  /\ exists new,
       Republic.evidence
         (Republic.durable
            (Republic.conn
               (Republic.main Scenario.plain_hash Scenario.default_args
                  Scenario.first_env Scenario.no_summary Scenario.no_tags
                  [Scenario.article_three_probes] Scenario.empty_connection)))
       = new
       /\ Forall
            (fun e =>
               let group :=
                 Packet.parse_lead_group (Republic.e_rationale e) in
               In group
                  (map fst (Republic.PHASE_KEYWORDS (Republic.e_phase e)))
               /\ Republic.e_connection_text e
                  = Republic.build_connection_text (Republic.e_phase e) group)
            new.
Proof.
  split; [reflexivity|].
  exact (stored_lead_group Scenario.plain_hash Scenario.default_args
           Scenario.first_env Scenario.no_summary Scenario.no_tags
           [Scenario.article_three_probes] Scenario.empty_connection eq_refl).
Defined.


(** ** The tag dictionary *)

Lemma get_set_tags (d : list (string * list string)) (k uid : string)
      (slugs : list string) :
  Republic.get_tags (Republic.set_tags d k slugs) uid
  = if String.eqb k uid then slugs else Republic.get_tags d uid.
Proof.
  induction d as [|[k0 old] rest IH]; simpl; [reflexivity|].
  destruct (String.eqb k0 k) eqn:E0; simpl.
  - apply String.eqb_eq in E0. subst k0.
    now destruct (String.eqb k uid).
  - rewrite IH. destruct (String.eqb k0 uid) eqn:E1; [|reflexivity].
    apply String.eqb_eq in E1. subst k0. now rewrite String.eqb_sym, E0.
Qed.

Lemma set_tags_keys (d : list (string * list string)) (k : string)
      (slugs : list string) :
  NoDup (map fst d) -> NoDup (map fst (Republic.set_tags d k slugs))
  /\ forall x, In x (map fst (Republic.set_tags d k slugs))
               <-> In x (map fst d) \/ x = k.
Proof.
  induction d as [|[k0 old] rest IH]; simpl; intros Hnd.
  - split; [repeat constructor; intros []|]. intros x. intuition.
  - inversion Hnd as [|? ? Hout Hrest]; subst.
    destruct (String.eqb k0 k) eqn:E0; simpl.
    + apply String.eqb_eq in E0. subst k0. split; [now constructor|].
      intros x. intuition.
    + destruct (IH Hrest) as [Hnd' Hin']. split.
      * constructor; [|exact Hnd']. rewrite Hin'. intros [H | H]; [tauto|].
        subst k0. now rewrite String.eqb_refl in E0.
      * intros x. rewrite Hin'. tauto.
Qed.

Lemma add_tag_spec (d : list (string * list string)) (row : string * string) :
  NoDup (map fst d) -> (forall uid, NoDup (Republic.get_tags d uid)) ->
  NoDup (map fst (Republic.add_tag d row))
  /\ (forall uid, NoDup (Republic.get_tags (Republic.add_tag d row) uid))
  /\ forall uid slug,
       In slug (Republic.get_tags (Republic.add_tag d row) uid)
       <-> In slug (Republic.get_tags d uid) \/ (uid, slug) = row.
Proof.
  intros Hkeys Hslugs. destruct row as [u s]. unfold Republic.add_tag.
  cbn [fst snd].
  destruct (Text.mem s (Republic.get_tags d u)) eqn:Em.
  - split; [now apply set_tags_keys|]. split.
    + intros uid. rewrite get_set_tags.
      destruct (String.eqb u uid); apply Hslugs.
    + intros uid slug. rewrite get_set_tags.
      destruct (String.eqb u uid) eqn:E.
      * apply String.eqb_eq in E. subst uid. split; [tauto|].
        intros [H | H]; [exact H|]. injection H as ->. now apply mem_In.
      * split; [tauto|]. intros [H | H]; [exact H|]. injection H as -> _.
        now rewrite String.eqb_refl in E.
  - assert (Hnew : ~ In s (Republic.get_tags d u)).
    { intros H. apply mem_In in H. congruence. }
    split; [now apply set_tags_keys|]. split.
    + intros uid. rewrite get_set_tags.
      destruct (String.eqb u uid); [|apply Hslugs].
      apply NoDup_app; [apply Hslugs|repeat constructor; intros []|].
      intros x Hx [<- | []]. contradiction.
    + intros uid slug. rewrite get_set_tags.
      destruct (String.eqb u uid) eqn:E.
      * apply String.eqb_eq in E. subst uid. rewrite in_app_iff. simpl.
        split.
        -- intros [H | [<- | []]]; [now left|now right].
        -- intros [H | H]; [now left|]. injection H as ->. right. now left.
      * split; [tauto|]. intros [H | H]; [exact H|]. injection H as -> _.
        now rewrite String.eqb_refl in E.
Qed.

Lemma collect_from (tag_rows : list (string * string))
      (d : list (string * list string)) :
  NoDup (map fst d) -> (forall uid, NoDup (Republic.get_tags d uid)) ->
  NoDup (map fst (fold_left Republic.add_tag tag_rows d))
  /\ (forall uid,
         NoDup (Republic.get_tags (fold_left Republic.add_tag tag_rows d) uid))
  /\ forall uid slug,
       In slug (Republic.get_tags (fold_left Republic.add_tag tag_rows d) uid)
       <-> In slug (Republic.get_tags d uid) \/ In (uid, slug) tag_rows.
Proof.
  revert d. induction tag_rows as [|row rest IH]; intros d Hkeys Hslugs; simpl.
  - split; [exact Hkeys|]. split; [exact Hslugs|]. intros uid slug. tauto.
  - destruct (add_tag_spec d row Hkeys Hslugs) as (Hk & Hs & Hm).
    destruct (IH _ Hk Hs) as (Hk' & Hs' & Hm').
    split; [exact Hk'|]. split; [exact Hs'|].
    intros uid slug. rewrite Hm', Hm. intuition.
Qed.

(** X15. The dictionary the scripts build from the rows of the tag query
    has one entry per article, holds for an article exactly the slugs that
    some row gives it, and holds none of them twice, however often the query
    repeats a row.  So no article of the critical-evidence script has more
    than seven signal tags, and its tag bonus is at most 7 times 1.3. *)
Theorem tag_dictionary (tag_rows : list (string * string)) :
  let d := Republic.collect_tags tag_rows in
  NoDup (map fst d)
  /\ (forall uid, NoDup (Republic.get_tags d uid))
  /\ (forall uid slug,
         In slug (Republic.get_tags d uid) <-> In (uid, slug) tag_rows)
  /\ (forall uid ph,
         signal_count Republic.config ph (Republic.get_tags d uid) <= 7).
Proof.
  cbv zeta. unfold Republic.collect_tags.
  destruct (collect_from tag_rows [] (NoDup_nil _) (fun _ => NoDup_nil _))
    as (Hk & Hs & Hm).
  split; [exact Hk|]. split; [exact Hs|]. split.
  - intros uid slug. rewrite Hm. simpl. tauto.
  - intros uid ph. unfold signal_count.
    eapply Nat.le_trans.
    + apply (count_mem_le (fun slug : string => slug)).
      rewrite map_id. apply Hs.
    + now destruct ph.
Qed.

(** ** Summary snippets *)

Lemma take_chars_exact (n : nat) (s : string) :
  n <= String.length s -> String.length (Quote.take_chars n s) = n.
Proof.
  unfold Quote.take_chars. revert s.
  induction n as [|n IH]; intros [|c r]; simpl; intros H; try lia.
  rewrite IH; lia.
Qed.

Lemma take_chars_single_spaced (n : nat) (s : string) (b : bool) :
  Text.single_spaced b s = true ->
  Text.single_spaced b (Quote.take_chars n s) = true.
Proof.
  unfold Quote.take_chars. revert s b.
  induction n as [|n IH]; intros [|c r] b; simpl; try reflexivity.
  destruct (Text.is_space c).
  - rewrite !andb_true_iff. intros [[H1 H2] H3]. repeat split; auto.
  - apply IH.
Qed.

(** In a text whose white space is single spaces, [rstrip] takes away one
    character at most. *)
Lemma rstrip_single_short (s : string) (b : bool) :
  Text.single_spaced b s = true ->
  String.length s <= S (String.length (Text.rstrip s)).
Proof.
  revert b. induction s as [|c r IH]; intros b Hs; [simpl; lia|].
  rewrite rstrip_unfold. cbn [Text.single_spaced] in Hs.
  destruct (Text.is_space c) eqn:Ec.
  - apply andb_prop in Hs as [_ Hr].
    destruct (Text.rstrip r) as [|d t] eqn:Er.
    + destruct r as [|e r']; [simpl; lia|].
      cbn [Text.single_spaced] in Hr.
      destruct (Text.is_space e) eqn:Ee.
      * rewrite andb_false_r in Hr. discriminate Hr.
      * destruct (rstrip_cons e r' Ee) as [r'' Hr'']. congruence.
    + specialize (IH true Hr). simpl in *. lia.
  - specialize (IH false Hs).
    destruct (Text.rstrip r) as [|d t]; simpl in *; lia.
Qed.

(** X16. [summarize_text] returns the cleaned text when it has at most
    [max_chars] characters.  A longer text is cut to its first
    [max_chars - 1] characters, stripped on the right, and three dots are
    put behind: for [max_chars >= 1] the snippet then has [max_chars + 1] or
    [max_chars + 2] characters, so more than [max_chars]. *)
Theorem summarize_text_length (text : string) (k : nat) :
  let max_chars := S k in
  let clean := Text.clean text in
  let snippet := Packet.summarize_text text max_chars in
  (String.length clean <= max_chars -> snippet = clean)
  /\ (max_chars < String.length clean ->
      snippet = Text.rstrip (Quote.take_chars k clean) ++ "..."
      /\ max_chars + 1 <= String.length snippet
      /\ String.length snippet <= max_chars + 2).
Proof.
  cbv zeta. unfold Packet.summarize_text, Packet.slice_before. split.
  - intros H. apply Nat.leb_le in H. now rewrite H.
  - intros H. assert (E : Nat.leb (String.length (Text.clean text)) (S k) = false)
      by (apply Nat.leb_gt; exact H).
    rewrite E. split; [reflexivity|].
    rewrite string_length_app.
    pose proof (rstrip_length (Quote.take_chars k (Text.clean text))) as Hup.
    pose proof (rstrip_single_short (Quote.take_chars k (Text.clean text)) false
                  (take_chars_single_spaced k _ false
                     (clean_single_spaced text))) as Hlow.
    rewrite take_chars_exact in Hup, Hlow by lia.
    simpl. lia.
Qed.

(** ** Paragraphs and the choice of a body quote *)

Lemma split_blank_lines_blank (s : string) :
  Text.blank s = true ->
  forall chunk, In chunk (Quote.split_blank_lines s) -> Text.blank chunk = true.
Proof.
  assert (Hpush : forall c chunks,
             Text.is_space c = true ->
             (forall chunk, In chunk chunks -> Text.blank chunk = true) ->
             forall chunk, In chunk (Quote.push c chunks) ->
                           Text.blank chunk = true).
  { intros c [|h t] Hc Hall chunk; simpl.
    - intros [<- | []]. simpl. now rewrite Hc.
    - intros [<- | H].
      + simpl. rewrite Hc. apply Hall. now left.
      + apply Hall. now right. }
  assert (Hgen : forall n s, String.length s <= n -> Text.blank s = true ->
             forall chunk, In chunk (Quote.split_blank_lines s) ->
                           Text.blank chunk = true).
  { induction n as [|n IH]; intros [|c r] Hlen Hb; simpl in Hlen;
      try (simpl; intros chunk [<- | []]; reflexivity); [lia|].
    simpl in Hb. apply andb_prop in Hb as [Hc Hr].
    cbn [Quote.split_blank_lines].
    destruct r as [|d r'].
    - apply Hpush; [exact Hc|]. simpl. intros chunk [<- | []]. reflexivity.
    - destruct (Ascii.eqb c Quote.LF && Ascii.eqb d Quote.LF).
      + intros chunk [<- | H]; [reflexivity|].
        simpl in Hr. apply andb_prop in Hr as [_ Hr'].
        apply (IH r'); [simpl in Hlen; lia|exact Hr'|exact H].
      + apply Hpush; [exact Hc|]. apply IH; [lia|exact Hr]. }
  intros Hb. now apply (Hgen (String.length s)).
Qed.

(** X17. The paragraphs [split_paragraphs] returns are cleaned chunks of
    the body: each has the minimum length of its script (70 or 80
    characters) at least, and no white space other than single spaces
    between words, so cleaning it again changes nothing.  A body that is
    empty or white space only has no paragraph. *)
Theorem split_paragraphs_clean (cfg : shift_config) (body_text : string) :
  (forall p, In p (split_paragraphs cfg body_text) ->
             min_paragraph cfg <= String.length p
             /\ Text.clean p = p
             /\ Text.single_spaced false p = true
             /\ exists chunk, In chunk (Quote.split_blank_lines body_text)
                              /\ p = Text.clean chunk)
  /\ (Text.blank body_text = true -> 0 < min_paragraph cfg ->
      split_paragraphs cfg body_text = [])
  /\ List.length (split_paragraphs cfg body_text)
     <= List.length (Quote.split_blank_lines body_text).
Proof.
  unfold split_paragraphs. split; [|split].
  - intros p Hin. destruct body_text as [|c r]; [contradiction|].
    apply filter_In in Hin as [Hin Hlen].
    apply in_map_iff in Hin as [chunk [<- Hchunk]].
    split; [now apply Nat.leb_le|]. split; [apply clean_idem|].
    split; [apply clean_single_spaced|]. now exists chunk.
  - intros Hb Hmin. destruct body_text as [|c r]; [reflexivity|].
    set (body := String c r) in *.
    assert (Hnone : forall chunk, In chunk (Quote.split_blank_lines body) ->
               Nat.leb (min_paragraph cfg)
                       (String.length (Text.clean chunk)) = false).
    { intros chunk Hin.
      pose proof (split_blank_lines_blank body Hb chunk Hin) as Hc.
      apply normalize_blank in Hc. unfold Text.normalize in Hc.
      destruct (Text.clean chunk); [|discriminate Hc].
      apply Nat.leb_gt. simpl. exact Hmin. }
    induction (Quote.split_blank_lines body) as [|chunk t IH];
      [reflexivity|].
    simpl. rewrite (Hnone chunk) by now left.
    apply IH. intros ch Hin. apply Hnone. now right.
  - destruct body_text as [|c r]; [simpl; lia|].
    eapply Nat.le_trans; [apply filter_length_le|]. now rewrite length_map.
Qed.

Lemma sum_from (l : list nat) (a : nat) :
  fold_left Nat.add l a = a + fold_left Nat.add l 0.
Proof.
  revert a. induction l as [|x t IH]; intros a; simpl; [lia|].
  rewrite (IH (a + x)), (IH x). lia.
Qed.

Lemma sum_nat_positive (l : list nat) :
  0 < sum_nat l <-> exists x, In x l /\ 0 < x.
Proof.
  unfold sum_nat. induction l as [|x t IH]; simpl.
  - split; [lia|intros [x [[] _]]].
  - rewrite sum_from. split.
    + intros H. destruct (Nat.eq_dec x 0) as [-> | Hx].
      * destruct (proj1 IH) as [y [Hy Hpos]]; [simpl in H; lia|].
        exists y. split; [now right|exact Hpos].
      * exists x. split; [now left|lia].
    + intros [y [[<- | Hy] Hpos]]; [lia|].
      assert (0 < fold_left Nat.add t 0) by (apply IH; now exists y). lia.
Qed.

Lemma count_occurrences_positive (text : string) (probes : list string) :
  0 < Text.count_occurrences text probes
  <-> exists probe, In probe probes /\ Text.contains probe text = true.
Proof.
  induction probes as [|probe rest IH]; simpl.
  - split; [lia|intros [p [[] _]]].
  - destruct (Text.contains probe text) eqn:E.
    + split; [|lia]. intros _. exists probe. split; [now left|exact E].
    + simpl. rewrite IH. split.
      * intros [p [Hin Hc]]. exists p. split; [now right|exact Hc].
      * intros [p [[<- | Hin] Hc]]; [congruence|]. now exists p.
Qed.

Lemma paragraph_points (a b : nat) :
  (0 < Qnat a + Qnat b * (15 # 10))%Q <-> 0 < a \/ 0 < b.
Proof.
  unfold Qlt, Qplus, Qmult, Qnat, inject_Z. simpl. lia.
Qed.

(** A paragraph scores above 0 exactly when its normalized text holds a
    probe of a group of the phase or an anchor term. *)
Lemma paragraph_score_positive (cfg : shift_config) (ph : phase)
      (paragraph : string) :
  (0 < paragraph_score cfg ph paragraph)%Q
  <-> exists probe,
        (In probe (anchors cfg)
         \/ exists group, In group (phase_keywords cfg ph)
                          /\ In probe (snd group))
        /\ Text.contains probe (Text.normalize paragraph) = true.
Proof.
  unfold paragraph_score. cbv zeta. rewrite paragraph_points.
  rewrite sum_nat_positive, count_occurrences_positive.
  unfold compute_group_hits. rewrite map_map. cbn [snd]. split.
  - intros [[x [Hx Hpos]] | [probe [Hin Hc]]].
    + apply in_map_iff in Hx as [group [<- Hg]].
      apply count_occurrences_positive in Hpos as [probe [Hin Hc]].
      exists probe. split; [right; now exists group|exact Hc].
    + exists probe. split; [now left|exact Hc].
  - intros [probe [[Hin | [group [Hg Hin]]] Hc]].
    + right. now exists probe.
    + left. exists (Text.count_occurrences (Text.normalize paragraph)
                      (snd group)).
      split; [apply in_map_iff; now exists group|].
      apply count_occurrences_positive. now exists probe.
Qed.

(** X18. The quote selector of both scripts takes its quote from the body
    exactly when one of the paragraphs [split_paragraphs] returns holds,
    once normalized, an anchor term or a probe of a group of the article's
    phase; otherwise it falls back to the summary or the title. *)
Theorem body_quote_condition (cfg : shift_config) (ph : phase)
        (body_text summary title : string) :
  snd (fst (choose_quote cfg ph body_text summary title)) = body_paragraph
  <-> exists paragraph probe,
        In paragraph (split_paragraphs cfg body_text)
        /\ (In probe (anchors cfg)
            \/ exists group, In group (phase_keywords cfg ph)
                             /\ In probe (snd group))
        /\ Text.contains probe (Text.normalize paragraph) = true.
Proof.
  split.
  - unfold choose_quote.
    destruct (rank_paragraphs cfg ph (split_paragraphs cfg body_text))
      as [|[best_score best] rest] eqn:Er.
    + destruct (Quote.first_sentence summary); discriminate.
    + destruct (Qltb 0 best_score) eqn:E.
      * intros _. apply Qltb_lt in E.
        destruct (rank_paragraphs_head cfg ph _ _ _ _ Er) as (Hin & -> & _).
        apply paragraph_score_positive in E as [probe [Hp Hc]].
        now exists best, probe.
      * destruct (Quote.first_sentence summary); discriminate.
  - intros [paragraph [probe (Hin & Hp & Hc)]].
    destruct (choose_quote_cases cfg ph body_text summary title) as [Hbody _].
    destruct Hbody as (best & _ & _ & _ & _ & ->); [|reflexivity].
    exists paragraph. split; [exact Hin|].
    apply paragraph_score_positive. now exists probe.
Qed.

(** ** Where the candidates come from *)

Lemma flat_map_distinct {Row Cand : Type} (uid : Row -> string)
      (cuid : Cand -> string) (f : Row -> list Cand) (rows : list Row) :
  (forall row, f row = [] \/ exists cand, f row = [cand] /\ cuid cand = uid row) ->
  NoDup (map uid rows) -> NoDup (map cuid (flat_map f rows)).
Proof.
  intros Hf. induction rows as [|row rest IH]; simpl; intros Hnd;
    [constructor|].
  inversion Hnd as [|? ? Hout Hrest]; subst.
  destruct (Hf row) as [-> | [cand [-> Hc]]]; simpl; [now apply IH|].
  constructor; [|now apply IH].
  intros Hin. apply Hout. apply in_map_iff in Hin as [c [Hc' Hin]].
  apply in_flat_map in Hin as [row' [Hrow' Hin]].
  apply in_map_iff. exists row'. split; [|exact Hrow'].
  destruct (Hf row') as [He | [cand' [He Hc'']]]; rewrite He in Hin.
  - contradiction.
  - destruct Hin as [<- | []]. congruence.
Qed.

Lemma flat_map_short {Row Cand : Type} (f : Row -> list Cand)
      (rows : list Row) :
  (forall row, List.length (f row) <= 1) ->
  List.length (flat_map f rows) <= List.length rows.
Proof.
  intros Hf. induction rows as [|row rest IH]; simpl; [lia|].
  rewrite length_app. specialize (Hf row). lia.
Qed.

Section ScienceCandidates.

Variable sha1 : string -> string.
Variables (min_score : Q) (min_anchor_hits min_group_hits : Z).
Variables (summary_by_uid : string -> string)
          (tags_by_uid : string -> list string)
          (phase_by_uid : string -> option phase).

Local Abbreviation make :=
  (Science.make_candidate sha1 min_score min_anchor_hits min_group_hits
     summary_by_uid tags_by_uid).
Local Abbreviation scored :=
  (Science.score_candidates sha1 min_score min_anchor_hits min_group_hits
     summary_by_uid tags_by_uid phase_by_uid).

Lemma science_make_fields (ph : phase) (row : Science.article) :
  Science.c_article_uid (make ph row) = Science.article_uid row
  /\ Science.c_phase (make ph row) = ph
  /\ Science.c_include_in_story (make ph row) = false
  /\ Science.c_selection_reason (make ph row) = unset.
Proof.
  unfold Science.make_candidate.
  destruct (Science.score_article _ _ _ _ _) as [[[score hits] anchor] active].
  destruct (Science.pick_quote _ _ _ _) as [[quote source] confidence].
  repeat split.
Qed.

Lemma science_scored_from (article_rows : list Science.article)
      (cand : Science.candidate) :
  In cand (scored article_rows) ->
  exists row, In row article_rows
              /\ Science.text_state row = "full"
              /\ phase_by_uid (Science.article_uid row)
                 = Some (Science.c_phase cand)
              /\ cand = make (Science.c_phase cand) row.
Proof.
  unfold Science.score_candidates. intros Hin.
  apply in_flat_map in Hin as [row [Hrow Hin]].
  destruct (phase_by_uid (Science.article_uid row)) as [ph|] eqn:Ep;
    [|contradiction].
  destruct (String.eqb (Science.text_state row) "full") eqn:Ef;
    [|contradiction].
  destruct Hin as [<- | []].
  destruct (science_make_fields ph row) as (_ & Hph & _).
  exists row. rewrite Hph. repeat split; try assumption.
  now apply String.eqb_eq.
Qed.

Lemma science_scored_distinct (article_rows : list Science.article) :
  NoDup (map Science.article_uid article_rows) ->
  NoDup (map Science.c_article_uid (scored article_rows)).
Proof.
  unfold Science.score_candidates. apply flat_map_distinct.
  intros row. destruct (phase_by_uid (Science.article_uid row)) as [ph|];
    [|now left].
  destruct (String.eqb (Science.text_state row) "full"); [|now left].
  right. eexists. split; [reflexivity|].
  now destruct (science_make_fields ph row) as (H & _).
Qed.

Lemma science_make_title (ph : phase) (row : Science.article) :
  Science.c_title (make ph row) = Science.title row.
Proof.
  unfold Science.make_candidate.
  destruct (Science.score_article _ _ _ _ _) as [[[score hits] anchor] active].
  now destruct (Science.pick_quote _ _ _ _) as [[quote source] confidence].
Qed.

(** The candidates are the articles with a phase and full text, one for
    one and in the order of the article rows. *)
Lemma science_scored_uids (article_rows : list Science.article) :
  map Science.c_article_uid (scored article_rows)
  = map Science.article_uid
      (filter (fun row =>
                 match phase_by_uid (Science.article_uid row) with
                 | Some _ => String.eqb (Science.text_state row) "full"
                 | None => false
                 end) article_rows).
Proof.
  unfold Science.score_candidates.
  induction article_rows as [|row rest IH]; [reflexivity|].
  cbn [flat_map filter].
  destruct (phase_by_uid (Science.article_uid row)) as [ph|]; [|exact IH].
  destruct (String.eqb (Science.text_state row) "full"); [|exact IH].
  cbn [app map]. rewrite IH. f_equal.
  now destruct (science_make_fields ph row) as (H & _).
Qed.

Lemma science_scored_complete (article_rows : list Science.article)
      (row : Science.article) (ph : phase) :
  In row article_rows ->
  phase_by_uid (Science.article_uid row) = Some ph ->
  Science.text_state row = "full" ->
  In (make ph row) (scored article_rows).
Proof.
  intros Hin Hph Hfull. unfold Science.score_candidates.
  apply in_flat_map. exists row. split; [exact Hin|].
  rewrite Hph, Hfull. now left.
Qed.

End ScienceCandidates.

(** X19. The science script makes a candidate only of an article that has
    a phase and whose text state is [full], and of every such article: the
    identifiers of the candidates are the identifiers of these articles, one
    for one and in the order of the article rows, and the candidate of an
    article has its phase and title.  So distinct articles give distinct
    candidates; and every record the script selects is such an article's. *)
Theorem science_candidates_full_text (sha1 : string -> string)
        (article_rows : list Science.article)
        (summary_by_uid : string -> string)
        (tags_by_uid : string -> list string)
        (phase_by_uid : string -> option phase)
        (min_score : Q) (min_anchor_hits min_group_hits : Z) :
  let all_candidates :=
    Science.score_candidates sha1 min_score min_anchor_hits min_group_hits
      summary_by_uid tags_by_uid phase_by_uid article_rows in
  (forall cand, In cand all_candidates ->
      Science.c_include_in_story cand = false
      /\ Science.c_selection_reason cand = unset
      /\ exists row, In row article_rows
                     /\ Science.text_state row = "full"
                     /\ phase_by_uid (Science.article_uid row)
                        = Some (Science.c_phase cand)
                     /\ Science.c_article_uid cand = Science.article_uid row)
  /\ map Science.c_article_uid all_candidates
     = map Science.article_uid
         (filter (fun row =>
                    match phase_by_uid (Science.article_uid row) with
                    | Some _ => String.eqb (Science.text_state row) "full"
                    | None => false
                    end) article_rows)
  /\ (forall row ph,
         In row article_rows ->
         phase_by_uid (Science.article_uid row) = Some ph ->
         Science.text_state row = "full" ->
         exists cand, In cand all_candidates
                      /\ Science.c_article_uid cand = Science.article_uid row
                      /\ Science.c_phase cand = ph
                      /\ Science.c_title cand = Science.title row)
  /\ List.length all_candidates <= List.length article_rows
  /\ (NoDup (map Science.article_uid article_rows) ->
      NoDup (map Science.c_article_uid all_candidates))
  /\ (forall (cap : nat) (backfill_to_cap : bool) (m : Science.candidate),
         In m (fst (Science.select_candidates sha1 article_rows summary_by_uid
                      tags_by_uid phase_by_uid min_score min_anchor_hits
                      min_group_hits cap backfill_to_cap)) ->
         exists row, In row article_rows
                     /\ Science.text_state row = "full"
                     /\ phase_by_uid (Science.article_uid row)
                        = Some (Science.c_phase m)
                     /\ Science.c_article_uid m = Science.article_uid row).
Proof.
  cbv zeta. split; [|split; [|split; [|split; [|split]]]].
  - intros cand Hin.
    destruct (science_scored_from sha1 min_score min_anchor_hits
                min_group_hits summary_by_uid tags_by_uid phase_by_uid
                article_rows cand Hin) as (row & Hrow & Hfull & Hph & Hc).
    destruct (science_make_fields sha1 min_score min_anchor_hits
                min_group_hits summary_by_uid tags_by_uid
                (Science.c_phase cand) row) as (Huid & _ & Hinc & Hreason).
    rewrite <- Hc in Huid, Hinc, Hreason.
    split; [exact Hinc|]. split; [exact Hreason|]. now exists row.
  - apply science_scored_uids.
  - intros row ph Hin Hph Hfull.
    exists (Science.make_candidate sha1 min_score min_anchor_hits
              min_group_hits summary_by_uid tags_by_uid ph row).
    destruct (science_make_fields sha1 min_score min_anchor_hits
                min_group_hits summary_by_uid tags_by_uid ph row)
      as (Huid & Hp & _).
    split; [now apply science_scored_complete|].
    split; [exact Huid|]. split; [exact Hp|]. apply science_make_title.
  - unfold Science.score_candidates. apply flat_map_short. intros row.
    destruct (phase_by_uid _); [|simpl; lia].
    destruct (String.eqb _ _); simpl; lia.
  - apply science_scored_distinct.
  - intros cap bf m Hin. unfold Science.select_candidates in Hin.
    unfold Science.select_from in Hin. cbn [fst] in Hin.
    apply stable_sort_In in Hin. apply filter_In in Hin as [Hin _].
    apply in_map_iff in Hin as [cand [<- Hcand]].
    destruct (science_scored_from sha1 min_score min_anchor_hits
                min_group_hits summary_by_uid tags_by_uid phase_by_uid
                article_rows cand Hcand) as (row & Hrow & Hfull & Hph & Hc).
    destruct (science_make_fields sha1 min_score min_anchor_hits
                min_group_hits summary_by_uid tags_by_uid
                (Science.c_phase cand) row) as (Huid & _).
    rewrite <- Hc in Huid.
    exists row. unfold Science.mark_row.
    cbn [Science.c_phase Science.c_article_uid]. now repeat split.
Qed.

(** X20. [build_candidates] makes one candidate of every evidence row whose
    article is known and none of the others; the candidate has the row's
    identifier, phase, score and threshold flag, a lead group out of the
    seven, a text state that is never empty, and no decision yet.  Evidence
    rows of distinct articles give candidates with distinct identifiers. *)
Theorem build_candidates_rows (evidence_rows : list Republic.evidence_row)
        (article_by_uid : string -> option Packet.article_info) :
  let candidates := Packet.build_candidates evidence_rows article_by_uid in
  (forall cand, In cand candidates <->
      exists row article,
        In row evidence_rows
        /\ article_by_uid (Republic.e_article_uid row) = Some article
        /\ cand = Packet.candidate_of_evidence article row)
  /\ (forall cand, In cand candidates ->
         In (Packet.lead_group cand) Packet.LEAD_GROUPS
         /\ Packet.text_state cand <> EmptyString
         /\ Packet.include_in_story cand = false
         /\ Packet.reason cand = unset)
  /\ List.length candidates <= List.length evidence_rows
  /\ (NoDup (map Republic.e_article_uid evidence_rows) ->
      NoDup (map Packet.article_uid candidates)).
Proof.
  cbv zeta. unfold Packet.build_candidates.
  assert (Hfrom : forall cand,
             In cand
                (flat_map
                   (fun row =>
                      match article_by_uid (Republic.e_article_uid row) with
                      | None => []
                      | Some article =>
                          [Packet.candidate_of_evidence article row]
                      end) evidence_rows)
             <-> exists row article,
                   In row evidence_rows
                   /\ article_by_uid (Republic.e_article_uid row) = Some article
                   /\ cand = Packet.candidate_of_evidence article row).
  { intros cand. rewrite in_flat_map. split.
    - intros [row [Hrow Hin]].
      destruct (article_by_uid (Republic.e_article_uid row)) as [article|] eqn:E;
        [|contradiction].
      destruct Hin as [<- | []]. now exists row, article.
    - intros (row & article & Hrow & E & ->). exists row.
      split; [exact Hrow|]. rewrite E. now left. }
  split; [|split; [|split]].
  - intros cand. rewrite stable_sort_In. apply Hfrom.
  - intros cand Hin. apply stable_sort_In in Hin.
    apply Hfrom in Hin as (row & article & _ & _ & ->).
    unfold Packet.candidate_of_evidence.
    cbn [Packet.lead_group Packet.text_state Packet.include_in_story
           Packet.reason].
    split; [|split; [|split; reflexivity]].
    + unfold Packet.parse_lead_group.
      destruct (Text.mem _ Packet.LEAD_GROUPS) eqn:E;
        [now apply mem_In|simpl; tauto].
    + destruct (Packet.a_text_state article); discriminate.
  - rewrite stable_sort_length. apply flat_map_short. intros row.
    destruct (article_by_uid _); simpl; lia.
  - intros Hnd.
    eapply Permutation_NoDup;
      [apply Permutation_map, stable_sort_perm|].
    apply (flat_map_distinct Republic.e_article_uid Packet.article_uid);
      [|exact Hnd].
    intros row. destruct (article_by_uid _) as [article|]; [|now left].
    right. eexists. split; reflexivity.
Qed.

(** ** The reason [below_phase_cap] *)

Lemma contains_free (c : ascii) (probe text : string) :
  Text.free_of c text = true -> Text.free_of c probe = false ->
  Text.contains probe text = false.
Proof.
  intros Ht Hp. destruct (Text.contains probe text) eqn:E; [|reflexivity].
  apply contains_spec in E as (l & r & ->).
  rewrite !free_of_app, Hp, andb_false_r in Ht. discriminate Ht.
Qed.

Lemma lower_char_hyphen (c : ascii) :
  Ascii.eqb (Text.lower_char c) "-" = Ascii.eqb c "-".
Proof.
  destruct c as [[|] [|] [|] [|] [|] [|] [|] [|]]; reflexivity.
Qed.

Lemma lower_free_of_hyphen (s : string) :
  Text.free_of "-" (Text.lower s) = Text.free_of "-" s.
Proof.
  induction s as [|c r IH]; [reflexivity|]. simpl.
  now rewrite lower_char_hyphen, IH.
Qed.

Lemma uint_free_of_hyphen (u : Decimal.uint) :
  Text.free_of "-" (NilEmpty.string_of_uint u) = true.
Proof. induction u; simpl; try assumption; reflexivity. Qed.

Lemma decimal_free_of_hyphen (u : Decimal.uint) :
  Text.free_of "-" (NilZero.string_of_uint u) = true.
Proof.
  unfold NilZero.string_of_uint.
  destruct u; try reflexivity; apply (uint_free_of_hyphen (_ u)).
Qed.

Lemma zeros_free_of_hyphen (k : nat) :
  Text.free_of "-" (Text.join EmptyString (repeat "0" k)) = true.
Proof.
  induction k as [|k IH]; [reflexivity|].
  cbn [repeat Text.join]. destruct (repeat "0" k) eqn:E; [reflexivity|].
  rewrite free_of_app. simpl. exact IH.
Qed.

Lemma format_fixed_free_of_hyphen (digits : nat) (q : Q) :
  (0 <= q)%Q -> Text.free_of "-" (Render.format_fixed digits q) = true.
Proof.
  intros Hq.
  assert (Hsign : (Qnum q <? 0)%Z = false).
  { apply Z.ltb_ge. unfold Qle in Hq. simpl in Hq. lia. }
  unfold Render.format_fixed, Render.padded, Render.decimal_Z. rewrite Hsign.
  now rewrite !free_of_app, !decimal_free_of_hyphen, zeros_free_of_hyphen.
Qed.

Lemma join_free_of (c : ascii) (sep : string) (parts : list string) :
  Text.free_of c sep = true ->
  (forall part, In part parts -> Text.free_of c part = true) ->
  Text.free_of c (Text.join sep parts) = true.
Proof.
  intros Hsep. induction parts as [|p rest IH]; intros Hall; [reflexivity|].
  destruct rest as [|q rest'].
  - simpl. apply Hall. now left.
  - change (Text.join sep (p :: q :: rest'))
      with (p ++ sep ++ Text.join sep (q :: rest')).
    rewrite !free_of_app, Hsep, (Hall p (or_introl eq_refl)), IH;
      [reflexivity|].
    intros part Hin. apply Hall. now right.
Qed.

(** The rationale the critical-evidence script renders for a score that is
    not negative never holds the words the packet assembler looks for. *)
Lemma rationale_without_cap_text (ph : phase) (score : Q) (anchor_hits : nat)
      (group_hits : list (string * nat)) (selected : bool) :
  (0 <= score)%Q ->
  (forall name, In name (map fst group_hits) -> Text.free_of "-" name = true) ->
  Text.contains "per-phase cap"
    (Text.lower (Republic.build_rationale ph score anchor_hits group_hits
                   selected)) = false.
Proof.
  intros Hscore Hnames.
  set (tail := " Score=" ++ Render.format_fixed 1 score
               ++ "; phase=" ++ phase_name ph
               ++ "; anchors=" ++ Render.decimal anchor_hits
               ++ "; lead_group=" ++ lead_of group_hits
               ++ "; group_hits=["
               ++ Text.join ", "
                    (map (fun item => fst item ++ ":" ++ Render.decimal (snd item))
                         (strongest_first group_hits))
               ++ "].").
  assert (Htail : Text.contains "per-phase cap" (Text.lower tail) = false).
  { apply (contains_free "-"); [|reflexivity].
    rewrite lower_free_of_hyphen. unfold tail.
    assert (Hin : forall item, In item (strongest_first group_hits) ->
                    Text.free_of "-" (fst item) = true).
    { intros item Hi. apply Hnames, in_map.
      unfold strongest_first in Hi. now apply stable_sort_In in Hi. }
    assert (Hlead : Text.free_of "-" (lead_of group_hits) = true).
    { unfold lead_of. destruct (strongest_first group_hits) as [|item rest];
        [reflexivity|]. apply Hin. now left. }
    rewrite !free_of_app, (format_fixed_free_of_hyphen 1 score Hscore), Hlead.
    unfold Render.decimal. rewrite decimal_free_of_hyphen.
    rewrite join_free_of; [now destruct ph|reflexivity|].
    intros part Hp. apply in_map_iff in Hp as [item [<- Hi]].
    rewrite !free_of_app, (Hin item Hi), decimal_free_of_hyphen. reflexivity. }
  unfold Republic.build_rationale, render_rationale. cbv zeta. fold tail.
  destruct selected; exact Htail.
Qed.

Lemma republic_groups_hyphen_free (ph : phase) (name : string) :
  In name (map fst (Republic.PHASE_KEYWORDS ph)) ->
  Text.free_of "-" name = true.
Proof.
  destruct ph; simpl; intros H;
    repeat (destruct H as [<- | H]; [reflexivity|]); contradiction.
Qed.

(** The only way to the reason [below_phase_cap]. *)
Lemma mark_row_below_phase_cap (fto : bool) (sel : phase -> list string)
      (r : Packet.candidate) :
  Packet.reason (Packet.mark_row fto sel r) = below_phase_cap ->
  Packet.candidate_include r = true
  /\ Text.contains "per-phase cap" (Text.lower (Packet.rationale r)) = true.
Proof.
  unfold Packet.mark_row, Packet.classify_unselected_reason.
  destruct (Text.mem (Packet.article_uid r) (sel (Packet.phase_of r))).
  - destruct (Packet.candidate_include r); simpl; intros H; discriminate H.
  - destruct (Packet.candidate_include r);
      [|simpl; intros H; discriminate H].
    destruct fto, (Packet.is_full r), (Text.contains _ _); simpl; intros H;
      try discriminate H; now split.
Qed.

(** X21. The packet assembler never gives the reason [below_phase_cap] to a
    candidate made of an evidence row that a run of the critical-evidence
    script wrote, whatever the article data, the mode and the selected sets:
    a row left out because of the cap is stored as not included, and the
    rationale of a row stored as included does not hold the words
    [per-phase cap]. *)
Theorem below_phase_cap_unused (sha1 : string -> string)
        (args : Republic.arguments) (env : Republic.environment)
        (summary_by_uid : string -> string)
        (tag_slugs_by_uid : string -> list string)
        (rows : list Republic.article) (c : Republic.connection)
        (Hwet : Republic.dry_run args = false) :
  exists new,
    Republic.evidence
      (Republic.durable
         (Republic.conn
            (Republic.main sha1 args env summary_by_uid tag_slugs_by_uid
               rows c)))
    = (Republic.evidence (Republic.view c) ++ new)%list
    /\ Forall
         (fun e =>
            forall (article : Packet.article_info) (full_text_only : bool)
                   (selected : phase -> list string),
              Packet.reason
                (Packet.mark_row full_text_only selected
                   (Packet.candidate_of_evidence article e))
              <> below_phase_cap)
         new.
Proof.
  unfold Republic.main.
  set (make := Republic.make_candidate args summary_by_uid tag_slugs_by_uid).
  destruct (run_ledger_appends sha1 args env (map make rows) None c)
    as (_ & _ & new & He & _ & Hw).
  exists new. split.
  - unfold Republic.finish_run. rewrite Hwet.
    cbn [Republic.conn Republic.commit Republic.durable Republic.view
           Republic.on_view Republic.seal_run Republic.evidence].
    exact He.
  - eapply Forall_impl; [|exact Hw].
    intros e (_ & _ & _ & cand & Hcand & _ & _ & _ & _ & _ & Hinc & _
              & Hrat & _) article fto selected.
    apply in_map_iff in Hcand as [row [<- _]].
    destruct (make_candidate_fields args summary_by_uid tag_slugs_by_uid row)
      as (_ & _ & _ & _ & _ & Hr).
    fold make in Hr.
    set (ph := Republic.classify (Republic.year row)) in *.
    set (r := Republic.score_article ph _ _ _ _) in *.
    destruct (score_article_bounds Republic.config ph (Republic.title row)
                (summary_by_uid (Republic.article_uid row))
                (Republic.body_text row)
                (tag_slugs_by_uid (Republic.article_uid row)))
      as (Hscore & _ & _ & Hnames & _);
      [discriminate|discriminate|apply republic_groups_distinct|].
    fold (Republic.score_article ph (Republic.title row)
            (summary_by_uid (Republic.article_uid row))
            (tag_slugs_by_uid (Republic.article_uid row))
            (Republic.body_text row)) in Hscore, Hnames.
    fold r in Hscore, Hnames.
    intros Hreason.
    apply mark_row_below_phase_cap in Hreason as [Hci Hwords].
    cbn [Packet.candidate_include Packet.candidate_of_evidence
           Packet.rationale] in Hci, Hwords.
    rewrite Hinc in Hci. rewrite Hrat, Hci in Hwords.
    cbn [negb andb] in Hwords. rewrite Hr in Hwords.
    rewrite rationale_without_cap_text in Hwords.
    + discriminate Hwords.
    + exact Hscore.
    + intros name Hn. rewrite Hnames in Hn.
      now apply (republic_groups_hyphen_free ph).
Qed.

Lemma below_phase_cap_unused_witness :
  Republic.dry_run Scenario.lenient_args = false
  /\ exists new,
       Republic.evidence
         (Republic.durable
            (Republic.conn
               (Republic.main Scenario.plain_hash Scenario.lenient_args
                  Scenario.first_env Scenario.no_summary Scenario.no_tags
                  [Scenario.article_three_probes] Scenario.empty_connection)))
       = new
       /\ Forall
            (fun e =>
               forall (article : Packet.article_info) (full_text_only : bool)
                      (selected : phase -> list string),
                 Packet.reason
                   (Packet.mark_row full_text_only selected
                      (Packet.candidate_of_evidence article e))
                 <> below_phase_cap)
            new.
Proof.
  split; [reflexivity|].
  exact (below_phase_cap_unused Scenario.plain_hash Scenario.lenient_args
           Scenario.first_env Scenario.no_summary Scenario.no_tags
           [Scenario.article_three_probes] Scenario.empty_connection eq_refl).
Defined.

(** ** The first sentence of a summary *)

Lemma lstrip_collapse_empty (s : string) (in_ws : bool) :
  Text.lstrip (Text.collapse_from in_ws s) = EmptyString ->
  Text.blank s = true.
Proof.
  revert in_ws. induction s as [|c r IH]; intros in_ws; [reflexivity|].
  simpl. destruct (Text.is_space c) eqn:Ec.
  - destruct in_ws; simpl; apply IH.
  - simpl. rewrite Ec. discriminate.
Qed.

Lemma clean_empty_blank (s : string) :
  Text.clean s = EmptyString <-> Text.blank s = true.
Proof.
  split.
  - unfold Text.clean, Text.strip, Text.collapse_ws. intros H.
    apply (lstrip_collapse_empty s false).
    destruct (Text.lstrip (Text.collapse_from false s)) as [|c r] eqn:E;
      [reflexivity|].
    pose proof (lstrip_head _ _ _ E) as Hc.
    destruct (rstrip_cons c r Hc) as [r' Hr]. congruence.
  - intros H. apply normalize_blank in H. unfold Text.normalize in H.
    now destruct (Text.clean s).
Qed.

(** X22. [first_sentence] returns the empty text exactly for a text that is
    empty or white space only.  What it returns is a head of the cleaned
    text, followed there by white space or by nothing, and has no space at
    either end; it ends in one of [. ! ?] unless it is the whole cleaned
    text. *)
Theorem first_sentence_head (text : string) :
  (Quote.first_sentence text = EmptyString <-> Text.blank text = true)
  /\ (exists rest,
         Text.clean text = Quote.first_sentence text ++ rest
         /\ Quote.at_space_or_end rest = true)
  /\ Text.strip (Quote.first_sentence text) = Quote.first_sentence text
  /\ (Quote.ends_in_terminator (Quote.first_sentence text) = true
      \/ Quote.first_sentence text = Text.clean text).
Proof.
  destruct (first_sentence_spec text) as (Hempty & Hsome & Hnone).
  split; [now rewrite Hempty, clean_empty_blank|].
  destruct (Quote.match_sentence (Text.clean text)) as [g|] eqn:Em.
  - destruct (Hsome g eq_refl) as (Hfs & Hterm & rest & Hclean & Hrest).
    rewrite Hfs. split; [now exists rest|]. split; [|now left].
    unfold Text.strip.
    assert (Hl : Text.lstrip g = g).
    { destruct g as [|c g']; [reflexivity|].
      assert (Hc : Text.is_space c = false).
      { apply (clean_head text c (g' ++ rest)). now rewrite Hclean. }
      simpl. now rewrite Hc. }
    rewrite Hl. now apply rstrip_terminated.
  - rewrite (Hnone eq_refl). split; [|split; [apply strip_clean|now right]].
    exists EmptyString. split; [|reflexivity].
    clear. induction (Text.clean text) as [|c r IH]; simpl; congruence.
Qed.

(** ** Anchor terms across the fields *)

Lemma contains_inside (probe left text right : string) :
  Text.contains probe text = true ->
  Text.contains probe (left ++ text ++ right) = true.
Proof.
  intros H. apply contains_spec in H as (l & r & ->).
  apply contains_spec. exists (left ++ l), (r ++ right).
  now rewrite !string_app_assoc.
Qed.

Lemma count_occurrences_inside (probes : list string)
      (left text right : string) :
  Text.count_occurrences text probes
  <= Text.count_occurrences (left ++ text ++ right) probes.
Proof.
  induction probes as [|probe rest IH]; simpl; [lia|].
  destruct (Text.contains probe text) eqn:E.
  - rewrite (contains_inside probe left text right E). lia.
  - destruct (Text.contains probe (left ++ text ++ right)); lia.
Qed.

(** X23. The anchor count of [score_article] is taken over the three
    normalized fields joined by spaces, so it is at least the number of
    anchor terms found in the title alone, in the summary alone and in the
    body alone; and it can be larger than all three: the anchor
    [public sphere] is counted when the title ends in its first word and
    the summary begins with its second. *)
Theorem anchor_hits_cover_fields (cfg : shift_config)
        (title summary body_text : string) :
  let hits := article_anchor_hits cfg title summary body_text in
  Text.count_occurrences (Text.normalize title) (anchors cfg) <= hits
  /\ Text.count_occurrences (Text.normalize summary) (anchors cfg) <= hits
  /\ Text.count_occurrences (Text.normalize body_text) (anchors cfg) <= hits
  /\ (Text.count_occurrences (Text.normalize "The public")
        (anchors Republic.config) = 0
      /\ Text.count_occurrences (Text.normalize "Sphere of influence")
           (anchors Republic.config) = 0
      /\ article_anchor_hits Republic.config "The public"
           "Sphere of influence" EmptyString = 1).
Proof.
  cbv zeta. unfold article_anchor_hits.
  change (Text.join " " [Text.normalize title; Text.normalize summary;
                         Text.normalize body_text])
    with (Text.normalize title ++ " " ++ Text.normalize summary ++ " "
          ++ Text.normalize body_text).
  split; [|split; [|split]].
  - apply (count_occurrences_inside _ EmptyString).
  - rewrite <- (string_app_assoc (Text.normalize title) " ").
    apply count_occurrences_inside.
  - pose proof (count_occurrences_inside (anchors cfg)
                  (Text.normalize title ++ " " ++ Text.normalize summary
                   ++ " ") (Text.normalize body_text) EmptyString) as H.
    replace (Text.normalize body_text ++ EmptyString)
      with (Text.normalize body_text) in H.
    + now rewrite !string_app_assoc in H.
    + clear. induction (Text.normalize body_text) as [|c r IH]; simpl;
        congruence.
  - vm_compute. repeat split.
Qed.

(** ** C7: the choice of the quote *)

(** *** The first sentence, against the pattern *)

Lemma is_terminator_spec (c : ascii) :
  Quote.is_terminator c = true
  <-> (c = "."%char \/ c = "!"%char \/ c = "?"%char).
Proof.
  unfold Quote.is_terminator. rewrite !orb_true_iff, !Ascii.eqb_eq. tauto.
Qed.

Lemma at_space_or_end_spec (rest : string) :
  Quote.at_space_or_end rest = true
  <-> (rest = EmptyString
       \/ exists d rest', rest = String d rest' /\ Text.is_space d = true).
Proof.
  destruct rest as [|d rest']; simpl.
  - split; [now left|reflexivity].
  - split.
    + intros H. right. now exists d, rest'.
    + intros [H | (d' & r & H & Hs)]; [discriminate H|].
      injection H as -> _. exact Hs.
Qed.

Lemma sentence_head_grow (c0 : ascii) (g text : string) :
  Quote.sentence_head g text ->
  Quote.sentence_head (String c0 g) (String c0 text).
Proof.
  intros (body & t & rest & Hg & Hb & Ht & Htext & Hrest).
  exists (String c0 body), t, rest. repeat split; try assumption.
  - simpl. now rewrite Hg.
  - discriminate.
  - simpl. now rewrite Htext.
Qed.

(** A sentence head of a text of two characters at least either ends at
    the second character or is one character and a sentence head of the rest. *)
Lemma sentence_head_inv (c0 c : ascii) (r g : string) :
  Quote.sentence_head g (String c0 (String c r)) ->
  exists g', g = String c0 g'
             /\ ((g' = String c EmptyString
                  /\ Quote.is_terminator c = true
                  /\ Quote.at_space_or_end r = true)
                 \/ Quote.sentence_head g' (String c r)).
Proof.
  intros (body & t & rest & Hg & Hb & Ht & Htext & Hrest).
  destruct body as [|b0 body]; [contradiction|].
  rewrite Hg in Htext. simpl in Htext. injection Htext as <- Htext.
  exists (body ++ String t EmptyString). split; [now rewrite Hg|].
  destruct body as [|b1 body].
  - simpl in Htext. injection Htext as <- ->. left.
    split; [reflexivity|]. split; [now apply is_terminator_spec|].
    now apply at_space_or_end_spec.
  - right. exists (String b1 body), t, rest.
    repeat split; try assumption. discriminate.
Qed.

Lemma sentence_head_long (g text : string) :
  Quote.sentence_head g text -> 2 <= String.length g.
Proof.
  intros (body & t & rest & -> & Hb & _).
  destruct body as [|b body]; [contradiction|].
  simpl. rewrite string_length_app. simpl. lia.
Qed.

(** What [scan_sentence] finds after the first character is the shortest
    sentence head, and it finds one when there is one. *)
Lemma scan_sentence_minimal (r : string) (c0 : ascii) :
  (forall t, Quote.scan_sentence r = Some t ->
             Quote.sentence_head (String c0 t) (String c0 r)
             /\ forall g, Quote.sentence_head g (String c0 r) ->
                          String.length (String c0 t) <= String.length g)
  /\ (Quote.scan_sentence r = None ->
      forall g, ~ Quote.sentence_head g (String c0 r)).
Proof.
  revert c0. induction r as [|c r IH]; intros c0.
  - split; [discriminate|]. intros _ g Hg.
    pose proof (sentence_head_long _ _ Hg) as Hlen.
    destruct Hg as (body & t & rest & Hg & _ & _ & Htext & _).
    assert (Hl : String.length (String c0 EmptyString)
                 = String.length (g ++ rest)) by now rewrite <- Htext.
    rewrite string_length_app in Hl. simpl in Hl. lia.
  - cbn [Quote.scan_sentence].
    destruct (Quote.is_terminator c && Quote.at_space_or_end r) eqn:E.
    + apply andb_prop in E as [Et Es]. split; [|discriminate].
      intros t Ht. injection Ht as <-. split.
      * exists (String c0 EmptyString), c, r. repeat split.
        -- discriminate.
        -- now apply is_terminator_spec.
        -- now apply at_space_or_end_spec.
      * intros g Hg. apply sentence_head_long in Hg. simpl. exact Hg.
    + destruct (IH c) as [Hsome Hnone].
      assert (Hnext : forall g, Quote.sentence_head g (String c0 (String c r)) ->
                        exists g', g = String c0 g'
                                   /\ Quote.sentence_head g' (String c r)).
      { intros g Hg. apply sentence_head_inv in Hg as (g' & -> & [H | H]).
        - destruct H as (_ & Ht & Hs). rewrite Ht, Hs in E. discriminate E.
        - now exists g'. }
      destruct (Quote.scan_sentence r) as [t'|]; simpl.
      * split; [|discriminate]. intros t Ht. injection Ht as <-.
        destruct (Hsome t' eq_refl) as [Hhead Hmin]. split.
        -- now apply sentence_head_grow.
        -- intros g Hg. apply Hnext in Hg as (g' & -> & Hg').
           specialize (Hmin g' Hg'). simpl in *. lia.
      * split; [discriminate|]. intros _ g Hg.
        apply Hnext in Hg as (g' & -> & Hg').
        exact (Hnone eq_refl g' Hg').
Qed.

Lemma heads_of_equal_length (a b ra rb : string) :
  a ++ ra = b ++ rb -> String.length a = String.length b -> a = b.
Proof.
  revert b. induction a as [|x a IH]; intros [|y b]; simpl; intros H Hl;
    try reflexivity; try discriminate.
  injection H as -> H. f_equal. apply IH; [exact H|lia].
Qed.

(** [first_sentence], stated on the cleaned text alone: the shortest
    sentence head when there is one, else the whole cleaned text. *)
Lemma first_sentence_shortest (text : string) :
  (forall g, Quote.sentence_head g (Text.clean text) ->
             (forall g', Quote.sentence_head g' (Text.clean text) ->
                         String.length g <= String.length g') ->
             Quote.first_sentence text = g)
  /\ ((exists g, Quote.sentence_head g (Text.clean text)) ->
      Quote.sentence_head (Quote.first_sentence text) (Text.clean text))
  /\ ((forall g, ~ Quote.sentence_head g (Text.clean text)) ->
      Quote.first_sentence text = Text.clean text).
Proof.
  destruct (first_sentence_spec text) as (_ & Hsome & Hnone).
  assert (Hmatch :
    (forall g0, Quote.match_sentence (Text.clean text) = Some g0 ->
                Quote.sentence_head g0 (Text.clean text)
                /\ forall g, Quote.sentence_head g (Text.clean text) ->
                             String.length g0 <= String.length g)
    /\ (Quote.match_sentence (Text.clean text) = None ->
        forall g, ~ Quote.sentence_head g (Text.clean text))).
  { destruct (Text.clean text) as [|c0 r].
    - split; [discriminate|]. intros _ g Hg.
      pose proof (sentence_head_long _ _ Hg) as Hlen.
      destruct Hg as (body & t & rest & _ & _ & _ & Htext & _).
      destruct g; [simpl in Hlen; lia|discriminate Htext].
    - unfold Quote.match_sentence.
      destruct (scan_sentence_minimal r c0) as [Hs Hn].
      destruct (Quote.scan_sentence r) as [t|]; simpl.
      + split; [|discriminate]. intros g0 H. injection H as <-.
        now apply Hs.
      + split; [discriminate|]. intros _. now apply Hn. }
  destruct Hmatch as [Hfound Hmissing].
  destruct (Quote.match_sentence (Text.clean text)) as [g0|] eqn:Em.
  - destruct (Hsome g0 eq_refl) as (Hfs & _).
    destruct (Hfound g0 eq_refl) as [Hhead Hmin].
    split; [|split].
    + intros g Hg Hshort. rewrite Hfs. symmetry.
      destruct Hg as (body & t & rest & Hg & Hb & Ht & Htext & Hrest).
      destruct Hhead as (body0 & t0 & rest0 & Hg0 & Hb0 & Ht0 & Htext0 & Hrest0).
      apply (heads_of_equal_length g g0 rest rest0); [congruence|].
      apply Nat.le_antisymm.
      * apply Hshort. exists body0, t0, rest0. repeat split; assumption.
      * apply Hmin. exists body, t, rest. repeat split; assumption.
    + intros _. now rewrite Hfs.
    + intros Hno. exfalso. exact (Hno g0 Hhead).
  - split; [|split].
    + intros g Hg _. exfalso. exact (Hmissing eq_refl g Hg).
    + intros [g Hg]. exfalso. exact (Hmissing eq_refl g Hg).
    + intros _. now apply Hnone.
Qed.

(** *** The shortened quote is a head of the paragraph *)

Lemma app_empty_r (s : string) : s ++ EmptyString = s.
Proof. induction s as [|c r IH]; simpl; congruence. Qed.

Lemma head_of_head (a b c ra rb : string) :
  b = a ++ ra -> c = b ++ rb -> exists rest, c = a ++ rest.
Proof.
  intros -> ->. exists (ra ++ rb). now rewrite string_app_assoc.
Qed.

Lemma rstrip_is_head (s : string) : exists rest, s = Text.rstrip s ++ rest.
Proof.
  induction s as [|c r [rest IH]]; [now exists EmptyString|].
  rewrite rstrip_unfold. destruct (Text.rstrip r) as [|d t].
  - destruct (Text.is_space c).
    + now exists (String c r).
    + exists r. reflexivity.
  - exists rest. simpl in *. now rewrite <- IH.
Qed.

Lemma strip_is_head (s : string) :
  (forall c r, s = String c r -> Text.is_space c = false) ->
  exists rest, s = Text.strip s ++ rest.
Proof.
  intros Hfirst. unfold Text.strip.
  assert (Hl : Text.lstrip s = s).
  { destruct s as [|c r]; [reflexivity|]. simpl.
    now rewrite (Hfirst c r eq_refl). }
  rewrite Hl. apply rstrip_is_head.
Qed.

Lemma take_chars_is_head (n : nat) (s : string) :
  exists rest, s = Quote.take_chars n s ++ rest.
Proof.
  unfold Quote.take_chars. revert s.
  induction n as [|n IH]; intros [|c r]; simpl;
    try (now exists EmptyString); try (now eexists).
  destruct (IH r) as [rest Hr]. exists rest. now rewrite <- Hr.
Qed.

Lemma before_last_space_is_head (s : string) :
  exists rest, s = Quote.before_last_space s ++ rest.
Proof.
  induction s as [|c r [rest IH]]; [now exists EmptyString|]. simpl.
  destruct (Ascii.eqb c " " && negb (Text.contains " " r)).
  - now exists (String c r).
  - exists rest. simpl. now rewrite <- IH.
Qed.

Lemma split_sentences_some (prev skipping : bool) (s : string) :
  Quote.split_sentences prev skipping s <> [].
Proof.
  revert prev skipping. induction s as [|c r IH]; intros prev skipping; simpl;
    [discriminate|].
  assert (Hpush : forall l, Quote.push c l <> [])
    by (intros [|h t]; discriminate).
  destruct (Text.is_space c); [|apply Hpush].
  destruct skipping; [apply IH|].
  destruct prev; [discriminate|apply Hpush].
Qed.

Lemma join_push (c : ascii) (l : list string) :
  l <> [] -> Text.join " " (Quote.push c l) = String c (Text.join " " l).
Proof.
  destruct l as [|h [|h' t]]; [contradiction| |]; reflexivity.
Qed.

(** In a text whose white space is single spaces, the sentences joined by
    spaces are the text again. *)
Lemma join_split_sentences (s : string) (prev skipping b : bool) :
  Text.single_spaced b s = true -> (skipping = true -> b = true) ->
  Text.join " " (Quote.split_sentences prev skipping s) = s.
Proof.
  revert prev skipping b.
  induction s as [|c r IH]; intros prev skipping b Hs Hskip; [reflexivity|].
  cbn [Quote.split_sentences]. cbn [Text.single_spaced] in Hs.
  destruct (Text.is_space c) eqn:Ec.
  - apply andb_prop in Hs as [Hs Hr]. apply andb_prop in Hs as [Hc Hb].
    apply Ascii.eqb_eq in Hc. apply negb_true_iff in Hb. subst c b.
    destruct skipping; [specialize (Hskip eq_refl); discriminate Hskip|].
    destruct prev.
    + pose proof (split_sentences_some false true r) as Hne.
      destruct (Quote.split_sentences false true r) as [|h t] eqn:E;
        [contradiction|].
      change (Text.join " " (EmptyString :: h :: t))
        with (String " " (Text.join " " (h :: t))).
      rewrite <- E. now rewrite (IH false true true Hr).
    + rewrite join_push by apply split_sentences_some.
      rewrite (IH false false true Hr); [reflexivity|discriminate].
  - rewrite join_push by apply split_sentences_some.
    rewrite (IH _ false false Hs); [reflexivity|discriminate].
Qed.

Lemma push_parts (c : ascii) (l : list string) :
  tl (Quote.push c l) = tl l
  /\ hd EmptyString (Quote.push c l) = String c (hd EmptyString l).
Proof. destruct l; split; reflexivity. Qed.

(** In a text without a space at its end, every sentence but perhaps the
    first is non-empty, and so is the first when the text does not begin
    with a space. *)
Lemma split_sentences_filled (s : string) (prev skipping b : bool) :
  Text.single_spaced b s = true -> Text.rstrip s = s ->
  (skipping = true -> b = true) ->
  Forall (fun x => x <> EmptyString)
         (tl (Quote.split_sentences prev skipping s))
  /\ (forall c r, s = String c r -> Text.is_space c = false ->
                  hd EmptyString (Quote.split_sentences prev skipping s)
                  <> EmptyString).
Proof.
  revert prev skipping b.
  induction s as [|c r IH]; intros prev skipping b Hs Hend Hskip.
  - simpl. split; [constructor|discriminate].
  - cbn [Quote.split_sentences]. cbn [Text.single_spaced] in Hs.
    rewrite rstrip_unfold in Hend.
    destruct (Text.is_space c) eqn:Ec.
    + apply andb_prop in Hs as [Hs Hr]. apply andb_prop in Hs as [Hc Hb].
      apply negb_true_iff in Hb. subst b.
      destruct skipping; [specialize (Hskip eq_refl); discriminate Hskip|].
      assert (Hr' : Text.rstrip r = r /\ exists d r', r = String d r'
                                                     /\ Text.is_space d = false).
      { destruct (Text.rstrip r) as [|d t] eqn:E; [discriminate Hend|].
        injection Hend as Hend. split; [exact Hend|].
        destruct r as [|d' r']; [discriminate E|].
        exists d', r'. split; [reflexivity|].
        cbn [Text.single_spaced] in Hr.
        destruct (Text.is_space d'); [|reflexivity].
        rewrite andb_false_r in Hr. discriminate Hr. }
      destruct Hr' as (Hend' & d & r' & Hd & Hsd).
      destruct prev.
      * destruct (IH false true true Hr Hend' (fun _ => eq_refl))
          as [Htl Hhd].
        split; [|intros c' r'' H; injection H as -> _; congruence].
        cbn [tl].
        pose proof (split_sentences_some false true r) as Hne.
        destruct (Quote.split_sentences false true r) as [|h t];
          [contradiction|].
        constructor; [|exact Htl]. exact (Hhd d r' Hd Hsd).
      * destruct (IH false false true Hr Hend') as [Htl _]; [discriminate|].
        destruct (push_parts c (Quote.split_sentences false false r))
          as [Ht _].
        rewrite Ht. split; [exact Htl|].
        intros c' r'' H; injection H as -> _; congruence.
    + assert (Hend' : Text.rstrip r = r).
      { destruct (Text.rstrip r) as [|d t] eqn:E.
        - injection Hend as Hend. now rewrite <- Hend.
        - now injection Hend as Hend. }
      destruct (IH (Quote.is_terminator c) false false Hs Hend')
        as [Htl _]; [discriminate|].
      destruct (push_parts c
                  (Quote.split_sentences (Quote.is_terminator c) false r))
        as [Ht Hh].
      rewrite Ht, Hh. split; [exact Htl|]. intros; discriminate.
Qed.

Lemma take_sentences_prefix (max_chars : nat) (sentences : list string) :
  Forall (fun x => x <> EmptyString) sentences ->
  forall total selected,
  exists k, Quote.take_sentences max_chars total selected sentences
            = (selected ++ firstn k sentences)%list.
Proof.
  induction 1 as [|sentence rest Hne Hall IH]; intros total selected.
  - exists 0. simpl. now rewrite app_nil_r.
  - destruct sentence as [|c r]; [contradiction|].
    set (sentence := String c r).
    change (Quote.take_sentences max_chars total selected (sentence :: rest))
      with (if Nat.ltb max_chars
                 (total + String.length sentence
                  + match selected with [] => 0 | _ => 1 end)
            then selected
            else Quote.take_sentences max_chars
                   (total + String.length sentence
                    + match selected with [] => 0 | _ => 1 end)
                   (selected ++ [sentence])%list rest).
    destruct (Nat.ltb _ _).
    + exists 0. simpl. now rewrite app_nil_r.
    + destruct (IH (total + String.length sentence
                    + match selected with [] => 0 | _ => 1 end)
                   (selected ++ [sentence])%list) as [k Hk].
      exists (S k). rewrite Hk. simpl. now rewrite <- app_assoc.
Qed.

Lemma join_firstn_is_head (k : nat) (parts : list string) :
  exists rest, Text.join " " parts = Text.join " " (firstn k parts) ++ rest.
Proof.
  revert k. induction parts as [|p rest IH]; intros k.
  - rewrite firstn_nil. now exists EmptyString.
  - destruct k as [|k]; [simpl; now eexists|].
    destruct rest as [|q rest'].
    + cbn [firstn]. rewrite firstn_nil. simpl. exists EmptyString.
      now rewrite app_empty_r.
    + destruct (IH k) as [tail Ht].
      change (Text.join " " (p :: q :: rest'))
        with (p ++ " " ++ Text.join " " (q :: rest')).
      cbn [firstn]. fold (firstn k (q :: rest')).
      destruct (firstn k (q :: rest')) as [|h t] eqn:E.
      * simpl. now eexists.
      * change (Text.join " " (p :: h :: t))
          with (p ++ " " ++ Text.join " " (h :: t)).
        exists tail. rewrite Ht, !string_app_assoc. reflexivity.
Qed.

(** [shorten_quote] returns a head of the cleaned paragraph. *)
Lemma shorten_quote_head (paragraph : string) (max_chars : nat) :
  exists rest,
    Text.clean paragraph = Quote.shorten_quote paragraph max_chars ++ rest.
Proof.
  unfold Quote.shorten_quote.
  destruct (Nat.leb (String.length (Text.clean paragraph)) max_chars) eqn:E.
  - exists EmptyString. now rewrite app_empty_r.
  - apply Nat.leb_gt in E.
    set (clean := Text.clean paragraph) in *.
    assert (Hfirst : forall h rest c r,
               clean = h ++ rest -> h = String c r -> Text.is_space c = false).
    { intros h rest c r Hh ->. apply (clean_head paragraph c (r ++ rest)).
      exact Hh. }
    assert (Hss : Text.single_spaced false clean = true)
      by apply clean_single_spaced.
    assert (Hend : Text.rstrip clean = clean).
    { unfold clean, Text.clean, Text.strip. apply rstrip_idem. }
    destruct (split_sentences_filled clean false false false Hss Hend)
      as [Htl Hhd]; [discriminate|].
    pose proof (join_split_sentences clean false false false Hss) as Hjoin.
    pose proof (split_sentences_some false false clean) as Hsome.
    assert (Hall : Forall (fun x => x <> EmptyString)
                          (Quote.split_sentences false false clean)).
    { destruct clean as [|c r] eqn:Ec; [simpl in E; lia|].
      rewrite <- Ec in *.
      destruct (Quote.split_sentences false false clean) as [|h t];
        [contradiction|].
      constructor; [|exact Htl].
      apply (Hhd c r Ec).
      apply (clean_head paragraph c r). exact Ec. }
    destruct (take_sentences_prefix max_chars _ Hall 0 []) as [k Hk].
    rewrite Hk. cbn [app].
    destruct (join_firstn_is_head k (Quote.split_sentences false false clean))
      as [tail Htail].
    rewrite Hjoin in Htail by discriminate.
    destruct (firstn k (Quote.split_sentences false false clean))
      as [|s sel] eqn:Ef.
    + destruct (take_chars_is_head max_chars clean) as [r1 H1].
      destruct (before_last_space_is_head (Quote.take_chars max_chars clean))
        as [r2 H2].
      destruct (head_of_head _ _ _ _ _ H2 H1) as [r3 H3].
      destruct (strip_is_head
                  (Quote.before_last_space (Quote.take_chars max_chars clean)))
        as [r4 H4].
      { intros c r Hc. exact (Hfirst _ _ c r H3 Hc). }
      exact (head_of_head _ _ _ _ _ H4 H3).
    + destruct (strip_is_head (Text.join " " (s :: sel))) as [r4 H4].
      { intros c r Hc. exact (Hfirst _ _ c r Htail Hc). }
      exact (head_of_head _ _ _ _ _ H4 Htail).
Qed.

(** *** The claim *)

(** C7, as the specification words it, fails twice.  The only paragraph of
    the body has 647 characters and scores above 0, and the quote is not
    that paragraph but its first seven sentences, 503 characters.  And the
    summary without [. ! ?] is quoted whole, so the quote taken from a
    summary need not end in one of the three. *)
Lemma quote_selection_counterexample :
  Republic.split_paragraphs Scenario.long_paragraph = [Scenario.long_paragraph]
  /\ (0 < Republic.paragraph_score Before Scenario.long_paragraph)%Q
  /\ fst (fst (Republic.choose_quote Before Scenario.long_paragraph
                 EmptyString "Title"))
     <> Scenario.long_paragraph
  /\ String.length
       (fst (fst (Republic.choose_quote Before Scenario.long_paragraph
                    EmptyString "Title"))) = 503
  /\ String.length Scenario.long_paragraph = 647
  /\ Republic.choose_quote Before EmptyString Scenario.open_summary "Title"
     = (Scenario.open_summary, summary_sentence, (42 # 100)%Q)
  /\ Quote.ends_in_terminator Scenario.open_summary = false.
Proof.
  split; [vm_compute; reflexivity|]. split; [vm_compute; reflexivity|].
  split.
  { intros H. apply (f_equal String.length) in H. vm_compute in H.
    discriminate H. }
  repeat split; vm_compute; reflexivity.
Qed.

Section QuoteClaim.

Variable cfg : shift_config.

Lemma quote_from_body (ph : phase) (body_text summary title : string) :
  (exists p, In p (split_paragraphs cfg body_text)
             /\ (0 < paragraph_score cfg ph p)%Q) ->
  exists best quote confidence,
    choose_quote cfg ph body_text summary title
    = (quote, body_paragraph, confidence)
    /\ In best (split_paragraphs cfg body_text)
    /\ min_paragraph cfg <= String.length best
    /\ (forall p, In p (split_paragraphs cfg body_text) ->
                  (paragraph_score cfg ph p <= paragraph_score cfg ph best)%Q)
    /\ (0 < paragraph_score cfg ph best)%Q
    /\ quote = Quote.shorten_quote best 520
    /\ String.length quote <= 520
    /\ (exists rest, best = quote ++ rest)
    /\ (String.length best <= 520 -> quote = best)
    /\ (confidence <= 1)%Q
    /\ (confidence <= (45 # 100) + paragraph_score cfg ph best / 20)%Q
    /\ (confidence = 1%Q
        \/ confidence = ((45 # 100) + paragraph_score cfg ph best / 20)%Q).
Proof.
  intros Hex.
  destruct (choose_quote_cases cfg ph body_text summary title) as (H1 & _).
  destruct (H1 Hex) as (best & Hin & Hlen & Hmax & Hpos & Hres).
  exists best, (Quote.shorten_quote best 520),
    (py_min 1 ((45 # 100) + paragraph_score cfg ph best / 20)%Q).
  assert (Hclean : Text.clean best = best).
  { unfold split_paragraphs in Hin. destruct body_text; [contradiction|].
    apply filter_In in Hin as [Hin _].
    apply in_map_iff in Hin as [chunk [<- _]]. apply clean_idem. }
  destruct (py_min_spec 1 ((45 # 100) + paragraph_score cfg ph best / 20)%Q)
    as (Hle1 & Hle2 & Hor).
  split; [exact Hres|]. split; [exact Hin|]. split; [exact Hlen|].
  split; [exact Hmax|]. split; [exact Hpos|]. split; [reflexivity|].
  split; [apply shorten_quote_bound|]. split.
  { destruct (shorten_quote_head best 520) as [rest Hrest].
    exists rest. now rewrite Hclean in Hrest. }
  split; [intros Hshort; now apply (shorten_quote_short cfg body_text)|].
  split; [exact Hle1|]. split; [exact Hle2|exact Hor].
Qed.

Lemma quote_from_summary_or_title (ph : phase)
      (body_text summary title : string) :
  (forall p, In p (split_paragraphs cfg body_text) ->
             ~ (0 < paragraph_score cfg ph p)%Q) ->
  (Text.blank summary = false ->
   choose_quote cfg ph body_text summary title
   = (Quote.first_sentence summary, summary_sentence, (42 # 100)%Q))
  /\ (Text.blank summary = true ->
      choose_quote cfg ph body_text summary title
      = (Text.strip title, title_source, (25 # 100)%Q)).
Proof.
  intros Hnone.
  destruct (choose_quote_cases cfg ph body_text summary title)
    as (_ & H2 & H3).
  destruct (first_sentence_spec summary) as (Hempty & _).
  split.
  - intros Hb. apply (H2 Hnone). intros He.
    apply Hempty, clean_empty_blank in He. congruence.
  - intros Hb. apply (H3 Hnone). now apply Hempty, clean_empty_blank.
Qed.

End QuoteClaim.

(** C7, amended. In both scoring scripts the quote selector works in three
    steps.  When a qualifying paragraph of the body scores above 0, the
    quote is taken from a qualifying paragraph of largest score: it is what
    [shorten_quote] makes of it, the paragraph itself when it has at most
    520 characters and else a head of it of at most 520 characters; the
    source is [body_paragraph] and the confidence the smaller of 1.0 and
    [0.45 + score / 20].  Otherwise, for a summary that is not blank, the
    quote is the first sentence of the cleaned summary with source
    [summary_sentence] and confidence 0.42: the shortest head of the cleaned
    summary that has two characters at least, ends in one of [. ! ?] and is
    followed by white space or by the end, and the whole cleaned summary
    when it has no such head.  For an empty or blank summary the quote is
    the trimmed title with source [title] and confidence 0.25. *)
Theorem quote_selection (ph : phase) (body_text summary title : string) :
  (* choose_quote of the republic script *)
  ((exists p, In p (Republic.split_paragraphs body_text)
              /\ (0 < Republic.paragraph_score ph p)%Q) ->
   exists best quote confidence,
     Republic.choose_quote ph body_text summary title
     = (quote, body_paragraph, confidence)
     /\ In best (Republic.split_paragraphs body_text)
     /\ 70 <= String.length best
     /\ (forall p, In p (Republic.split_paragraphs body_text) ->
                   (Republic.paragraph_score ph p
                    <= Republic.paragraph_score ph best)%Q)
     /\ (0 < Republic.paragraph_score ph best)%Q
     /\ quote = Quote.shorten_quote best 520
     /\ String.length quote <= 520
     /\ (exists rest, best = quote ++ rest)
     /\ (String.length best <= 520 -> quote = best)
     /\ (confidence <= 1)%Q
     /\ (confidence <= (45 # 100) + Republic.paragraph_score ph best / 20)%Q
     /\ (confidence = 1%Q
         \/ confidence
            = ((45 # 100) + Republic.paragraph_score ph best / 20)%Q))
  /\ ((forall p, In p (Republic.split_paragraphs body_text) ->
                 ~ (0 < Republic.paragraph_score ph p)%Q) ->
      (Text.blank summary = false ->
       Republic.choose_quote ph body_text summary title
       = (Quote.first_sentence summary, summary_sentence, (42 # 100)%Q))
      /\ (Text.blank summary = true ->
          Republic.choose_quote ph body_text summary title
          = (Text.strip title, title_source, (25 # 100)%Q)))
  (* pick_quote of the science script *)
  /\ ((exists p, In p (Science.split_paragraphs body_text)
                 /\ (0 < Science.paragraph_score ph p)%Q) ->
      exists best quote confidence,
        Science.pick_quote ph body_text summary title
        = (quote, body_paragraph, confidence)
        /\ In best (Science.split_paragraphs body_text)
        /\ 80 <= String.length best
        /\ (forall p, In p (Science.split_paragraphs body_text) ->
                      (Science.paragraph_score ph p
                       <= Science.paragraph_score ph best)%Q)
        /\ (0 < Science.paragraph_score ph best)%Q
        /\ quote = Quote.shorten_quote best 520
        /\ String.length quote <= 520
        /\ (exists rest, best = quote ++ rest)
        /\ (String.length best <= 520 -> quote = best)
        /\ (confidence <= 1)%Q
        /\ (confidence <= (45 # 100) + Science.paragraph_score ph best / 20)%Q
        /\ (confidence = 1%Q
            \/ confidence
               = ((45 # 100) + Science.paragraph_score ph best / 20)%Q))
  /\ ((forall p, In p (Science.split_paragraphs body_text) ->
                 ~ (0 < Science.paragraph_score ph p)%Q) ->
      (Text.blank summary = false ->
       Science.pick_quote ph body_text summary title
       = (Quote.first_sentence summary, summary_sentence, (42 # 100)%Q))
      /\ (Text.blank summary = true ->
          Science.pick_quote ph body_text summary title
          = (Text.strip title, title_source, (25 # 100)%Q)))
  (* the first sentence of the summary *)
  /\ (Quote.first_sentence summary = EmptyString
      <-> Text.blank summary = true)
  /\ (forall g, Quote.sentence_head g (Text.clean summary) ->
                (forall g', Quote.sentence_head g' (Text.clean summary) ->
                            String.length g <= String.length g') ->
                Quote.first_sentence summary = g)
  /\ ((exists g, Quote.sentence_head g (Text.clean summary)) ->
      Quote.sentence_head (Quote.first_sentence summary) (Text.clean summary))
  /\ ((forall g, ~ Quote.sentence_head g (Text.clean summary)) ->
      Quote.first_sentence summary = Text.clean summary).
Proof.
  split; [exact (quote_from_body Republic.config ph body_text summary title)|].
  split; [exact (quote_from_summary_or_title Republic.config ph body_text
                   summary title)|].
  split; [exact (quote_from_body Science.config ph body_text summary title)|].
  split; [exact (quote_from_summary_or_title Science.config ph body_text
                   summary title)|].
  split.
  { destruct (first_sentence_spec summary) as (Hempty & _).
    now rewrite Hempty, clean_empty_blank. }
  apply first_sentence_shortest.
Qed.

(** The second paragraph of the scenario body is quoted by the republic
    script; without a body the first sentence of the summary is quoted, and
    without a summary the trimmed title. *)
Lemma quote_selection_witness :
  (exists p, In p (Republic.split_paragraphs Scenario.quoted_body)
             /\ (0 < Republic.paragraph_score Before p)%Q)
  /\ (exists best quote confidence,
        Republic.choose_quote Before Scenario.quoted_body "A first note."
                              "Learning"
        = (quote, body_paragraph, confidence)
        /\ quote = Quote.shorten_quote best 520)
  /\ (forall p, In p (Republic.split_paragraphs EmptyString) ->
                ~ (0 < Republic.paragraph_score Before p)%Q)
  /\ Text.blank "A first note. And more." = false
  /\ Republic.choose_quote Before EmptyString "A first note. And more." " Learning "
     = (Quote.first_sentence "A first note. And more.", summary_sentence,
        (42 # 100)%Q)
  /\ Text.blank "  " = true
  /\ Republic.choose_quote Before EmptyString "  " " Learning "
     = (Text.strip " Learning ", title_source, (25 # 100)%Q)
  /\ Quote.sentence_head "A first note."
       (Text.clean "A first note. And more.")
  /\ Quote.sentence_head (Quote.first_sentence "A first note. And more.")
       (Text.clean "A first note. And more.").
Proof.
  assert (Hex : exists p, In p (Republic.split_paragraphs Scenario.quoted_body)
                          /\ (0 < Republic.paragraph_score Before p)%Q).
  { exists Scenario.quoted_paragraph. split.
    - left. vm_compute. reflexivity.
    - vm_compute. reflexivity. }
  assert (Hnone : forall p, In p (Republic.split_paragraphs EmptyString) ->
                            ~ (0 < Republic.paragraph_score Before p)%Q)
    by (intros p []).
  assert (Hhead : Quote.sentence_head "A first note."
                    (Text.clean "A first note. And more.")).
  { exists "A first note", "."%char, " And more.".
    repeat split; try reflexivity; try discriminate; [now left|].
    right. now exists " "%char, "And more.". }
  refine (conj Hex (conj _ (conj Hnone (conj eq_refl (conj _ (conj eq_refl
            (conj _ (conj Hhead _)))))))).
  - destruct (proj1 (quote_selection Before Scenario.quoted_body "A first note."
                       "Learning") Hex)
      as (best & quote & confidence & Hres & _ & _ & _ & _ & Hq & _).
    exists best, quote, confidence. now split.
  - exact (proj1 (proj1 (proj2 (quote_selection Before EmptyString
                                  "A first note. And more." " Learning "))
                        Hnone) eq_refl).
  - exact (proj2 (proj1 (proj2 (quote_selection Before EmptyString "  "
                                  " Learning ")) Hnone) eq_refl).
  - exact (proj1 (proj2 (proj2 (proj2 (proj2 (proj2 (proj2
             (quote_selection Before EmptyString "A first note. And more."
                              " Learning ")))))))
             (ex_intro _ "A first note." Hhead)).
Defined.
